(** * Glimmer template front end: AST builder utility and Handlebars node visitors

    A shallow embedding of two TypeScript modules of the Glimmer VM syntax
    package, and of the custom helper manager of the manager package:

    - the span-tracking [AstBuilder] utility (cursor [pos], [consume],
      [spanned], and the node constructors built on them), together with the
      helper functions [path], [atPath], [mustache], [literal], [hash];
    - the [HandlebarsNodeVisitors] translator ([Program], [BlockStatement],
      [MustacheStatement], [PathExpression], [_injectStatement],
      [acceptCallNodes], [calculateRightStrippedOffsets],
      [updateTokenizerLocation], ...);
    - [helperCapabilities] and the delegates of [CustomHelperManager].

    JavaScript strings are modelled as [string] (sequences of 8-bit code
    units), so [length] is [String.length]; the only line terminators that can
    occur are LF and CR.  Exceptions are modelled by a result type. *)

From Stdlib Require Import String Ascii List Arith Bool Lia ZArith DecimalString.
Import ListNotations.
Set Warnings "-register-all".
Open Scope list_scope.
Open Scope string_scope.

(* ================================================================== *)
(** ** JavaScript string primitives used by the two modules *)

Module JsString.

Definition LF : ascii := ascii_of_nat 10.
Definition CR : ascii := ascii_of_nat 13.
Definition newline : string := String LF EmptyString.

(** [s.split(sep)] for a non-empty separator [sep]: the pieces of [s]
    between the successive (left-to-right, non-overlapping) occurrences of
    [sep].  [skip] counts the characters of a matched separator that are
    still to be dropped.  The result always has at least one piece. *)
Fixpoint split_from (sep s : string) (skip : nat) : list string :=
  match s with
  | EmptyString => [EmptyString]
  | String c s' =>
      match skip with
      | S k => split_from sep s' k
      | O =>
          if prefix sep s
          then EmptyString :: split_from sep s' (String.length sep - 1)
          else match split_from sep s' 0 with
               | piece :: pieces => String c piece :: pieces
               | [] => [String c EmptyString]
               end
      end
  end.

Definition split (sep s : string) : list string := split_from sep s 0.

(** [parts.join(sep)] *)
Fixpoint join (sep : string) (parts : list string) : string :=
  match parts with
  | [] => EmptyString
  | [p] => p
  | p :: rest => p ++ sep ++ join sep rest
  end.

(** [s.indexOf(c) !== -1] for a one-character needle. *)
Fixpoint contains_char (c : ascii) (s : string) : bool :=
  match s with
  | EmptyString => false
  | String a s' => if Ascii.eqb a c then true else contains_char c s'
  end.

(** A regular-expression [.] matches every code unit but a line
    terminator. *)
Definition is_line_terminator (c : ascii) : bool :=
  Ascii.eqb c LF || Ascii.eqb c CR.

Fixpoint no_line_terminator (s : string) : bool :=
  match s with
  | EmptyString => true
  | String a s' => negb (is_line_terminator a) && no_line_terminator s'
  end.

(** [s] without the prefix [pre], when it starts with it. *)
Fixpoint strip_prefix (pre s : string) : option string :=
  match pre with
  | EmptyString => Some s
  | String a pre' =>
      match s with
      | EmptyString => None
      | String b s' => if Ascii.eqb a b then strip_prefix pre' s' else None
      end
  end.

(** [s.match(/^this(\..+)?$/)] is not null: [s] is [this], or [this.]
    followed by at least one character, none of them a line terminator
    (with no [m] flag, [$] only matches at the very end of the input). *)
Definition matches_this (s : string) : bool :=
  match strip_prefix "this" s with
  | None => false
  | Some EmptyString => true
  | Some (String c rest) =>
      Ascii.eqb c "."%char &&
      match rest with
      | EmptyString => false
      | String _ _ => no_line_terminator rest
      end
  end.

(** [s[0] === '@'] *)
Definition starts_with_at (s : string) : bool :=
  match s with
  | String c _ => Ascii.eqb c "@"%char
  | EmptyString => false
  end.

End JsString.

(* ================================================================== *)
(** ** Exceptions *)

(** A computation either returns a value or throws. *)
Inductive Result (E A : Type) : Type :=
| Ok (a : A)
| Throw (e : E).
Arguments Ok {E A} a.
Arguments Throw {E A} e.

(* ================================================================== *)
(** ** The nodes produced by the AST builder ([../types/handlebars-ast]) *)

Module hbs.

Record Span : Type := MkSpan { start : nat; end_ : nat }.

Record StripFlags : Type := MkStrip { open : bool; close : bool }.

Inductive Head : Type :=
| LocalReference (span : Span) (name : string)
| This (span : Span)
| ArgReference (span : Span) (name : string).

Inductive PathSegment : Type :=
| MkPathSegment (span : Span) (name : string).

Inductive PathExpression : Type :=
| MkPathExpression (span : Span) (head : Head) (tail : option (list PathSegment)).

Inductive Expression : Type :=
| BooleanLiteral (span : Span) (value : bool)
| NumberLiteral (span : Span) (value : Z)
| StringLiteral (span : Span) (value : string)
| Path (p : PathExpression).

Inductive HashPair : Type :=
| MkHashPair (span : Span) (key : string) (value : Expression).

Inductive Hash : Type :=
| MkHash (span : Span) (pairs : list HashPair).

Inductive Statement : Type :=
| ContentStatement (span : Span) (value : string) (strip : StripFlags)
| MustacheContent (span : Span) (value : Expression)
| BlockStatement (chained : bool) (span : Span) (call : PathExpression)
    (params : list Expression) (hash : option Hash)
    (program : Program) (inverse : option Program)
    (openStrip inverseStrip closeStrip : StripFlags)
| MustacheStatement (span : Span) (call : Expression)
    (params : list Expression) (hash : option Hash)
    (trusted : bool) (strip : StripFlags)
with Program : Type :=
| MkProgram (span : Span) (body : list Statement)
    (blockParams : option (list string)).

(** The [span] property of each kind of node. *)
Definition head_span (h : Head) : Span :=
  match h with
  | LocalReference sp _ | This sp | ArgReference sp _ => sp
  end.

Definition segment_span (s : PathSegment) : Span :=
  match s with MkPathSegment sp _ => sp end.

Definition path_span (p : PathExpression) : Span :=
  match p with MkPathExpression sp _ _ => sp end.

Definition expression_span (e : Expression) : Span :=
  match e with
  | BooleanLiteral sp _ | NumberLiteral sp _ | StringLiteral sp _ => sp
  | Path p => path_span p
  end.

Definition pair_span (p : HashPair) : Span :=
  match p with MkHashPair sp _ _ => sp end.

Definition pair_value (p : HashPair) : Expression :=
  match p with MkHashPair _ _ v => v end.

Definition hash_span (h : Hash) : Span :=
  match h with MkHash sp _ => sp end.

Definition hash_pairs (h : Hash) : list HashPair :=
  match h with MkHash _ ps => ps end.

Definition statement_span (s : Statement) : Span :=
  match s with
  | ContentStatement sp _ _ | MustacheContent sp _
  | BlockStatement _ sp _ _ _ _ _ _ _ _ | MustacheStatement sp _ _ _ _ _ => sp
  end.

Definition program_span (p : Program) : Span :=
  match p with MkProgram sp _ _ => sp end.

(** Length of a span, and containment of one span in another. *)
Definition span_length (s : Span) : nat := end_ s - start s.

Definition contains (outer inner : Span) : Prop :=
  start outer <= start inner /\ end_ inner <= end_ outer.

Definition containsb (outer inner : Span) : bool :=
  Nat.leb (start outer) (start inner) && Nat.leb (end_ inner) (end_ outer).

End hbs.

(* ================================================================== *)
(** ** The AST builder utility *)

Module Builder.

(** *** The builder-style description of a template *)

Inductive Head : Type :=
| LocalReference (name : string)
| ArgReference (name : string)
| This.

Record PathExpression : Type :=
  MkPathExpression { head : Head; tail : option (list string) }.

Inductive Expression : Type :=
| SubExpression (call : Expression) (params : list Expression)
    (hash : option Hash)
| Path (p : PathExpression)
| StringLiteral (value : string)
| BooleanLiteral (value : bool)
| NumberLiteral (value : Z)
| UndefinedLiteral
| NullLiteral
with Hash : Type :=
| MkHash (pairs : list HashPair)
with HashPair : Type :=
| MkHashPair (key : string) (value : Expression).

Inductive Statement : Type :=
| MustacheStatement (call : Expression) (params : list Expression)
    (hash : option Hash) (trusted : bool)
| ContentMustache (value : Expression)
| BlockStatement (call : PathExpression) (params : list Expression)
    (hash : option Hash) (program : Program) (inverse : option Program)
| ContentStatement (value : string)
| CommentStatement (value : string)
with Program : Type :=
| MkProgram (body : list Statement) (blockParams : option (list string)).

Record BuilderAst : Type := MkBuilderAst { body : list Statement }.

(** The [type] tag of an expression, as it is printed in error messages. *)
Definition expression_type (e : Expression) : string :=
  match e with
  | SubExpression _ _ _ => "SubExpression"
  | Path _ => "PathExpression"
  | StringLiteral _ => "StringLiteral"
  | BooleanLiteral _ => "BooleanLiteral"
  | NumberLiteral _ => "NumberLiteral"
  | UndefinedLiteral => "UndefinedLiteral"
  | NullLiteral => "NullLiteral"
  end.

(** [new Error(message)] *)
Inductive Error : Type := MkError (message : string).

Definition NO_STRIP : hbs.StripFlags := hbs.MkStrip false false.

(** *** Conversions to strings *)

(** [String(b)] for a boolean. *)
Definition String_of_bool (b : bool) : string :=
  if b then "true" else "false".

(** [String(n)] for a number.  Number literals are modelled as integers,
    printed in decimal: this is what [String] gives for the integers of
    magnitude below 10^21; larger numbers (printed with an exponent) and
    numbers that are no integers are outside the model. *)
Definition String_of_number (n : Z) : string :=
  NilZero.string_of_int (Z.to_int n).

Definition quote : ascii := ascii_of_nat 34.
Definition backslash : ascii := ascii_of_nat 92.

Definition hex_digit (n : nat) : ascii :=
  if Nat.ltb n 10 then ascii_of_nat (48 + n) else ascii_of_nat (87 + n).

(** [JSON.stringify(s)] for a string: the text between double quotes, with
    quotes, backslashes and control characters escaped. *)
Fixpoint json_escape (s : string) : string :=
  match s with
  | EmptyString => EmptyString
  | String c s' =>
      let n := nat_of_ascii c in
      (if Nat.eqb n 34 then String backslash (String quote EmptyString)
       else if Nat.eqb n 92 then String backslash (String backslash EmptyString)
       else if Nat.eqb n 8 then String backslash "b"
       else if Nat.eqb n 9 then String backslash "t"
       else if Nat.eqb n 10 then String backslash "n"
       else if Nat.eqb n 12 then String backslash "f"
       else if Nat.eqb n 13 then String backslash "r"
       else if Nat.ltb n 32
            then String backslash
                   ("u00" ++ String (hex_digit (n / 16))
                               (String (hex_digit (n mod 16)) EmptyString))
            else String c EmptyString)
      ++ json_escape s'
  end.

Definition JSON_stringify (s : string) : string :=
  String quote (json_escape s ++ String quote EmptyString).

(** *** Free functions of the module *)

Definition pathString (expr : PathExpression) : string :=
  let out :=
    match head expr with
    | ArgReference name => "@" ++ name
    | LocalReference name => name
    | This => "this"
    end in
  out ++ match tail expr with
         | Some t => JsString.join "." t
         | None => EmptyString
         end.

(** *** The [AstBuilder] class: a cursor [pos] threaded through every call *)

Module AstBuilder.

Definition M (A : Type) : Type := nat -> Result Error (A * nat).

Definition ret {A : Type} (a : A) : M A := fun pos => Ok (a, pos).

Definition bind {A B : Type} (m : M A) (k : A -> M B) : M B :=
  fun pos =>
    match m pos with
    | Ok (a, pos') => k a pos'
    | Throw e => Throw e
    end.

Definition throw {A : Type} (e : Error) : M A := fun _ => Throw e.

Notation "x <- m ;; k" := (bind m (fun x => k))
  (at level 61, m at next level, right associativity).
Notation "m ;; k" := (bind m (fun _ => k))
  (at level 61, right associativity).

(** [items.map(f)] and [for (... of items) out.push(f(...))], where [f] moves
    the cursor: left to right. *)
Definition mapM {A B : Type} (f : A -> M B) : list A -> M (list B) :=
  fix go (l : list A) : M (list B) :=
    match l with
    | [] => ret []
    | x :: rest => y <- f x ;; ys <- go rest ;; ret (y :: ys)
    end.

Definition consume (chars : string) : M hbs.Span :=
  fun pos =>
    let pos' := pos + String.length chars in
    Ok (hbs.MkSpan pos pos', pos').

(** [cb] runs first; the span is then taken between the cursor before and
    after it, and only then is the continuation that [cb] returned run. *)
Definition spanned {T : Type} (cb : M (hbs.Span -> M T)) : M T :=
  fun pos =>
    match cb pos with
    | Ok (next, pos') => next (hbs.MkSpan pos pos') pos'
    | Throw e => Throw e
    end.

Definition var (item : Head) : M hbs.Head :=
  spanned
    match item with
    | LocalReference name =>
        consume name ;;
        ret (fun span => ret (hbs.LocalReference span name))
    | This =>
        consume "this" ;;
        ret (fun span => ret (hbs.This span))
    | ArgReference name =>
        consume "@" ;;
        consume name ;;
        ret (fun span => ret (hbs.ArgReference span name))
    end.

Definition segments (items : option (list string))
  : M (option (list hbs.PathSegment)) :=
  match items with
  | None => ret None
  | Some items =>
      segs <- mapM (fun item =>
                      consume "." ;;
                      spanned (consume item ;;
                               ret (fun span =>
                                      ret (hbs.MkPathSegment span item))))
                   items ;;
      ret (Some segs)
  end.

Definition path (expression : PathExpression) : M hbs.PathExpression :=
  spanned (h <- var (head expression) ;;
           t <- segments (tail expression) ;;
           ret (fun span => ret (hbs.MkPathExpression span h t))).

Definition expr (expression : Expression) : M hbs.Expression :=
  match expression with
  | BooleanLiteral value =>
      spanned (consume (String_of_bool value) ;;
               ret (fun span => ret (hbs.BooleanLiteral span value)))
  | NumberLiteral value =>
      spanned (consume (String_of_number value) ;;
               ret (fun span => ret (hbs.NumberLiteral span value)))
  | StringLiteral value =>
      spanned (consume (JSON_stringify value) ;;
               ret (fun span => ret (hbs.StringLiteral span value)))
  | Path p => p' <- path p ;; ret (hbs.Path p')
  | _ => throw (MkError ("unimplemented " ++ expression_type expression))
  end.

Definition exprs (params : list Expression) : M (list hbs.Expression) :=
  mapM expr params.

Definition hashPair (pair : HashPair) : M hbs.HashPair :=
  match pair with
  | MkHashPair key value =>
      spanned (ret (fun span =>
                      v <- expr value ;;
                      ret (hbs.MkHashPair span key v)))
  end.

Definition hash (h : option Hash) : M (option hbs.Hash) :=
  match h with
  | None => ret None
  | Some (MkHash pairs) =>
      out <- spanned (out <- mapM hashPair pairs ;;
                      ret (fun span => ret (hbs.MkHash span out))) ;;
      ret (Some out)
  end.

Fixpoint visit (statement : Statement) : M hbs.Statement :=
  match statement with
  | ContentStatement value =>
      span <- consume value ;;
      ret (hbs.ContentStatement span value (hbs.MkStrip false false))
  | ContentMustache v =>
      spanned (consume "{{" ;;
               value <- expr v ;;
               consume "}}" ;;
               ret (fun span => ret (hbs.MustacheContent span value)))
  | BlockStatement call params0 hash0 program0 inverse0 =>
      spanned (consume "{{#" ;;
               p <- path call ;;
               params <- match params0 with
                         | [] => ret []
                         | _ :: _ => consume " " ;; exprs params0
                         end ;;
               h <- match hash0 with
                    | None => ret None
                    | Some _ => consume " " ;; hash hash0
                    end ;;
               prog <- program program0 ;;
               inverse <- match inverse0 with
                          | None => ret None
                          | Some inv =>
                              consume "{{else}}" ;;
                              i <- program inv ;;
                              ret (Some i)
                          end ;;
               consume "{{/" ;;
               consume (pathString call) ;;
               consume "}}" ;;
               ret (fun span =>
                      ret (hbs.BlockStatement false span p params h prog
                             inverse NO_STRIP NO_STRIP NO_STRIP)))
  | MustacheStatement call0 params0 hash0 _ =>
      spanned (consume "{{" ;;
               call <- expr call0 ;;
               params <- exprs params0 ;;
               h <- hash hash0 ;;
               consume "}}" ;;
               ret (fun span =>
                      ret (hbs.MustacheStatement span call params h false
                             NO_STRIP)))
  | CommentStatement _ =>
      throw (MkError "unimplemented CommentStatement for AST builder")
  end
with program (p : Program) : M hbs.Program :=
  match p with
  | MkProgram body0 blockParams =>
      match blockParams with
      | Some names =>
          consume " as |" ;;
          consume (JsString.join " " names) ;;
          consume "|}}"
      | None => consume "}}"
      end ;;
      spanned (body <- mapM visit body0 ;;
               ret (fun span => ret (hbs.MkProgram span body blockParams)))
  end.

Definition build (program : BuilderAst) : M hbs.Program :=
  spanned (statements <- mapM visit (body program) ;;
           ret (fun span => ret (hbs.MkProgram span statements None))).

(** A builder starts with [pos = 0]. *)
Definition run {A : Type} (m : M A) : Result Error A :=
  match m 0 with
  | Ok (a, _) => Ok a
  | Throw e => Throw e
  end.

End AstBuilder.

(** *** Constructors of descriptions *)

Definition ast (statements : list Statement) : BuilderAst :=
  MkBuilderAst statements.

Definition block (statements : list Statement) (as_ : list string) : Program :=
  MkProgram statements (Some as_).

(** The object argument of [hash] is modelled by the list of its own
    properties, in enumeration order. *)
Definition hash (map : list (string * Expression)) : Hash :=
  MkHash (List.map (fun kv => MkHashPair (fst kv) (snd kv)) map).

(** Optional arguments are [None] when [undefined]. *)
Definition mustache (call : Expression) (params : option (list Expression))
  (hashObject : option (list (string * Expression))) : Statement :=
  match params, hashObject with
  | None, None => ContentMustache call
  | _, _ =>
      MustacheStatement call
        match params with Some ps => ps | None => [] end
        match hashObject with Some o => Some (hash o) | None => None end
        false
  end.

Definition blockCall (path : PathExpression)
  (params : option (list Expression)) (hash : option Hash)
  (program : Program) (inverse : option Program) : Statement :=
  BlockStatement path
    match params with Some ps => ps | None => [] end
    hash program inverse.

Definition content (value : string) : Statement := ContentStatement value.

Definition comment (value : string) : Statement := CommentStatement value.

Definition sexpr (path : Expression) (params : option (list Expression))
  (hash : option Hash) : Expression :=
  SubExpression path match params with Some ps => ps | None => [] end hash.

(** [s.slice(1)] *)
Definition slice1 (s : string) : string :=
  match s with
  | EmptyString => EmptyString
  | String _ rest => rest
  end.

Definition path (path : string) : PathExpression :=
  let parts := JsString.split "." path in
  let first := List.hd EmptyString parts in
  let parts := List.tl parts in
  let head :=
    if JsString.starts_with_at path then ArgReference (slice1 first)
    else if String.eqb first "this" then This
    else LocalReference first in
  MkPathExpression head
    match parts with
    | [] => None
    | _ :: _ => Some parts
    end.

Definition atPath (path : string) : PathExpression :=
  let parts := JsString.split "." path in
  MkPathExpression (ArgReference (List.hd EmptyString parts))
    match List.tl parts with
    | [] => None
    | _ :: _ => Some (List.tl parts)
    end.

(** The values [literal] accepts. *)
Inductive Primitive : Type :=
| PString (s : string)
| PBoolean (b : bool)
| PNumber (n : Z)
| PNull
| PUndefined.

Definition literal (value : Primitive) : Expression :=
  match value with
  | PNull => NullLiteral
  | PUndefined => UndefinedLiteral
  | PString s => StringLiteral s
  | PBoolean b => BooleanLiteral b
  | PNumber n => NumberLiteral n
  end.

End Builder.

(* ================================================================== *)
(** ** The Handlebars concrete syntax tree ([../v1/handlebars-ast]) *)

Module HBS.

Record Position : Type := MkPosition { line : nat; column : nat }.

Record SourceLocation : Type :=
  MkLocation { start : Position; end_ : Position }.

Record StripFlags : Type := MkStrip { open : bool; close : bool }.

Inductive Expression : Type :=
| PathExpression (original : string) (parts : list string) (data : bool)
    (loc : SourceLocation)
| SubExpression (path : Expression) (params : list Expression)
    (hash : option Hash) (loc : SourceLocation)
| StringLiteral (value : string) (loc : SourceLocation)
| BooleanLiteral (value : bool) (loc : SourceLocation)
| NumberLiteral (value : Z) (loc : SourceLocation)
| UndefinedLiteral (loc : SourceLocation)
| NullLiteral (loc : SourceLocation)
with Hash : Type :=
| MkHash (pairs : list HashPair) (loc : SourceLocation)
with HashPair : Type :=
| MkHashPair (key : string) (value : Expression) (loc : SourceLocation).

(** A [Program] may come without a location (for an empty block body). *)
Inductive Statement : Type :=
| MustacheStatement (path : Expression) (params : list Expression)
    (hash : option Hash) (escaped : bool) (strip : StripFlags)
    (loc : SourceLocation)
| Decorator (path : Expression) (params : list Expression)
    (hash : option Hash) (escaped : bool) (strip : StripFlags)
    (loc : SourceLocation)
| BlockStatement (path : Expression) (params : list Expression)
    (hash : option Hash) (program : Program) (inverse : option Program)
    (openStrip inverseStrip closeStrip : StripFlags) (loc : SourceLocation)
| DecoratorBlock (path : Expression) (params : list Expression)
    (hash : option Hash) (program : Program) (inverse : option Program)
    (openStrip inverseStrip closeStrip : StripFlags) (loc : SourceLocation)
| PartialStatement (name : Expression) (params : list Expression)
    (hash : option Hash) (strip : StripFlags) (indent : string)
    (loc : SourceLocation)
| PartialBlockStatement (name : Expression) (params : list Expression)
    (hash : option Hash) (program : Program)
    (openStrip closeStrip : StripFlags) (loc : SourceLocation)
| ContentStatement (value : string) (original : string)
    (loc : SourceLocation)
| CommentStatement (value : string) (loc : SourceLocation)
with Program : Type :=
| MkProgram (body : list Statement) (blockParams : list string)
    (chained : bool) (loc : option SourceLocation).

Definition expression_loc (e : Expression) : SourceLocation :=
  match e with
  | PathExpression _ _ _ l | SubExpression _ _ _ l | StringLiteral _ l
  | BooleanLiteral _ l | NumberLiteral _ l | UndefinedLiteral l
  | NullLiteral l => l
  end.

Definition statement_loc (s : Statement) : SourceLocation :=
  match s with
  | MustacheStatement _ _ _ _ _ l | Decorator _ _ _ _ _ l
  | BlockStatement _ _ _ _ _ _ _ _ l | DecoratorBlock _ _ _ _ _ _ _ _ l
  | PartialStatement _ _ _ _ _ l | PartialBlockStatement _ _ _ _ _ _ l
  | ContentStatement _ _ l | CommentStatement _ l => l
  end.

Definition program_body (p : Program) : list Statement :=
  match p with MkProgram b _ _ _ => b end.

Definition program_loc (p : Program) : option SourceLocation :=
  match p with MkProgram _ _ _ l => l end.

End HBS.

(* ================================================================== *)
(** ** The unified AST ([../v1/api]) and source spans *)

Module ASTv1.

(** Modelled from the spec: the span model ([../source]) is not part of the
    translator; a span is a [{start, end}] range, [spanFor] makes the span
    of a location, and [collapse('end')] collapses a span to its end
    boundary. *)
Definition SourceSpan : Type := HBS.SourceLocation.

Definition spanFor (loc : HBS.SourceLocation) : SourceSpan := loc.

Definition collapse_end (span : SourceSpan) : SourceSpan :=
  HBS.MkLocation (HBS.end_ span) (HBS.end_ span).

(** Modelled from the spec: the sentinel location that stands for a
    location that does not exist ([NON_EXISTENT_LOCATION]); no property
    depends on its coordinates. *)
Definition NON_EXISTENT_LOCATION : HBS.SourceLocation :=
  HBS.MkLocation (HBS.MkPosition 1 0) (HBS.MkPosition 1 0).

Inductive PathHead : Type :=
| ThisHead (loc : HBS.SourceLocation)
| AtHead (name : string) (loc : HBS.SourceLocation)
| VarHead (name : option string) (loc : HBS.SourceLocation).

(** [PathExpression] is what [new PathExpressionImplV1(original, head, tail,
    loc)] is given; the constructors below are what the builders [b.sexpr],
    [b.literal], [b.hash], [b.pair], [b.mustache], ... are given. *)
Inductive Expression : Type :=
| PathExpression (original : string) (head : PathHead) (tail : list string)
    (loc : SourceSpan)
| SubExpression (path : Expression) (params : list Expression) (hash : Hash)
    (loc : SourceSpan)
| StringLiteral (value : string) (loc : SourceSpan)
| BooleanLiteral (value : bool) (loc : SourceSpan)
| NumberLiteral (value : Z) (loc : SourceSpan)
| UndefinedLiteral (loc : SourceSpan)
| NullLiteral (loc : SourceSpan)
with Hash : Type :=
| MkHash (pairs : list HashPair) (loc : SourceSpan)
with HashPair : Type :=
| MkHashPair (key : string) (value : Expression) (loc : SourceSpan).

(** The [type] tags a mustache or a block node can carry: decorators are
    built as mustaches and blocks and relabelled. *)
Inductive MustacheType : Type := MustacheStatementType | DecoratorStatementType.
Inductive BlockType : Type := BlockStatementType | DecoratorBlockType.

Inductive Statement : Type :=
| MustacheStatement (type : MustacheType) (path : Expression)
    (params : list Expression) (hash : Hash) (trusting : bool)
    (loc : SourceSpan) (strip : HBS.StripFlags)
| BlockStatement (type : BlockType) (path : Expression)
    (params : list Expression) (hash : Hash)
    (program : Body) (inverse : option Body) (loc : SourceSpan)
    (openStrip inverseStrip closeStrip : HBS.StripFlags)
| MustacheCommentStatement (value : string) (loc : SourceSpan)
| PartialStatement (name : Expression) (params : list Expression)
    (hash : Hash) (strip : HBS.StripFlags) (indent : string)
    (loc : SourceSpan)
| PartialBlockStatement (name : Expression) (params : list Expression)
    (hash : Hash) (program : Body)
    (openStrip closeStrip : HBS.StripFlags) (loc : SourceSpan)
| ElementNode (element : Element)
| TextNode (chars : string) (loc : SourceSpan)
| CommentStatement (value : string) (loc : SourceSpan)
with Body : Type :=
| Template (body : list Statement) (blockParams : list string)
    (loc : SourceSpan)
| Block (body : list Statement) (blockParams : list string) (chained : bool)
    (loc : SourceSpan)
with Element : Type :=
| MkElement (tag : string) (attributes : list AttrNode)
    (modifiers : list Statement) (comments : list Statement)
    (children : list Statement) (selfClosing : bool) (loc : SourceSpan)
with AttrNode : Type :=
| MkAttrNode (name : string) (value : list Statement) (loc : SourceSpan).

Definition expression_loc (e : Expression) : SourceSpan :=
  match e with
  | PathExpression _ _ _ l | SubExpression _ _ _ l | StringLiteral _ l
  | BooleanLiteral _ l | NumberLiteral _ l | UndefinedLiteral l
  | NullLiteral l => l
  end.

Definition hash_pairs (h : Hash) : list HashPair :=
  match h with MkHash ps _ => ps end.

Definition hash_loc (h : Hash) : SourceSpan :=
  match h with MkHash _ l => l end.

Definition element_tag (e : Element) : string :=
  match e with MkElement tag _ _ _ _ _ _ => tag end.

Definition element_loc (e : Element) : SourceSpan :=
  match e with MkElement _ _ _ _ _ _ l => l end.

Definition body_loc (b : Body) : SourceSpan :=
  match b with Template _ _ l | Block _ _ _ l => l end.

Definition body_statements (b : Body) : list Statement :=
  match b with Template s _ _ | Block s _ _ _ => s end.

(** [node.loc] for the dynamic nodes handed to [_injectStatement]. *)
Definition statement_loc (s : Statement) : SourceSpan :=
  match s with
  | MustacheStatement _ _ _ _ _ l _ | BlockStatement _ _ _ _ _ _ l _ _ _
  | MustacheCommentStatement _ l | PartialStatement _ _ _ _ _ l
  | PartialBlockStatement _ _ _ _ _ _ l | TextNode _ l
  | CommentStatement _ l => l
  | ElementNode e => element_loc e
  end.

(** The [type] tag of a statement node. *)
Definition node_type (s : Statement) : string :=
  match s with
  | MustacheStatement MustacheStatementType _ _ _ _ _ _ => "MustacheStatement"
  | MustacheStatement DecoratorStatementType _ _ _ _ _ _ =>
      "DecoratorStatement"
  | BlockStatement BlockStatementType _ _ _ _ _ _ _ _ _ => "BlockStatement"
  | BlockStatement DecoratorBlockType _ _ _ _ _ _ _ _ _ => "DecoratorBlock"
  | MustacheCommentStatement _ _ => "MustacheCommentStatement"
  | PartialStatement _ _ _ _ _ _ => "PartialStatement"
  | PartialBlockStatement _ _ _ _ _ _ _ => "PartialBlockStatement"
  | ElementNode _ => "ElementNode"
  | TextNode _ _ => "TextNode"
  | CommentStatement _ _ => "CommentStatement"
  end.

(** The literal expressions. *)
Definition isLiteral (e : Expression) : bool :=
  match e with
  | StringLiteral _ _ | BooleanLiteral _ _ | NumberLiteral _ _
  | UndefinedLiteral _ | NullLiteral _ => true
  | _ => false
  end.

End ASTv1.

(* ================================================================== *)
(** ** The state of the parser the visitors extend ([../parser]) *)

Module Parser.

(** The lexical states of the HTML tokenizer ([TokenizerState] of
    [simple-html-tokenizer]). *)
Inductive TokenizerState : Type :=
| beforeData | data | tagOpen | endTagOpen | markupDeclarationOpen
| commentStart | commentStartDash | comment | commentEndDash | commentEnd
| tagName | endTagName | beforeAttributeName | attributeName
| afterAttributeName | beforeAttributeValue | attributeValueDoubleQuoted
| attributeValueSingleQuoted | attributeValueUnquoted
| afterAttributeValueQuoted | selfClosingStartTag.

Definition state_name (s : TokenizerState) : string :=
  match s with
  | beforeData => "beforeData" | data => "data" | tagOpen => "tagOpen"
  | endTagOpen => "endTagOpen"
  | markupDeclarationOpen => "markupDeclarationOpen"
  | commentStart => "commentStart" | commentStartDash => "commentStartDash"
  | comment => "comment" | commentEndDash => "commentEndDash"
  | commentEnd => "commentEnd" | tagName => "tagName"
  | endTagName => "endTagName" | beforeAttributeName => "beforeAttributeName"
  | attributeName => "attributeName"
  | afterAttributeName => "afterAttributeName"
  | beforeAttributeValue => "beforeAttributeValue"
  | attributeValueDoubleQuoted => "attributeValueDoubleQuoted"
  | attributeValueSingleQuoted => "attributeValueSingleQuoted"
  | attributeValueUnquoted => "attributeValueUnquoted"
  | afterAttributeValueQuoted => "afterAttributeValueQuoted"
  | selfClosingStartTag => "selfClosingStartTag"
  end.

Definition state_eqb (a b : TokenizerState) : bool :=
  String.eqb (state_name a) (state_name b).

(** The tokenizer, as far as the visitors read and write it. *)
Record Tokenizer : Type :=
  MkTokenizer { state : TokenizerState; line : nat; column : nat }.

(** The attribute under construction. *)
Record Attribute : Type :=
  MkAttribute {
    attr_name : string;
    parts : list ASTv1.Statement;
    currentPart : option ASTv1.Statement;
    isQuoted : bool;
    isDynamic : bool }.

(** The start tag under construction. *)
Record StartTag : Type :=
  MkStartTag {
    tag_name : string;
    attributes : list ASTv1.AttrNode;
    modifiers : list ASTv1.Statement;
    comments : list ASTv1.Statement;
    selfClosing : bool;
    tag_loc : ASTv1.SourceSpan }.

(** An entry of the element stack.  A body node carries the reference [ref]
    that stands for its identity as an object; an element is never the same
    object as a body node. *)
Inductive Parent : Type :=
| BodyParent (ref : nat) (node : ASTv1.Body)
| ElementParent (node : ASTv1.Element).

(** Modelled from the spec: the [Parser] base class is not part of the
    translator; it owns the element stack (the head of the list is the top),
    the tag and the attribute in progress and the tokenizer.  [nextRef] is
    the reference the next body node gets. *)
Record t : Type :=
  MkParser {
    elementStack : list Parent;
    currentAttr : option Attribute;
    currentStartTag : option StartTag;
    tokenizer : Tokenizer;
    nextRef : nat }.

Definition with_stack (stack : list Parent) (p : t) : t :=
  MkParser stack (currentAttr p) (currentStartTag p) (tokenizer p) (nextRef p).

Definition with_attr (a : option Attribute) (p : t) : t :=
  MkParser (elementStack p) a (currentStartTag p) (tokenizer p) (nextRef p).

Definition with_tag (g : option StartTag) (p : t) : t :=
  MkParser (elementStack p) (currentAttr p) g (tokenizer p) (nextRef p).

Definition with_tokenizer (k : Tokenizer) (p : t) : t :=
  MkParser (elementStack p) (currentAttr p) (currentStartTag p) k (nextRef p).

Definition with_nextRef (n : nat) (p : t) : t :=
  MkParser (elementStack p) (currentAttr p) (currentStartTag p) (tokenizer p) n.

End Parser.

(* ================================================================== *)
(** ** The Handlebars node visitors *)

Module HandlebarsNodeVisitors.

(** [generateSyntaxError(message, span)], and the [TypeError] that reading a
    property of [undefined] raises. *)
Inductive Error : Type :=
| SyntaxError (message : string) (loc : ASTv1.SourceSpan)
| TypeError (message : string).

(** *** Expressions: they read no parser state *)

Definition R (A : Type) : Type := Result Error A.

Definition bindR {A B : Type} (m : R A) (k : A -> R B) : R B :=
  match m with
  | Ok a => k a
  | Throw e => Throw e
  end.

Notation "x <-- m ;; k" := (bindR m (fun x => k))
  (at level 61, m at next level, right associativity).

(** [items.map(f)] where [f] may throw. *)
Definition mapR {A B : Type} (f : A -> R B) : list A -> R (list B) :=
  fix go (l : list A) : R (list B) :=
    match l with
    | [] => Ok []
    | x :: rest => y <-- f x ;; ys <-- go rest ;; Ok (y :: ys)
    end.

(** The segments the head is taken from: all of them joined into one when
    the original text has a slash. *)
Definition path_segments (original : string) (parts : list string)
  : list string :=
  if JsString.contains_char "/"%char original
  then [JsString.join "/" parts]
  else parts.

Definition head_loc (loc : HBS.SourceLocation) (width : nat)
  : HBS.SourceLocation :=
  HBS.MkLocation (HBS.start loc)
    (HBS.MkPosition (HBS.line (HBS.start loc))
       (HBS.column (HBS.start loc) + width)).

(** The message of the error for a path [@] without a name. *)
Definition invalidAtPath : string :=
  "Attempted to parse a path expression, but it was not valid. "
  ++ "Paths beginning with @ must start with a-z.".

(** [parts.shift()] is the match on the list: [undefined] for no segment.
    The array that is shifted is the one of the CST node itself when there
    is no slash; each CST node is visited once. *)
Definition PathExpression (original : string) (parts0 : list string)
  (data : bool) (loc : HBS.SourceLocation) : R ASTv1.Expression :=
  let parts := path_segments original parts0 in
  let thisHead := JsString.matches_this original in
  if thisHead then
    Ok (ASTv1.PathExpression original (ASTv1.ThisHead (head_loc loc 4))
          parts (ASTv1.spanFor loc))
  else if data then
    match parts with
    | [] =>
        Throw (SyntaxError invalidAtPath (ASTv1.spanFor loc))
    | head :: parts =>
        Ok (ASTv1.PathExpression original
              (ASTv1.AtHead ("@" ++ head)
                 (head_loc loc (String.length head + 1)))
              parts (ASTv1.spanFor loc))
    end
  else
    match parts with
    | [] =>
        Ok (ASTv1.PathExpression original
              (ASTv1.VarHead None (head_loc loc 0)) [] (ASTv1.spanFor loc))
    | head :: parts =>
        Ok (ASTv1.PathExpression original
              (ASTv1.VarHead (Some head) (head_loc loc (String.length head)))
              parts (ASTv1.spanFor loc))
    end.

Section CallNodes.

(** The visitor methods [acceptCallNodes] calls back into. *)
Variable acceptNode : HBS.Expression -> R ASTv1.Expression.
Variable Hash : HBS.Hash -> R ASTv1.Hash.

Definition acceptCallNodes_with (path : HBS.Expression)
  (params : list HBS.Expression) (hash : option HBS.Hash)
  : R (ASTv1.Expression * list ASTv1.Expression * ASTv1.Hash) :=
  path' <-- acceptNode path ;;
  params' <-- mapR acceptNode params ;;
  let end_ :=
    match params' with
    | [] => ASTv1.expression_loc path'
    | _ :: _ => ASTv1.expression_loc (List.last params' path')
    end in
  hash' <-- match hash with
            | Some h => Hash h
            | None =>
                Ok (ASTv1.MkHash []
                      (ASTv1.collapse_end (ASTv1.spanFor end_)))
            end ;;
  Ok (path', params', hash').

End CallNodes.

(** [acceptNode] on an expression dispatches on its [type]. *)
Fixpoint acceptNode (e : HBS.Expression) : R ASTv1.Expression :=
  match e with
  | HBS.PathExpression original parts data loc =>
      PathExpression original parts data loc
  | HBS.SubExpression path params hash loc =>
      r <-- acceptCallNodes_with acceptNode Hash path params hash ;;
      let '(path', params', hash') := r in
      Ok (ASTv1.SubExpression path' params' hash' (ASTv1.spanFor loc))
  | HBS.StringLiteral value loc => Ok (ASTv1.StringLiteral value loc)
  | HBS.BooleanLiteral value loc => Ok (ASTv1.BooleanLiteral value loc)
  | HBS.NumberLiteral value loc => Ok (ASTv1.NumberLiteral value loc)
  | HBS.UndefinedLiteral loc => Ok (ASTv1.UndefinedLiteral loc)
  | HBS.NullLiteral loc => Ok (ASTv1.NullLiteral loc)
  end
with Hash (hash : HBS.Hash) : R ASTv1.Hash :=
  match hash with
  | HBS.MkHash pairs loc =>
      pairs' <-- mapR HashPair pairs ;;
      Ok (ASTv1.MkHash pairs' (ASTv1.spanFor loc))
  end
with HashPair (pair : HBS.HashPair) : R ASTv1.HashPair :=
  match pair with
  | HBS.MkHashPair key value loc =>
      value' <-- acceptNode value ;;
      Ok (ASTv1.MkHashPair key value' (ASTv1.spanFor loc))
  end.

Definition SubExpression (path : HBS.Expression)
  (params : list HBS.Expression) (hash : option HBS.Hash)
  (loc : HBS.SourceLocation) : R ASTv1.Expression :=
  acceptNode (HBS.SubExpression path params hash loc).

Definition acceptCallNodes (path : HBS.Expression)
  (params : list HBS.Expression) (hash : option HBS.Hash)
  : R (ASTv1.Expression * list ASTv1.Expression * ASTv1.Hash) :=
  acceptCallNodes_with acceptNode Hash path params hash.

(** [isHBSLiteral(path)]: the node is one of the five literal kinds. *)
Definition isHBSLiteral (path : HBS.Expression) : bool :=
  match path with
  | HBS.StringLiteral _ _ | HBS.BooleanLiteral _ _ | HBS.NumberLiteral _ _
  | HBS.UndefinedLiteral _ | HBS.NullLiteral _ => true
  | _ => false
  end.

(** *** Offsets of content whose left side was stripped *)

Record Offsets : Type := MkOffsets { lines : nat; columns : nat }.

Definition calculateRightStrippedOffsets (original value : string) : Offsets :=
  if String.eqb value EmptyString then
    MkOffsets (List.length (JsString.split JsString.newline original) - 1) 0
  else
    let difference :=
      List.nth 0 (JsString.split value original) EmptyString in
    let lines := JsString.split JsString.newline difference in
    let lineCount := List.length lines - 1 in
    MkOffsets lineCount (String.length (List.nth lineCount lines EmptyString)).

Definition updateTokenizerLocation (tokenizer : Parser.Tokenizer)
  (value original : string) (loc : HBS.SourceLocation) : Parser.Tokenizer :=
  let line := HBS.line (HBS.start loc) in
  let column := HBS.column (HBS.start loc) in
  let offsets := calculateRightStrippedOffsets original value in
  let line := line + lines offsets in
  let column :=
    match lines offsets with
    | O => column + columns offsets
    | S _ => columns offsets
    end in
  Parser.MkTokenizer (Parser.state tokenizer) line column.

(** *** Statements: they read and write the parser *)

Definition V (A : Type) : Type := Parser.t -> Result Error (A * Parser.t).

Definition ret {A : Type} (a : A) : V A := fun p => Ok (a, p).

Definition bind {A B : Type} (m : V A) (k : A -> V B) : V B :=
  fun p =>
    match m p with
    | Ok (a, p') => k a p'
    | Throw e => Throw e
    end.

Definition throw {A : Type} (e : Error) : V A := fun _ => Throw e.

Definition lift {A : Type} (r : R A) : V A :=
  fun p =>
    match r with
    | Ok a => Ok (a, p)
    | Throw e => Throw e
    end.

Definition gets {A : Type} (f : Parser.t -> A) : V A := fun p => Ok (f p, p).

Definition modify (f : Parser.t -> Parser.t) : V unit :=
  fun p => Ok (tt, f p).

Notation "x <- m ;; k" := (bind m (fun x => k))
  (at level 61, m at next level, right associativity).
Notation "m ;; k" := (bind m (fun _ => k))
  (at level 61, right associativity).

(** What the visitors leave to the concrete parser and to the tokenizer: the
    three abstract methods of the class, [sourceForNode] (the raw source text
    of the node at a location) and the tokenizer's [tokenizePart] and
    [flushData], whose callbacks open and close elements. *)
Class Collaborators : Type :=
  MkCollaborators {
    appendToCommentData : string -> V unit;
    beginAttributeValue : bool -> V unit;
    finishAttributeValue : V unit;
    sourceForNode : HBS.SourceLocation -> string;
    tokenizePart : string -> V unit;
    flushData : V unit }.

(** [this.elementStack.length === 0] *)
Definition isTopLevel (p : Parser.t) : bool :=
  match Parser.elementStack p with
  | [] => true
  | _ :: _ => false
  end.

Definition push (node : Parser.Parent) : V unit :=
  modify (fun p => Parser.with_stack (node :: Parser.elementStack p) p).

(** [this.elementStack.pop()]: [undefined] on an empty stack. *)
Definition pop : V (option Parser.Parent) :=
  fun p =>
    match Parser.elementStack p with
    | [] => Ok (None, p)
    | top :: rest => Ok (Some top, Parser.with_stack rest p)
    end.

(** A new body object: its reference is fresh. *)
Definition fresh : V nat :=
  fun p => Ok (Parser.nextRef p, Parser.with_nextRef (S (Parser.nextRef p)) p).

(** [tokenizer.transitionTo(state)] *)
Definition transitionTo (s : Parser.TokenizerState) : V unit :=
  modify (fun p =>
            Parser.with_tokenizer
              (Parser.MkTokenizer s (Parser.line (Parser.tokenizer p))
                 (Parser.column (Parser.tokenizer p))) p).

(** Modelled from the spec: [appendChild] ([../utils]) appends a node to the
    children of an element, or to the body of a template or block. *)
Definition appendChild (parent : Parser.Parent) (node : ASTv1.Statement)
  : Parser.Parent :=
  match parent with
  | Parser.BodyParent ref (ASTv1.Template body blockParams loc) =>
      Parser.BodyParent ref
        (ASTv1.Template (body ++ [node])%list blockParams loc)
  | Parser.BodyParent ref (ASTv1.Block body blockParams chained loc) =>
      Parser.BodyParent ref
        (ASTv1.Block (body ++ [node])%list blockParams chained loc)
  | Parser.ElementParent (ASTv1.MkElement tag attrs mods cmts children sc loc) =>
      Parser.ElementParent
        (ASTv1.MkElement tag attrs mods cmts (children ++ [node])%list sc loc)
  end.

(** [appendChild(this.currentElement(), node)]: the current element is the
    top of the element stack, and it is the object on the stack that gets
    the child. *)
Definition appendToCurrentElement (node : ASTv1.Statement) : V unit :=
  fun p =>
    match Parser.elementStack p with
    | top :: rest =>
        Ok (tt, Parser.with_stack (appendChild top node :: rest) p)
    | [] => Throw (TypeError "the current element is undefined")
    end.

(** [this.currentStartTag.modifiers.push(node)] *)
Definition pushModifier (node : ASTv1.Statement) : V unit :=
  fun p =>
    match Parser.currentStartTag p with
    | Some (Parser.MkStartTag name attrs mods cmts sc loc) =>
        Ok (tt, Parser.with_tag
                  (Some (Parser.MkStartTag name attrs (mods ++ [node])%list
                           cmts sc loc)) p)
    | None => Throw (TypeError "the current node is not a start tag")
    end.

(** [this.currentStartTag.comments.push(comment)] *)
Definition pushTagComment (node : ASTv1.Statement) : V unit :=
  fun p =>
    match Parser.currentStartTag p with
    | Some (Parser.MkStartTag name attrs mods cmts sc loc) =>
        Ok (tt, Parser.with_tag
                  (Some (Parser.MkStartTag name attrs mods
                           (cmts ++ [node])%list sc loc)) p)
    | None => Throw (TypeError "the current node is not a start tag")
    end.

Definition startTextPart (attr : Parser.Attribute) : Parser.Attribute :=
  Parser.MkAttribute (Parser.attr_name attr) (Parser.parts attr) None
    (Parser.isQuoted attr) (Parser.isDynamic attr).

Definition finalizeTextPart (attr : Parser.Attribute) : Parser.Attribute :=
  match Parser.currentPart attr with
  | Some text =>
      startTextPart
        (Parser.MkAttribute (Parser.attr_name attr)
           (Parser.parts attr ++ [text])%list (Parser.currentPart attr)
           (Parser.isQuoted attr) (Parser.isDynamic attr))
  | None => attr
  end.

Definition appendDynamicAttributeValuePart (part : ASTv1.Statement) : V unit :=
  fun p =>
    match Parser.currentAttr p with
    | Some attr0 =>
        let attr := finalizeTextPart attr0 in
        Ok (tt, Parser.with_attr
                  (Some (Parser.MkAttribute (Parser.attr_name attr)
                           (Parser.parts attr ++ [part])%list
                           (Parser.currentPart attr) (Parser.isQuoted attr)
                           true)) p)
    | None => Throw (TypeError "there is no current attribute")
    end.

Section Visitors.

Context {collaborators : Collaborators}.

Definition _injectStatement (node : ASTv1.Statement) : V unit :=
  state <- gets (fun p => Parser.state (Parser.tokenizer p)) ;;
  match state with
  | Parser.tagOpen | Parser.tagName =>
      throw (SyntaxError "Cannot use mustaches in an elements tagname"
               (ASTv1.statement_loc node))
  | Parser.beforeAttributeName => pushModifier node
  | Parser.attributeName | Parser.afterAttributeName =>
      beginAttributeValue false ;;
      finishAttributeValue ;;
      pushModifier node ;;
      transitionTo Parser.beforeAttributeName
  | Parser.afterAttributeValueQuoted =>
      pushModifier node ;;
      transitionTo Parser.beforeAttributeName
  | Parser.beforeAttributeValue =>
      beginAttributeValue false ;;
      appendDynamicAttributeValuePart node ;;
      transitionTo Parser.attributeValueUnquoted
  | Parser.attributeValueDoubleQuoted | Parser.attributeValueSingleQuoted
  | Parser.attributeValueUnquoted =>
      appendDynamicAttributeValuePart node
  | _ => appendToCurrentElement node
  end.

(** The node a mustache becomes; [type] is the tag it ends up with
    ([Decorator] relabels the node that [MustacheStatement] built and
    injected, which is the same object). *)
Definition buildMustache (type : ASTv1.MustacheType) (path : HBS.Expression)
  (params : list HBS.Expression) (hash : option HBS.Hash) (escaped : bool)
  (strip : HBS.StripFlags) (loc : HBS.SourceLocation) : R ASTv1.Statement :=
  if isHBSLiteral path then
    path' <-- acceptNode path ;;
    Ok (ASTv1.MustacheStatement type path' []
          (ASTv1.MkHash []
             (ASTv1.collapse_end (ASTv1.spanFor (HBS.expression_loc path))))
          (negb escaped) (ASTv1.spanFor loc) strip)
  else
    r <-- acceptCallNodes path params hash ;;
    let '(path', params', hash') := r in
    Ok (ASTv1.MustacheStatement type path' params' hash'
          (negb escaped) (ASTv1.spanFor loc) strip).

Definition MustacheStatement_as (type : ASTv1.MustacheType)
  (path : HBS.Expression) (params : list HBS.Expression)
  (hash : option HBS.Hash) (escaped : bool) (strip : HBS.StripFlags)
  (loc : HBS.SourceLocation) : V (option ASTv1.Statement) :=
  state <- gets (fun p => Parser.state (Parser.tokenizer p)) ;;
  match state with
  | Parser.comment =>
      appendToCommentData (sourceForNode loc) ;;
      ret None
  | _ =>
      mustache <- lift (buildMustache type path params hash escaped strip loc) ;;
      _injectStatement mustache ;;
      ret (Some mustache)
  end.

Definition MustacheStatement :=
  MustacheStatement_as ASTv1.MustacheStatementType.

Definition Decorator := MustacheStatement_as ASTv1.DecoratorStatementType.

Definition ContentStatement (value original : string)
  (loc : HBS.SourceLocation) : V (option ASTv1.Statement) :=
  modify (fun p =>
            Parser.with_tokenizer
              (updateTokenizerLocation (Parser.tokenizer p) value original loc)
              p) ;;
  tokenizePart value ;;
  flushData ;;
  ret None.

Definition CommentStatement (value : string) (loc : HBS.SourceLocation)
  : V (option ASTv1.Statement) :=
  state <- gets (fun p => Parser.state (Parser.tokenizer p)) ;;
  match state with
  | Parser.comment =>
      appendToCommentData (sourceForNode loc) ;;
      ret None
  | _ =>
      let comment :=
        ASTv1.MustacheCommentStatement value (ASTv1.spanFor loc) in
      match state with
      | Parser.beforeAttributeName | Parser.afterAttributeName =>
          pushTagComment comment
      | Parser.beforeData | Parser.data => appendToCurrentElement comment
      | _ =>
          throw (SyntaxError
                   ("Using a Handlebars comment when in the `"
                    ++ Parser.state_name state
                    ++ "` state is not supported")
                   (ASTv1.spanFor loc))
      end ;;
      ret (Some comment)
  end.

Definition PartialStatement (name : HBS.Expression)
  (params : list HBS.Expression) (hash : option HBS.Hash)
  (strip : HBS.StripFlags) (indent : string) (loc : HBS.SourceLocation)
  : V (option ASTv1.Statement) :=
  r <- lift (acceptCallNodes name params hash) ;;
  let '(name', params', hash') := r in
  let node :=
    ASTv1.PartialStatement name' params' hash' strip indent
      (ASTv1.spanFor loc) in
  _injectStatement node ;;
  ret (Some node).

(** Modelled from the spec: [spanFor] is not part of the translator, and a
    location that is missing cannot be dereferenced to make a span of it.
    [fallback] is what [BlockStatement] has stored into a program without a
    location before it visits it. *)
Definition programLoc (fallback : option HBS.SourceLocation)
  (loc : option HBS.SourceLocation) : V ASTv1.SourceSpan :=
  match loc, fallback with
  | Some l, _ => ret (ASTv1.spanFor l)
  | None, Some l => ret (ASTv1.spanFor l)
  | None, None => throw (TypeError "the location of the program is undefined")
  end.

(** The end of [Program]: the node popped must be the body that was pushed. *)
Definition unclosed (popped : option Parser.Parent) (ref : nat)
  : V ASTv1.Body :=
  match popped with
  | Some (Parser.BodyParent r node) =>
      if Nat.eqb r ref then ret node
      else throw (SyntaxError "Unclosed element `undefined`"
                    (ASTv1.body_loc node))
  | Some (Parser.ElementParent elementNode) =>
      throw (SyntaxError
               ("Unclosed element `" ++ ASTv1.element_tag elementNode ++ "`")
               (ASTv1.element_loc elementNode))
  | None => throw (TypeError "cannot read the tag of undefined")
  end.

(** The cast [as ASTv1.Block | ASTv1.Template] of what [pop] returns for an
    empty body: no check is made; the value popped right after the push is
    the body that was pushed (lemma [pop_after_push]), so the other cases do
    not arise. *)
Definition asBody (popped : option Parser.Parent) : V ASTv1.Body :=
  match popped with
  | Some (Parser.BodyParent _ node) => ret node
  | _ => throw (TypeError "the node popped is not a body")
  end.

Section Bodies.

(** [this.Program], which the block visitors call back into.  Its first
    argument is the location that the caller has stored into a program that
    came without one. *)
Variable ProgramFrom :
  option HBS.SourceLocation -> HBS.Program -> V ASTv1.Body.

Definition BlockStatement_with (type : ASTv1.BlockType)
  (path : HBS.Expression) (params : list HBS.Expression)
  (hash : option HBS.Hash) (program : HBS.Program)
  (inverse : option HBS.Program)
  (openStrip inverseStrip closeStrip : HBS.StripFlags)
  (loc : HBS.SourceLocation) : V (option ASTv1.Statement) :=
  state <- gets (fun p => Parser.state (Parser.tokenizer p)) ;;
  match state with
  | Parser.comment =>
      appendToCommentData (sourceForNode loc) ;;
      ret None
  | Parser.data | Parser.beforeData =>
      r <- lift (acceptCallNodes path params hash) ;;
      let '(path', params', hash') := r in
      program' <- ProgramFrom (Some ASTv1.NON_EXISTENT_LOCATION) program ;;
      inverse' <- match inverse with
                  | Some i =>
                      b <- ProgramFrom (Some ASTv1.NON_EXISTENT_LOCATION) i ;;
                      ret (Some b)
                  | None => ret None
                  end ;;
      let node :=
        ASTv1.BlockStatement type path' params' hash' program' inverse'
          (ASTv1.spanFor loc) openStrip inverseStrip closeStrip in
      appendToCurrentElement node ;;
      ret (Some node)
  | _ =>
      throw (SyntaxError
               "A block may only be used inside an HTML element or another block."
               (ASTv1.spanFor loc))
  end.

Definition PartialBlockStatement_with (name : HBS.Expression)
  (params : list HBS.Expression) (hash : option HBS.Hash)
  (program : HBS.Program) (openStrip closeStrip : HBS.StripFlags)
  (loc : HBS.SourceLocation) : V (option ASTv1.Statement) :=
  r <- lift (acceptCallNodes name params hash) ;;
  let '(name', params', hash') := r in
  program' <- ProgramFrom None program ;;
  let node :=
    ASTv1.PartialBlockStatement name' params' hash' program' openStrip
      closeStrip (ASTv1.spanFor loc) in
  appendToCurrentElement node ;;
  ret (Some node).

End Bodies.

(** [acceptNode] on a statement dispatches on its [type]; [visitAll] is the
    loop of [Program] over [program.body]. *)
Fixpoint acceptStatement (node : HBS.Statement) : V (option ASTv1.Statement) :=
  match node with
  | HBS.MustacheStatement path params hash escaped strip loc =>
      MustacheStatement path params hash escaped strip loc
  | HBS.Decorator path params hash escaped strip loc =>
      Decorator path params hash escaped strip loc
  | HBS.BlockStatement path params hash program inverse ops ivs cls loc =>
      BlockStatement_with ProgramFrom ASTv1.BlockStatementType path params
        hash program inverse ops ivs cls loc
  | HBS.DecoratorBlock path params hash program inverse ops ivs cls loc =>
      BlockStatement_with ProgramFrom ASTv1.DecoratorBlockType path params
        hash program inverse ops ivs cls loc
  | HBS.PartialStatement name params hash strip indent loc =>
      PartialStatement name params hash strip indent loc
  | HBS.PartialBlockStatement name params hash program ops cls loc =>
      PartialBlockStatement_with ProgramFrom name params hash program ops cls
        loc
  | HBS.ContentStatement value original loc =>
      ContentStatement value original loc
  | HBS.CommentStatement value loc => CommentStatement value loc
  end
with ProgramFrom (fallback : option HBS.SourceLocation)
  (program : HBS.Program) {struct program} : V ASTv1.Body :=
  match program with
  | HBS.MkProgram body blockParams chained loc =>
      top <- gets isTopLevel ;;
      span <- programLoc fallback loc ;;
      ref <- fresh ;;
      let node :=
        if top then ASTv1.Template [] blockParams span
        else ASTv1.Block [] blockParams chained span in
      push (Parser.BodyParent ref node) ;;
      match body with
      | [] =>
          popped <- pop ;;
          asBody popped
      | _ :: _ =>
          (fix visitAll (statements : list HBS.Statement) : V unit :=
             match statements with
             | [] => ret tt
             | statement :: rest =>
                 acceptStatement statement ;; visitAll rest
             end) body ;;
          popped <- pop ;;
          unclosed popped ref
      end
  end.

(** The loop of [Program], on its own. *)
Fixpoint visitAll (statements : list HBS.Statement) : V unit :=
  match statements with
  | [] => ret tt
  | statement :: rest => acceptStatement statement ;; visitAll rest
  end.

Definition Program : HBS.Program -> V ASTv1.Body := ProgramFrom None.

Definition BlockStatement := BlockStatement_with ProgramFrom ASTv1.BlockStatementType.

Definition DecoratorBlock := BlockStatement_with ProgramFrom ASTv1.DecoratorBlockType.

Definition PartialBlockStatement := PartialBlockStatement_with ProgramFrom.

End Visitors.

End HandlebarsNodeVisitors.

(* ================================================================== *)
(** ** Custom helper managers ([manager/lib/public/helper]) *)

Module HelperManager.

(** [HelperCapabilities] *)
Record HelperCapabilities : Type :=
  MkCapabilities {
    hasValue : bool;
    hasDestroyable : bool;
    hasScheduledEffect : bool }.

(** [Partial<HelperCapabilities>]: every field may be missing. *)
Record Options : Type :=
  MkOptions {
    optHasValue : option bool;
    optHasDestroyable : option bool;
    optHasScheduledEffect : option bool }.

(** The default value [{}] of the parameter [options]. *)
Definition noOptions : Options := MkOptions None None None.

(** [Boolean(x)], and the truth value of [x] in a condition, for a field
    that is a boolean or missing. *)
Definition truthy (x : option bool) : bool :=
  match x with
  | Some true => true
  | _ => false
  end.

Section Capabilities.

(** [DEBUG] of [@glimmer/env], and [buildCapabilities] of
    [../util/capabilities], applied to the capabilities it is given. *)
Variable DEBUG : bool.
Variable Capabilities : Type.
Variable buildCapabilities : HelperCapabilities -> Capabilities.

Definition helperCapabilities (managerAPI : string) (options : Options)
  : Result string Capabilities :=
  if DEBUG && negb (String.eqb managerAPI "3.23") then
    Throw "Invalid helper manager compatibility specified"
  else if DEBUG &&
          (negb (truthy (optHasValue options) ||
                 truthy (optHasScheduledEffect options)) ||
           (truthy (optHasValue options) &&
            truthy (optHasScheduledEffect options))) then
    Throw "You must pass either the `hasValue` OR the `hasScheduledEffect` capability when defining a helper manager. Passing neither, or both, is not permitted."
  else if DEBUG && truthy (optHasScheduledEffect options) then
    Throw "The `hasScheduledEffect` capability has not yet been implemented for helper managers. Please pass `hasValue` instead"
  else
    Ok (buildCapabilities
          (MkCapabilities (truthy (optHasValue options))
             (truthy (optHasDestroyable options))
             (truthy (optHasScheduledEffect options)))).

End Capabilities.

(** *** [CustomHelperManager] *)

(** An owner is an object: [owner] is its identity, the key of the weak
    map. *)
Definition Owner : Type := nat.

Section Manager.

(** The delegates, what the factory reads and writes when it is called, the
    factory given to the constructor, and the test
    [FROM_CAPABILITIES.has(delegate.capabilities)] with the two texts of its
    error message, [JSON.stringify(delegate.capabilities)] and the delegate
    as a string. *)
Variable Delegate : Type.
Variable World : Type.
Variable factory :
  option Owner -> World -> Result string (Delegate * World).
Variable DEBUG : bool.
Variable fromCapabilities : Delegate -> bool.
Variable capabilitiesJSON : Delegate -> string.
Variable delegateString : Delegate -> string.

(** [WeakMap.get] and [WeakMap.set] *)
Fixpoint get (owner : Owner) (map : list (Owner * Delegate))
  : option Delegate :=
  match map with
  | [] => None
  | (key, delegate) :: rest =>
      if Nat.eqb key owner then Some delegate else get owner rest
  end.

Fixpoint set (owner : Owner) (delegate : Delegate)
  (map : list (Owner * Delegate)) : list (Owner * Delegate) :=
  match map with
  | [] => [(owner, delegate)]
  | (key, old) :: rest =>
      if Nat.eqb key owner then (key, delegate) :: rest
      else (key, old) :: set owner delegate rest
  end.

(** The two private fields of the manager. *)
Record t : Type :=
  MkManager {
    helperManagerDelegates : list (Owner * Delegate);
    undefinedDelegate : option Delegate }.

(** [new CustomHelperManager(factory)] *)
Definition create : t := MkManager [] None.

Definition H (A : Type) : Type :=
  t * World -> Result string (A * (t * World)).

Definition invalidCapabilities (delegate : Delegate) : string :=
  "Custom helper managers must have a `capabilities` property that is the result of calling the `capabilities('3.23')` (imported via `import { capabilities } from '@ember/helper';`). Received: `"
  ++ capabilitiesJSON delegate ++ "` for: `" ++ delegateString delegate ++ "`".

Definition getDelegateForOwner (owner : Owner) : H Delegate :=
  fun s =>
    let (manager, world) := s in
    match get owner (helperManagerDelegates manager) with
    | Some delegate => Ok (delegate, s)
    | None =>
        match factory (Some owner) world with
        | Throw e => Throw e
        | Ok (delegate, world') =>
            if DEBUG && negb (fromCapabilities delegate) then
              Throw (invalidCapabilities delegate)
            else
              Ok (delegate,
                  (MkManager
                     (set owner delegate (helperManagerDelegates manager))
                     (undefinedDelegate manager),
                   world'))
        end
    end.

Definition getDelegateFor (owner : option Owner) : H Delegate :=
  match owner with
  | None =>
      fun s =>
        let (manager, world) := s in
        match undefinedDelegate manager with
        | None =>
            match factory None world with
            | Throw e => Throw e
            | Ok (delegate, world') =>
                Ok (delegate,
                    (MkManager (helperManagerDelegates manager)
                       (Some delegate),
                     world'))
            end
        | Some delegate => Ok (delegate, s)
        end
  | Some owner => getDelegateForOwner owner
  end.

(** The delegate the manager holds for an owner. *)
Definition delegateOf (owner : option Owner) (manager : t)
  : option Delegate :=
  match owner with
  | None => undefinedDelegate manager
  | Some owner => get owner (helperManagerDelegates manager)
  end.

End Manager.

End HelperManager.

(* ================================================================== *)
(** ** A small concrete parser, to run the visitors on examples *)

Module Demo.

Import HandlebarsNodeVisitors.

Definition origin : HBS.SourceLocation :=
  HBS.MkLocation (HBS.MkPosition 1 0) (HBS.MkPosition 1 0).

(** [<name>] and [</name>] without their brackets. *)
Fixpoint dropLast (s : string) : string :=
  match s with
  | EmptyString => EmptyString
  | String c EmptyString => EmptyString
  | String c rest => String c (dropLast rest)
  end.

Definition openedTag (s : string) : string :=
  dropLast (substring 1 (String.length s - 1) s).

(** The tokenizer of the example: a chunk [</name>] closes the element on
    top of the stack and makes it a child of the one below, a chunk [<name>]
    opens an element, and any other chunk is a text child. *)
Definition demoTokenizePart (chunk : string) : V unit :=
  fun p =>
    if prefix "</" chunk then
      match Parser.elementStack p with
      | Parser.ElementParent e :: parent :: rest =>
          Ok (tt, Parser.with_stack
                    (appendChild parent (ASTv1.ElementNode e) :: rest) p)
      | _ => Throw (SyntaxError "Closing tag without an open tag" origin)
      end
    else if prefix "<" chunk then
      Ok (tt, Parser.with_stack
                (Parser.ElementParent
                   (ASTv1.MkElement (openedTag chunk) [] [] [] [] false origin)
                 :: Parser.elementStack p) p)
    else appendToCurrentElement (ASTv1.TextNode chunk origin) p.

Definition demoBeginAttributeValue (quoted : bool) : V unit :=
  fun p =>
    match Parser.currentAttr p with
    | Some attr =>
        Ok (tt, Parser.with_attr
                  (Some (Parser.MkAttribute (Parser.attr_name attr)
                           (Parser.parts attr) None quoted
                           (Parser.isDynamic attr))) p)
    | None => Throw (TypeError "there is no current attribute")
    end.

Definition demoFinishAttributeValue : V unit :=
  fun p =>
    match Parser.currentAttr p, Parser.currentStartTag p with
    | Some attr0, Some (Parser.MkStartTag name attrs mods cmts sc loc) =>
        let attr := finalizeTextPart attr0 in
        Ok (tt, Parser.with_tag
                  (Some (Parser.MkStartTag name
                           (attrs ++ [ASTv1.MkAttrNode (Parser.attr_name attr)
                                        (Parser.parts attr) origin])%list
                           mods cmts sc loc)) p)
    | _, _ => Throw (TypeError "there is no current attribute or tag")
    end.

#[export] Instance demo : Collaborators :=
  MkCollaborators
    (fun _ => ret tt)
    demoBeginAttributeValue
    demoFinishAttributeValue
    (fun _ => EmptyString)
    demoTokenizePart
    (ret tt).

(** A parser that has read nothing. *)
Definition initial : Parser.t :=
  Parser.MkParser [] None None (Parser.MkTokenizer Parser.beforeData 1 0) 0.

(** A parser inside the start tag [<div ...], whose attribute [title] is in
    progress, in tokenizer state [state]. *)
Definition inTag (state : Parser.TokenizerState) : Parser.t :=
  Parser.MkParser
    [Parser.BodyParent 0 (ASTv1.Template [] [] origin)]
    (Some (Parser.MkAttribute "title" [] None false false))
    (Some (Parser.MkStartTag "div" [] [] [] false origin))
    (Parser.MkTokenizer state 1 5) 1.

Definition noStrip : HBS.StripFlags := HBS.MkStrip false false.

(** The node of [{{mod}}]. *)
Definition modNode : ASTv1.Statement :=
  ASTv1.MustacheStatement ASTv1.MustacheStatementType
    (ASTv1.PathExpression "mod" (ASTv1.VarHead (Some "mod") origin) [] origin)
    [] (ASTv1.MkHash [] origin) false origin noStrip.

(** Example data. *)

Definition fooLoc : HBS.SourceLocation :=
  HBS.MkLocation (HBS.MkPosition 1 2) (HBS.MkPosition 1 10).

Definition helperLoc : HBS.SourceLocation :=
  HBS.MkLocation (HBS.MkPosition 1 2) (HBS.MkPosition 1 8).

Definition arg1Loc : HBS.SourceLocation :=
  HBS.MkLocation (HBS.MkPosition 1 9) (HBS.MkPosition 1 13).

Definition stringLoc : HBS.SourceLocation :=
  HBS.MkLocation (HBS.MkPosition 1 2) (HBS.MkPosition 1 12).

Definition mustacheLoc : HBS.SourceLocation :=
  HBS.MkLocation (HBS.MkPosition 1 0) (HBS.MkPosition 1 14).

(** The parser in the body of a template, reading data. *)
Definition inTemplate : Parser.t :=
  Parser.MkParser [Parser.BodyParent 0 (ASTv1.Template [] [] origin)]
    None None (Parser.MkTokenizer Parser.data 1 0) 1.

(** The node of [{{"a string"}}]. *)
Definition stringMustache : ASTv1.Statement :=
  ASTv1.MustacheStatement ASTv1.MustacheStatementType
    (ASTv1.StringLiteral "a string" stringLoc) []
    (ASTv1.MkHash []
       (HBS.MkLocation (HBS.MkPosition 1 12) (HBS.MkPosition 1 12)))
    false mustacheLoc noStrip.

(** [<div>] is left open. *)
Definition openDiv : HBS.Statement :=
  HBS.ContentStatement "<div>" "<div>" origin.


Definition templateEntry : Parser.Parent :=
  Parser.BodyParent 0 (ASTv1.Template [] [] origin).

Definition strippedOriginal : string :=
  "  " ++ JsString.newline ++ "  bar".

Definition contentStart : HBS.SourceLocation :=
  HBS.MkLocation (HBS.MkPosition 3 2) (HBS.MkPosition 4 5).

(** [{{x a=true}}], as the helper functions describe it. *)
Definition hashedMustache : Builder.BuilderAst :=
  Builder.ast
    [Builder.mustache (Builder.Path (Builder.path "x")) (Some [])
       (Some [("a", Builder.literal (Builder.PBoolean true))])].

(** More example data. *)

(** [{{@}}]: a mustache whose path cannot be resolved. *)
Definition unnamedMustache : HBS.Statement :=
  HBS.MustacheStatement (HBS.PathExpression "@" [] true arg1Loc) [] None
    true noStrip mustacheLoc.

(** [{{#helper}}{{/helper}}], whose program came without a location. *)
Definition helperPath : HBS.Expression :=
  HBS.PathExpression "helper" ["helper"] false helperLoc.

Definition emptyBlockStatement : HBS.Statement :=
  HBS.BlockStatement helperPath [] None (HBS.MkProgram [] [] false None) None
    noStrip noStrip noStrip mustacheLoc.

(** The attribute [title] with the text [a] pending. *)
Definition pendingA : Parser.Attribute :=
  Parser.MkAttribute "title" [] (Some (ASTv1.TextNode "a" origin)) true
    false.

Definition inValue : Parser.t :=
  Parser.with_attr (Some pendingA)
    (inTag Parser.attributeValueDoubleQuoted).

(** [{{! note }}{{helper}}] *)
Definition noteAndHelper : list HBS.Statement :=
  [HBS.CommentStatement " note " fooLoc;
   HBS.MustacheStatement
     (HBS.PathExpression "helper" ["helper"] false helperLoc) [] None
     true noStrip mustacheLoc].


(** [(helper @arg1)] and [(helper @)]. *)
Definition namedCall : HBS.Expression :=
  HBS.SubExpression
    (HBS.PathExpression "helper" ["helper"] false helperLoc)
    [HBS.PathExpression "@arg1" ["arg1"] true arg1Loc] None fooLoc.

Definition unnamedCall : HBS.Expression :=
  HBS.SubExpression
    (HBS.PathExpression "helper" ["helper"] false helperLoc)
    [HBS.PathExpression "@" [] true arg1Loc] None fooLoc.

(** A hash with the key [a] twice. *)
Definition twoPairs : list HBS.HashPair :=
  [HBS.MkHashPair "a" (HBS.NumberLiteral 1 arg1Loc) arg1Loc;
   HBS.MkHashPair "a" (HBS.NumberLiteral 2 stringLoc) stringLoc].

(** A factory that numbers its delegates: the world is the number of calls
    made so far, and the delegate is that number. *)
Definition counting (owner : option HelperManager.Owner) (calls : nat)
  : Result string (nat * nat) :=
  Ok (calls, S calls).

Definition even_only (delegate : nat) : bool := Nat.even delegate.

Definition shown (delegate : nat) : string := "delegate".



(** The CST of [{{[this].x}}]: the segment [this] is written as a literal
    segment, so it is one of the [parts], and [original], which is made of
    the segments without their brackets, is [this.x]. *)
Definition literalThisText : string := "this.x".

Definition literalThisParts : list string := ["this"; "x"].

Definition literalThisLoc : HBS.SourceLocation :=
  HBS.MkLocation (HBS.MkPosition 1 2) (HBS.MkPosition 1 10).

End Demo.

(* ================================================================== *)
(** ** Vocabulary of the properties *)

Module Spec.

(** *** Texts *)

(** Number of LF characters of a string. *)
Fixpoint count_newlines (s : string) : nat :=
  match s with
  | EmptyString => 0
  | String c s' => (if Ascii.eqb c JsString.LF then 1 else 0) + count_newlines s'
  end.

(** The text of [s] that precedes the first occurrence of [v], or all of
    [s] when [v] does not occur in it. *)
Definition before_first (v s : string) : string :=
  match index 0 v s with
  | Some i => substring 0 i s
  | None => s
  end.

(** [l] is the last line of [d]: it has no LF, and it is either all of [d]
    or what follows an LF of [d]. *)
Definition last_line_of (d l : string) : Prop :=
  count_newlines l = 0 /\
  (d = l \/ exists p, d = p ++ JsString.newline ++ l).

(** The last line of a text, computed. *)
Fixpoint last_line (d : string) : string :=
  match d with
  | EmptyString => EmptyString
  | String c d' =>
      if Ascii.eqb c JsString.LF then last_line d'
      else match count_newlines d' with
           | O => String c d'
           | S _ => last_line d'
           end
  end.

(** *** Runs of the builder *)

(** What a successful run says about a node: the cursor did not move back,
    and the node's span runs from the cursor before to the cursor after. *)
Definition spans {A : Type} (span_of : A -> hbs.Span)
  (m : Builder.AstBuilder.M A) : Prop :=
  forall pos node pos',
    m pos = Ok (node, pos') ->
    pos <= pos' /\ span_of node = hbs.MkSpan pos pos'.

Definition advances {A : Type} (m : Builder.AstBuilder.M A) : Prop :=
  forall pos a pos', m pos = Ok (a, pos') -> pos <= pos'.

(** The span of a body ends at the cursor and starts after the header. *)
Definition program_spans (p : Builder.Program) : Prop :=
  forall pos node pos',
    Builder.AstBuilder.program p pos = Ok (node, pos') ->
    pos <= hbs.start (hbs.program_span node) /\
    hbs.start (hbs.program_span node) <= pos' /\
    hbs.end_ (hbs.program_span node) = pos'.

(** Span containment through a built tree.  Every node is checked against
    the nodes it holds; [strict] says whether a hash pair is checked against
    its value. *)
Definition path_nested (p : hbs.PathExpression) : bool :=
  match p with
  | hbs.MkPathExpression span head tail =>
      hbs.containsb span (hbs.head_span head) &&
      match tail with
      | None => true
      | Some segments =>
          forallb (fun s => hbs.containsb span (hbs.segment_span s)) segments
      end
  end.

Definition expression_nested (e : hbs.Expression) : bool :=
  match e with
  | hbs.Path p => path_nested p
  | _ => true
  end.

Definition pair_nested (strict : bool) (pair : hbs.HashPair) : bool :=
  match pair with
  | hbs.MkHashPair span _ value =>
      (negb strict || hbs.containsb span (hbs.expression_span value)) &&
      expression_nested value
  end.

Definition hash_nested (strict : bool) (h : hbs.Hash) : bool :=
  match h with
  | hbs.MkHash span pairs =>
      forallb (fun pair =>
                 hbs.containsb span (hbs.pair_span pair) &&
                 pair_nested strict pair) pairs
  end.

Definition expressions_nested (span : hbs.Span) (es : list hbs.Expression)
  : bool :=
  forallb (fun e =>
             hbs.containsb span (hbs.expression_span e) &&
             expression_nested e) es.

Definition optional_hash_nested (strict : bool) (span : hbs.Span)
  (h : option hbs.Hash) : bool :=
  match h with
  | None => true
  | Some h => hbs.containsb span (hbs.hash_span h) && hash_nested strict h
  end.

Fixpoint statement_nested (strict : bool) (s : hbs.Statement) : bool :=
  match s with
  | hbs.ContentStatement _ _ _ => true
  | hbs.MustacheContent span value =>
      hbs.containsb span (hbs.expression_span value) &&
      expression_nested value
  | hbs.BlockStatement _ span call params h prog inverse _ _ _ =>
      hbs.containsb span (hbs.path_span call) && path_nested call &&
      expressions_nested span params &&
      optional_hash_nested strict span h &&
      hbs.containsb span (hbs.program_span prog) &&
      program_nested strict prog &&
      match inverse with
      | None => true
      | Some i =>
          hbs.containsb span (hbs.program_span i) && program_nested strict i
      end
  | hbs.MustacheStatement span call params h _ _ =>
      hbs.containsb span (hbs.expression_span call) &&
      expression_nested call &&
      expressions_nested span params &&
      optional_hash_nested strict span h
  end
with program_nested (strict : bool) (p : hbs.Program) : bool :=
  match p with
  | hbs.MkProgram span body _ =>
      forallb (fun s =>
                 hbs.containsb span (hbs.statement_span s) &&
                 statement_nested strict s) body
  end.

(** A run puts its node between the cursor before and the cursor after, and
    the node passes a check. *)
Definition places {A : Type} (span_of : A -> hbs.Span) (check : A -> bool)
  (m : Builder.AstBuilder.M A) : Prop :=
  forall pos node pos',
    m pos = Ok (node, pos') ->
    pos <= pos' /\
    pos <= hbs.start (span_of node) /\ hbs.end_ (span_of node) <= pos' /\
    check node = true.

Definition statement_nests (s : Builder.Statement) : Prop :=
  forall pos node pos',
    Builder.AstBuilder.visit s pos = Ok (node, pos') ->
    pos <= pos' /\ hbs.statement_span node = hbs.MkSpan pos pos' /\
    statement_nested false node = true.

Definition program_nests (p : Builder.Program) : Prop :=
  forall pos node pos',
    Builder.AstBuilder.program p pos = Ok (node, pos') ->
    pos <= hbs.start (hbs.program_span node) /\
    hbs.start (hbs.program_span node) <= pos' /\
    hbs.end_ (hbs.program_span node) = pos' /\
    program_nested false node = true.

(** *** Visits of the translator *)

(** The tail the translator hands over. *)
Definition translated_tail (original : string) (parts : list string)
  : list string :=
  if JsString.matches_this original
  then HandlebarsNodeVisitors.path_segments original parts
  else List.tl (HandlebarsNodeVisitors.path_segments original parts).

(** The state in which the children of a body are visited: the body node,
    with a fresh reference, is on top of the element stack. *)
Definition bodyNode (blockParams : list string)
  (chained : bool) (loc : HBS.SourceLocation) (p : Parser.t) : ASTv1.Body :=
  if HandlebarsNodeVisitors.isTopLevel p
  then ASTv1.Template [] blockParams (ASTv1.spanFor loc)
  else ASTv1.Block [] blockParams chained (ASTv1.spanFor loc).

Definition entered (node : ASTv1.Body) (p : Parser.t) : Parser.t :=
  Parser.with_stack
    (Parser.BodyParent (Parser.nextRef p) node :: Parser.elementStack p)
    (Parser.with_nextRef (S (Parser.nextRef p)) p).

(** *** Descriptions the builder implements *)

(** The expressions [expr] has a case for. *)
Definition expression_supported (e : Builder.Expression) : bool :=
  match e with
  | Builder.Path _ | Builder.StringLiteral _ | Builder.BooleanLiteral _
  | Builder.NumberLiteral _ => true
  | _ => false
  end.

Definition pair_supported (pair : Builder.HashPair) : bool :=
  match pair with
  | Builder.MkHashPair _ value => expression_supported value
  end.

Definition hash_supported (h : option Builder.Hash) : bool :=
  match h with
  | None => true
  | Some (Builder.MkHash pairs) => forallb pair_supported pairs
  end.

(** The statements [visit] has a case for, in which every expression that is
    built is one [expr] has a case for. *)
Fixpoint statement_supported (s : Builder.Statement) : bool :=
  match s with
  | Builder.MustacheStatement call params h _ =>
      expression_supported call && forallb expression_supported params &&
      hash_supported h
  | Builder.ContentMustache value => expression_supported value
  | Builder.BlockStatement _ params h prog inverse =>
      forallb expression_supported params && hash_supported h &&
      program_supported prog &&
      match inverse with
      | None => true
      | Some i => program_supported i
      end
  | Builder.ContentStatement _ => true
  | Builder.CommentStatement _ => false
  end
with program_supported (p : Builder.Program) : bool :=
  match p with
  | Builder.MkProgram body _ => forallb statement_supported body
  end.

(** A run returns exactly when [b] holds, whatever the cursor is. *)
Definition decides {A : Type} (b : bool) (m : Builder.AstBuilder.M A)
  : Prop :=
  forall pos,
    if b then exists a pos', m pos = Ok (a, pos')
    else exists e, m pos = Throw e.

(** The continuation a callback returns does not fail. *)
Definition pure_next {T : Type}
  (cb : Builder.AstBuilder.M (hbs.Span -> Builder.AstBuilder.M T)) : Prop :=
  forall pos next pos',
    cb pos = Ok (next, pos') ->
    forall span p, exists node p', next span p = Ok (node, p').

(** *** Trees moved along the text *)

(** A node with every span of it moved [k] characters to the right. *)
Definition shift_span (k : nat) (s : hbs.Span) : hbs.Span :=
  hbs.MkSpan (hbs.start s + k) (hbs.end_ s + k).

Definition shift_head (k : nat) (h : hbs.Head) : hbs.Head :=
  match h with
  | hbs.LocalReference span name => hbs.LocalReference (shift_span k span) name
  | hbs.This span => hbs.This (shift_span k span)
  | hbs.ArgReference span name => hbs.ArgReference (shift_span k span) name
  end.

Definition shift_segment (k : nat) (s : hbs.PathSegment) : hbs.PathSegment :=
  match s with
  | hbs.MkPathSegment span name => hbs.MkPathSegment (shift_span k span) name
  end.

Definition shift_path (k : nat) (p : hbs.PathExpression)
  : hbs.PathExpression :=
  match p with
  | hbs.MkPathExpression span head tail =>
      hbs.MkPathExpression (shift_span k span) (shift_head k head)
        (option_map (List.map (shift_segment k)) tail)
  end.

Definition shift_expression (k : nat) (e : hbs.Expression) : hbs.Expression :=
  match e with
  | hbs.BooleanLiteral span value => hbs.BooleanLiteral (shift_span k span) value
  | hbs.NumberLiteral span value => hbs.NumberLiteral (shift_span k span) value
  | hbs.StringLiteral span value => hbs.StringLiteral (shift_span k span) value
  | hbs.Path p => hbs.Path (shift_path k p)
  end.

Definition shift_pair (k : nat) (entry : hbs.HashPair) : hbs.HashPair :=
  match entry with
  | hbs.MkHashPair span key value =>
      hbs.MkHashPair (shift_span k span) key (shift_expression k value)
  end.

Definition shift_hash (k : nat) (h : hbs.Hash) : hbs.Hash :=
  match h with
  | hbs.MkHash span pairs =>
      hbs.MkHash (shift_span k span) (List.map (shift_pair k) pairs)
  end.

Fixpoint shift_statement (k : nat) (s : hbs.Statement) : hbs.Statement :=
  match s with
  | hbs.ContentStatement span value strip =>
      hbs.ContentStatement (shift_span k span) value strip
  | hbs.MustacheContent span value =>
      hbs.MustacheContent (shift_span k span) (shift_expression k value)
  | hbs.BlockStatement chained span call params h prog inverse ops ivs cls =>
      hbs.BlockStatement chained (shift_span k span) (shift_path k call)
        (List.map (shift_expression k) params) (option_map (shift_hash k) h)
        (shift_program k prog)
        match inverse with
        | Some i => Some (shift_program k i)
        | None => None
        end
        ops ivs cls
  | hbs.MustacheStatement span call params h trusted strip =>
      hbs.MustacheStatement (shift_span k span) (shift_expression k call)
        (List.map (shift_expression k) params) (option_map (shift_hash k) h)
        trusted strip
  end
with shift_program (k : nat) (p : hbs.Program) : hbs.Program :=
  match p with
  | hbs.MkProgram span body blockParams =>
      hbs.MkProgram (shift_span k span) (List.map (shift_statement k) body)
        blockParams
  end.

(** Two runs, the second with the cursor [k] characters further: they throw
    the same error, or both return, with the cursor [k] characters further
    in the second and results related by [R]. *)
Definition shifted {A B : Type} (k : nat) (R : A -> B -> Prop)
  (m1 : Builder.AstBuilder.M A) (m2 : Builder.AstBuilder.M B) : Prop :=
  forall pos,
    match m1 pos with
    | Ok (a, pos') => exists b, m2 (pos + k) = Ok (b, pos' + k) /\ R a b
    | Throw e => m2 (pos + k) = Throw e
    end.

(** A run whose result moves with the cursor. *)
Definition translates {A : Type} (shift : nat -> A -> A)
  (m : Builder.AstBuilder.M A) : Prop :=
  forall k, shifted k (fun a b => b = shift k a) m m.


(** *** Expressions the translator resolves *)

(** A path is resolved unless it is written with the sigil, is no [this]
    path, and has no segment. *)
Definition path_named (original : string) (parts : list string)
  (data : bool) : bool :=
  JsString.matches_this original || negb data ||
  match HandlebarsNodeVisitors.path_segments original parts with
  | [] => false
  | _ :: _ => true
  end.

Fixpoint expression_named (e : HBS.Expression) : bool :=
  match e with
  | HBS.PathExpression original parts data _ => path_named original parts data
  | HBS.SubExpression path params hash _ =>
      expression_named path && forallb expression_named params &&
      match hash with
      | None => true
      | Some h => hash_named h
      end
  | _ => true
  end
with hash_named (h : HBS.Hash) : bool :=
  match h with
  | HBS.MkHash pairs _ => forallb pair_named pairs
  end
with pair_named (entry : HBS.HashPair) : bool :=
  match entry with
  | HBS.MkHashPair _ value _ => expression_named value
  end.

Definition optional_hash_named (h : option HBS.Hash) : bool :=
  match h with
  | None => true
  | Some h => hash_named h
  end.

(** A translation returns when [b] holds, and otherwise throws the syntax
    error of a path [@] without a name. *)
Definition resolves {A : Type} (b : bool) (r : HandlebarsNodeVisitors.R A)
  : Prop :=
  if b then exists a, r = Ok a
  else exists loc,
      r = Throw (HandlebarsNodeVisitors.SyntaxError
                   HandlebarsNodeVisitors.invalidAtPath loc).

Definition pair_key (entry : ASTv1.HashPair) : string :=
  match entry with ASTv1.MkHashPair key _ _ => key end.

Definition pair_loc (entry : ASTv1.HashPair) : ASTv1.SourceSpan :=
  match entry with ASTv1.MkHashPair _ _ loc => loc end.

Definition cst_pair_key (entry : HBS.HashPair) : string :=
  match entry with HBS.MkHashPair key _ _ => key end.

Definition cst_pair_value (entry : HBS.HashPair) : HBS.Expression :=
  match entry with HBS.MkHashPair _ value _ => value end.

Definition cst_pair_loc (entry : HBS.HashPair) : HBS.SourceLocation :=
  match entry with HBS.MkHashPair _ _ loc => loc end.

Definition translated_value (entry : ASTv1.HashPair) : ASTv1.Expression :=
  match entry with ASTv1.MkHashPair _ value _ => value end.

(** *** Statements *)

(** The statements that become comment data inside an HTML comment. *)
Definition commentable (s : HBS.Statement) : bool :=
  match s with
  | HBS.MustacheStatement _ _ _ _ _ _ | HBS.Decorator _ _ _ _ _ _
  | HBS.BlockStatement _ _ _ _ _ _ _ _ _
  | HBS.DecoratorBlock _ _ _ _ _ _ _ _ _
  | HBS.CommentStatement _ _ => true
  | _ => false
  end.

Definition is_block (s : HBS.Statement) : bool :=
  match s with
  | HBS.BlockStatement _ _ _ _ _ _ _ _ _
  | HBS.DecoratorBlock _ _ _ _ _ _ _ _ _ => true
  | _ => false
  end.

(** A program with no statement and no location, and the body it becomes
    below the top level. *)
Definition emptyProgram (shape : list string * bool) : HBS.Program :=
  HBS.MkProgram [] (fst shape) (snd shape) None.

Definition emptyBlock (shape : list string * bool) : ASTv1.Body :=
  ASTv1.Block [] (fst shape) (snd shape)
    (ASTv1.spanFor ASTv1.NON_EXISTENT_LOCATION).

(** The text that is pending in an attribute, as a list of parts. *)
Definition pendingText (attr : Parser.Attribute) : list ASTv1.Statement :=
  match Parser.currentPart attr with
  | Some text => [text]
  | None => []
  end.

Definition withComment (node : ASTv1.Statement) (tag : Parser.StartTag)
  : Parser.StartTag :=
  Parser.MkStartTag (Parser.tag_name tag) (Parser.attributes tag)
    (Parser.modifiers tag) (Parser.comments tag ++ [node])%list
    (Parser.selfClosing tag) (Parser.tag_loc tag).

(** The node of a statement that holds no program and is no content:
    a mustache, a decorator, a Handlebars comment or a partial. *)
Definition plainNode (s : HBS.Statement)
  : option (HandlebarsNodeVisitors.R ASTv1.Statement) :=
  match s with
  | HBS.MustacheStatement path params hash escaped strip loc =>
      Some (HandlebarsNodeVisitors.buildMustache ASTv1.MustacheStatementType
              path params hash escaped strip loc)
  | HBS.Decorator path params hash escaped strip loc =>
      Some (HandlebarsNodeVisitors.buildMustache ASTv1.DecoratorStatementType
              path params hash escaped strip loc)
  | HBS.CommentStatement value loc =>
      Some (Ok (ASTv1.MustacheCommentStatement value (ASTv1.spanFor loc)))
  | HBS.PartialStatement name params hash strip indent loc =>
      Some (HandlebarsNodeVisitors.bindR
              (HandlebarsNodeVisitors.acceptCallNodes name params hash)
              (fun r =>
                 let '(name', params', hash') := r in
                 Ok (ASTv1.PartialStatement name' params' hash' strip indent
                       (ASTv1.spanFor loc))))
  | _ => None
  end.

(** [s] is such a statement and [node] is its node. *)
Definition plain (s : HBS.Statement) (node : ASTv1.Statement) : Prop :=
  plainNode s = Some (Ok node).

Definition appendChildren (parent : Parser.Parent)
  (nodes : list ASTv1.Statement) : Parser.Parent :=
  List.fold_left HandlebarsNodeVisitors.appendChild nodes parent.

(** *** Where an injected node ends *)

(** The start tag with one more modifier, the attribute with its pending
    text and then one more dynamic part, and the parser after the tokenizer
    has gone to a state. *)
Definition withModifier (node : ASTv1.Statement) (tag : Parser.StartTag)
  : Parser.StartTag :=
  Parser.MkStartTag (Parser.tag_name tag) (Parser.attributes tag)
    (Parser.modifiers tag ++ [node])%list (Parser.comments tag)
    (Parser.selfClosing tag) (Parser.tag_loc tag).

Definition withPart (node : ASTv1.Statement) (attr : Parser.Attribute)
  : Parser.Attribute :=
  Parser.MkAttribute (Parser.attr_name attr)
    (Parser.parts attr ++ pendingText attr ++ [node])%list None
    (Parser.isQuoted attr) true.

Definition inState (state : Parser.TokenizerState) (p : Parser.t)
  : Parser.t :=
  Parser.with_tokenizer
    (Parser.MkTokenizer state (Parser.line (Parser.tokenizer p))
       (Parser.column (Parser.tokenizer p))) p.

(** The parser when the children of a body have been visited and have
    become the children [nodes] of the body node, and nothing else has
    changed. *)
Definition visited (nodes : list ASTv1.Statement) (node : ASTv1.Body)
  (p : Parser.t) : Parser.t :=
  Parser.with_stack
    (appendChildren (Parser.BodyParent (Parser.nextRef p) node) nodes
     :: Parser.elementStack p)
    (Parser.with_nextRef (S (Parser.nextRef p)) p).

End Spec.

(* ================================================================== *)
(** * Properties *)

(** ** Strings *)

Module JsStringFacts.

Import JsString Spec.

Lemma split_from_nonempty (sep s : string) (skip : nat) :
  split_from sep s skip <> [].
Proof.
  revert skip; induction s as [|c s IH]; intros skip; cbn [split_from].
  - discriminate.
  - destruct skip as [|k]; [|apply IH].
    destruct (prefix sep (String c s)); [discriminate|].
    destruct (split_from sep s 0); discriminate.
Qed.

Lemma prefix_newline (c : ascii) (s : string) :
  prefix newline (String c s) = Ascii.eqb c LF.
Proof.
  unfold newline.
  change (prefix (String LF EmptyString) (String c s))
    with (match ascii_dec LF c with
          | left _ => prefix EmptyString s
          | right _ => false
          end).
  destruct (ascii_dec LF c) as [e|n].
  - subst c. rewrite Ascii.eqb_refl. now destruct s.
  - symmetry. apply Ascii.eqb_neq. congruence.
Qed.

Lemma split_newline_cons (c : ascii) (s : string) :
  split newline (String c s) =
    if Ascii.eqb c LF then EmptyString :: split newline s
    else match split newline s with
         | piece :: pieces => String c piece :: pieces
         | [] => [String c EmptyString]
         end.
Proof.
  unfold split. cbn [split_from]. rewrite prefix_newline.
  destruct (Ascii.eqb c LF); reflexivity.
Qed.

(** [s.split('\n').length - 1] counts the newlines of [s]. *)
Lemma split_newline_length (s : string) :
  List.length (split newline s) = S (count_newlines s).
Proof.
  induction s as [|c s IH]; [reflexivity|].
  rewrite split_newline_cons. cbn [count_newlines].
  destruct (Ascii.eqb c LF); cbn [List.length].
  - now rewrite IH.
  - destruct (split newline s) as [|piece pieces]; [discriminate IH|].
    exact IH.
Qed.

(** [s.split(v)[0]] is what precedes the first occurrence of [v]. *)
Lemma split_first (v s : string) :
  v <> EmptyString ->
  List.nth 0 (split v s) EmptyString = before_first v s.
Proof.
  intros Hv. unfold split, before_first.
  induction s as [|c s IH].
  - simpl. destruct v; [congruence|reflexivity].
  - cbn [split_from index].
    destruct (prefix v (String c s)); [reflexivity|].
    destruct (split_from v s 0) as [|piece pieces] eqn:E.
    + now apply split_from_nonempty in E.
    + cbn [List.nth] in *. rewrite IH.
      destruct (index 0 v s); reflexivity.
Qed.

Lemma nth_length_pred {A : Type} (l : list A) (d : A) :
  List.nth (List.length l - 1) l d = List.last l d.
Proof.
  induction l as [|x l IH]; [reflexivity|].
  destruct l as [|y l]; [reflexivity|].
  cbn [List.length List.last] in *.
  replace (S (S (List.length l)) - 1) with (S (S (List.length l) - 1)) by lia.
  exact IH.
Qed.

Lemma count_newlines_none (s : string) :
  count_newlines s = 0 -> split newline s = [s].
Proof.
  induction s as [|c s IH]; [reflexivity|].
  cbn [count_newlines]. rewrite split_newline_cons.
  destruct (Ascii.eqb c LF); [discriminate|].
  intros H. now rewrite IH.
Qed.

Lemma split_newline_last (d : string) :
  List.last (split newline d) EmptyString = last_line d.
Proof.
  induction d as [|c d IH]; [reflexivity|].
  rewrite split_newline_cons. cbn [last_line].
  pose proof (split_newline_length d) as L.
  destruct (Ascii.eqb c LF).
  - destruct (split newline d) as [|piece pieces]; [discriminate L|].
    exact IH.
  - destruct (count_newlines d) as [|n] eqn:E.
    + now rewrite (count_newlines_none d E).
    + destruct (split newline d) as [|piece [|piece' pieces]];
        try discriminate L.
      exact IH.
Qed.

Lemma last_line_correct (d : string) : last_line_of d (last_line d).
Proof.
  unfold last_line_of.
  induction d as [|c d [IHc IHd]]; [now split; [|left]|].
  cbn [last_line count_newlines].
  destruct (Ascii.eqb c LF) eqn:Ec.
  - apply Ascii.eqb_eq in Ec. subst c.
    split; [exact IHc|right].
    destruct IHd as [E|[p E]].
    + exists EmptyString. cbn [append]. unfold newline at 1. cbn [append].
      f_equal. exact E.
    + exists (String LF p). cbn [append]. f_equal. exact E.
  - destruct (count_newlines d) as [|n] eqn:E.
    + split; [|now left]. cbn [count_newlines]. now rewrite Ec, E.
    + split; [exact IHc|right].
      destruct IHd as [E'|[p E']].
      * rewrite <- E' in IHc. congruence.
      * exists (String c p). cbn [append]. f_equal. exact E'.
Qed.

End JsStringFacts.

(** ** Content statements: the location handed to the tokenizer *)

Module ContentFacts.

Import JsString JsStringFacts HandlebarsNodeVisitors Spec.

Lemma offsets_of_empty_value (original : string) :
  calculateRightStrippedOffsets original EmptyString =
    MkOffsets (count_newlines original) 0.
Proof.
  unfold calculateRightStrippedOffsets. cbn [String.eqb].
  now rewrite split_newline_length, Nat.sub_succ, Nat.sub_0_r.
Qed.

Lemma offsets_of_value (original value : string) :
  value <> EmptyString ->
  calculateRightStrippedOffsets original value =
    MkOffsets (count_newlines (before_first value original))
      (String.length (last_line (before_first value original))).
Proof.
  intros Hv. unfold calculateRightStrippedOffsets.
  destruct (String.eqb_spec value EmptyString) as [E|_]; [contradiction|].
  rewrite (split_first value original Hv).
  rewrite nth_length_pred, split_newline_last, split_newline_length.
  now rewrite Nat.sub_succ, Nat.sub_0_r.
Qed.

(** C7 (as amended).  The right-stripped offset of a content statement is
    (newlines of the original text, 0) when the stripped value is empty, and
    otherwise (newlines of the text before the first occurrence of the value
    in the original, length of the last line of that text).  The tokenizer's
    line becomes the line where the content starts plus the line offset; its
    column becomes the column offset when the line offset is not zero, and
    the column where the content starts plus the column offset otherwise;
    its state is kept.  Only then is the value given to the tokenizer. *)
Theorem updateTokenizerLocation_from_content_start
  (c : Collaborators) (value original : string) (loc : HBS.SourceLocation)
  (p : Parser.t) :
  let offsets := calculateRightStrippedOffsets original value in
  let before := before_first value original in
  let tokenizer' :=
    updateTokenizerLocation (Parser.tokenizer p) value original loc in
  (value = EmptyString ->
   lines offsets = count_newlines original /\ columns offsets = 0) /\
  (value <> EmptyString ->
   lines offsets = count_newlines before /\
   exists l, last_line_of before l /\ columns offsets = String.length l) /\
  Parser.line tokenizer' = HBS.line (HBS.start loc) + lines offsets /\
  Parser.column tokenizer' =
    (if Nat.eqb (lines offsets) 0
     then HBS.column (HBS.start loc) + columns offsets
     else columns offsets) /\
  Parser.state tokenizer' = Parser.state (Parser.tokenizer p) /\
  ContentStatement value original loc p =
    (tokenizePart value ;; flushData ;; ret None)
      (Parser.with_tokenizer tokenizer' p).
Proof.
  cbv zeta.
  split; [|split; [|split; [|split; [|split]]]].
  - intros ->. now rewrite offsets_of_empty_value.
  - intros Hv. rewrite (offsets_of_value _ _ Hv). split; [reflexivity|].
    exists (last_line (before_first value original)).
    split; [apply last_line_correct|reflexivity].
  - reflexivity.
  - unfold updateTokenizerLocation. cbn [Parser.column].
    now destruct (lines (calculateRightStrippedOffsets original value)).
  - reflexivity.
  - reflexivity.
Qed.

Lemma updateTokenizerLocation_from_content_start_witness :
  lines (calculateRightStrippedOffsets Demo.strippedOriginal "bar") = 1 /\
  columns (calculateRightStrippedOffsets Demo.strippedOriginal "bar") = 2 /\
  Parser.line
    (updateTokenizerLocation (Parser.tokenizer Demo.initial) "bar"
       Demo.strippedOriginal Demo.contentStart) = 4 /\
  lines (calculateRightStrippedOffsets "abc" EmptyString) = 0.
Proof.
  pose proof (updateTokenizerLocation_from_content_start Demo.demo "bar"
                Demo.strippedOriginal Demo.contentStart Demo.initial) as H.
  pose proof (updateTokenizerLocation_from_content_start Demo.demo
                EmptyString "abc" Demo.contentStart Demo.initial) as H0.
  cbv zeta in H, H0.
  destruct H as (_ & H2 & H3 & _).
  destruct H0 as (H1 & _).
  destruct (H1 eq_refl) as [Hl0 _].
  assert (Hne : "bar" <> EmptyString) by discriminate.
  destruct (H2 Hne) as [Hl [l [Hll Hc]]].
  split; [|split; [|split]].
  - rewrite Hl. reflexivity.
  - reflexivity.
  - rewrite H3, Hl. reflexivity.
  - rewrite Hl0. reflexivity.
Defined.

(** C7 (as stated) fails: the tokenizer's own line and column are not what
    the offsets are added to.  After [{{foo}}] the tokenizer is still at
    line 1, column 0, the content [bar] starts at column 7 and has offset
    (0, 0): the column becomes 7, not 0 + 0. *)
Lemma updateTokenizerLocation_not_from_tokenizer :
  let tokenizer := Parser.MkTokenizer Parser.data 1 0 in
  let loc := HBS.MkLocation (HBS.MkPosition 1 7) (HBS.MkPosition 1 10) in
  let offsets := calculateRightStrippedOffsets "bar" "bar" in
  lines offsets = 0 /\ columns offsets = 0 /\
  Parser.column (updateTokenizerLocation tokenizer "bar" "bar" loc) = 7 /\
  Parser.column (updateTokenizerLocation tokenizer "bar" "bar" loc)
    <> Parser.column tokenizer + columns offsets.
Proof.
  cbv zeta. split; [reflexivity|]. split; [reflexivity|].
  split; [reflexivity|]. vm_compute. discriminate.
Qed.

End ContentFacts.

(** ** The AST builder *)

Module BuilderFacts.

Import Builder Builder.AstBuilder Spec Demo.

(** *** Inversion of the monad's operations *)

Lemma bind_ok {A B : Type} (m : M A) (k : A -> M B) (pos : nat) (b : B)
  (pos'' : nat) :
  bind m k pos = Ok (b, pos'') ->
  exists a pos', m pos = Ok (a, pos') /\ k a pos' = Ok (b, pos'').
Proof.
  unfold bind. destruct (m pos) as [[a pos']|e]; [|discriminate].
  intros H. now exists a, pos'.
Qed.

Lemma ret_ok {A : Type} (a b : A) (pos pos' : nat) :
  ret a pos = Ok (b, pos') -> b = a /\ pos' = pos.
Proof. unfold ret. intros H. injection H as <- <-. now split. Qed.

Lemma consume_ok (chars : string) (pos : nat) (span : hbs.Span) (pos' : nat) :
  consume chars pos = Ok (span, pos') ->
  span = hbs.MkSpan pos (pos + String.length chars) /\
  pos' = pos + String.length chars.
Proof. unfold consume. intros H. injection H as <- <-. now split. Qed.

Lemma spanned_ok {T : Type} (cb : M (hbs.Span -> M T)) (pos : nat) (node : T)
  (pos'' : nat) :
  spanned cb pos = Ok (node, pos'') ->
  exists next pos',
    cb pos = Ok (next, pos') /\ next (hbs.MkSpan pos pos') pos' = Ok (node, pos'').
Proof.
  unfold spanned. destruct (cb pos) as [[next pos']|e]; [|discriminate].
  intros H. now exists next, pos'.
Qed.

Ltac invert_run :=
  repeat match goal with
    | H : bind _ _ _ = Ok _ |- _ =>
        let a := fresh "a" in
        let p := fresh "p" in
        let E := fresh "E" in
        apply bind_ok in H; destruct H as (a & p & E & H)
    | H : ret _ _ = Ok _ |- _ =>
        apply ret_ok in H; destruct H as [? ?]; subst
    | H : consume _ _ = Ok _ |- _ =>
        apply consume_ok in H; destruct H as [? ?]; subst
    | H : spanned _ _ = Ok _ |- _ =>
        let next := fresh "next" in
        let p := fresh "p" in
        let E := fresh "E" in
        apply spanned_ok in H; destruct H as (next & p & E & H)
    | H : throw _ _ = Ok _ |- _ => discriminate H
    | H : Ok _ = Ok _ |- _ => injection H as ? ?; subst
    end.

Lemma spans_advances {A : Type} (span_of : A -> hbs.Span) (m : M A) :
  spans span_of m -> advances m.
Proof. intros H pos a pos' E. now apply H in E. Qed.

Ltac use L :=
  repeat match goal with
    | H : _ = Ok _ |- _ => apply L in H
    end.

Lemma mapM_advances {A B : Type} (f : A -> M B) (l : list A) :
  Forall (fun x => advances (f x)) l -> advances (mapM f l).
Proof.
  induction 1 as [|x l Hx Hl IH]; intros pos ys pos' H; cbn [mapM] in H.
  - invert_run. lia.
  - invert_run. use Hx. use IH. lia.
Qed.

Lemma var_spans (item : Head) : spans hbs.head_span (var item).
Proof.
  intros pos node pos' H. unfold var in H.
  destruct item; invert_run; cbn; split; try reflexivity; lia.
Qed.

Lemma segment_advances (item : string) :
  advances
    (consume "." ;;
     spanned (consume item ;;
              ret (fun span => ret (hbs.MkPathSegment span item)))).
Proof. intros q s q' Hs. invert_run. lia. Qed.

Lemma segments_advances (items : option (list string)) :
  advances (segments items).
Proof.
  intros pos a pos' H. unfold segments in H.
  destruct items as [items|]; invert_run; [|lia].
  assert (Hall : advances
                   (mapM (fun item =>
                            consume "." ;;
                            spanned (consume item ;;
                                     ret (fun span =>
                                            ret (hbs.MkPathSegment span item))))
                      items)).
  { apply mapM_advances, Forall_forall. intros item _.
    apply segment_advances. }
  use Hall. lia.
Qed.

Lemma path_spans (expression : PathExpression) :
  spans hbs.path_span (path expression).
Proof.
  intros pos node pos' H. unfold path in H. invert_run.
  use var_spans. use segments_advances. cbn.
  split; [lia|reflexivity].
Qed.

Lemma expr_spans (expression : Expression) :
  spans hbs.expression_span (expr expression).
Proof.
  intros pos node pos' H. unfold expr in H.
  destruct expression; invert_run; cbn; try (split; [lia|reflexivity]).
  now use path_spans.
Qed.

Lemma exprs_advances (params : list Expression) : advances (exprs params).
Proof.
  apply mapM_advances, Forall_forall. intros e _.
  exact (spans_advances _ _ (expr_spans e)).
Qed.

(** The span of a hash pair is taken before its value is built. *)
Lemma hashPair_span (pair : HashPair) (pos : nat) (node : hbs.HashPair)
  (pos' : nat) :
  hashPair pair pos = Ok (node, pos') ->
  pos <= pos' /\
  hbs.pair_span node = hbs.MkSpan pos pos /\
  hbs.expression_span (hbs.pair_value node) = hbs.MkSpan pos pos'.
Proof.
  intros H. destruct pair as [key value]. unfold hashPair in H.
  invert_run. use expr_spans. cbn. intuition.
Qed.

Lemma hashPair_advances (pair : HashPair) : advances (hashPair pair).
Proof. intros pos a pos' H. now apply hashPair_span in H. Qed.

Lemma hash_advances (h : option Hash) : advances (hash h).
Proof.
  intros pos a pos' H. unfold hash in H.
  destruct h as [[pairs]|]; invert_run; [|lia].
  assert (Hall : advances (mapM hashPair pairs)).
  { apply mapM_advances, Forall_forall. intros pair _.
    apply hashPair_advances. }
  use Hall. lia.
Qed.

Lemma hash_spans (h : Hash) (pos : nat) (node : option hbs.Hash) (pos' : nat) :
  hash (Some h) pos = Ok (node, pos') ->
  exists h', node = Some h' /\ hbs.hash_span h' = hbs.MkSpan pos pos'.
Proof.
  intros H. unfold hash in H. destruct h as [pairs]. invert_run.
  eexists. split; reflexivity.
Qed.

(** *** Induction on descriptions: a program holds a list of statements *)

Section StatementInduction.

Variable P : Statement -> Prop.
Variable Q : Program -> Prop.

Hypothesis HMustache :
  forall call params hash trusted, P (MustacheStatement call params hash trusted).
Hypothesis HContentMustache : forall value, P (ContentMustache value).
Hypothesis HBlock :
  forall call params hash program inverse,
    Q program ->
    match inverse with Some i => Q i | None => True end ->
    P (BlockStatement call params hash program inverse).
Hypothesis HContent : forall value, P (ContentStatement value).
Hypothesis HComment : forall value, P (CommentStatement value).
Hypothesis HProgram :
  forall body blockParams, Forall P body -> Q (MkProgram body blockParams).

Fixpoint statement_program_ind (s : Statement) : P s :=
  match s with
  | MustacheStatement call params hash trusted =>
      HMustache call params hash trusted
  | ContentMustache value => HContentMustache value
  | BlockStatement call params hash program inverse =>
      HBlock call params hash program inverse
        (program_statement_ind program)
        match inverse
              return match inverse with Some i => Q i | None => True end
        with
        | Some i => program_statement_ind i
        | None => I
        end
  | ContentStatement value => HContent value
  | CommentStatement value => HComment value
  end
with program_statement_ind (p : Program) : Q p :=
  match p with
  | MkProgram body blockParams =>
      HProgram body blockParams
        ((fix all (l : list Statement) : Forall P l :=
            match l with
            | [] => Forall_nil P
            | x :: rest => Forall_cons x (statement_program_ind x) (all rest)
            end) body)
  end.

End StatementInduction.

Lemma visit_all_advances (body : list Statement) :
  Forall (fun s => spans hbs.statement_span (visit s)) body ->
  advances (mapM visit body).
Proof.
  intros H. apply mapM_advances. revert H. apply Forall_impl.
  intros s. apply spans_advances.
Qed.

Ltac split_cases :=
  repeat (match goal with
          | H : match ?x with _ => _ end _ = Ok _ |- _ => destruct x
          end; invert_run).

Lemma visit_spans_and_program :
  (forall s, spans hbs.statement_span (visit s)) /\
  (forall p, program_spans p).
Proof.
  assert (H : forall s, spans hbs.statement_span (visit s)).
  { apply (statement_program_ind
             (fun s => spans hbs.statement_span (visit s)) program_spans).
    - intros call params h trusted pos node pos' H. cbn [visit] in H.
      invert_run. use expr_spans. use exprs_advances. use hash_advances.
      cbn in *. split; [lia|reflexivity].
    - intros value pos node pos' H. cbn [visit] in H.
      invert_run. use expr_spans. cbn in *. split; [lia|reflexivity].
    - intros call params h prog inverse Hprog Hinv pos node pos' H.
      cbn [visit] in H. invert_run. split_cases; cbn in Hinv;
        use path_spans; use exprs_advances; use hash_advances;
        use Hprog; try use Hinv;
        cbn in *; (split; [lia|reflexivity]).
    - intros value pos node pos' H. cbn [visit] in H.
      invert_run. cbn. split; [lia|reflexivity].
    - intros value pos node pos' H. cbn [visit] in H. discriminate H.
    - intros body blockParams Hbody pos node pos' H.
      cbn [program] in H. invert_run.
      apply visit_all_advances in Hbody. use Hbody.
      split_cases; cbn in *; lia. }
  split; [exact H|].
  intros [body blockParams] pos node pos' Hp.
  cbn [program] in Hp. invert_run.
  assert (Hbody : advances (mapM visit body)).
  { apply visit_all_advances, Forall_forall. intros s _. apply H. }
  use Hbody. split_cases; cbn in *; lia.
Qed.

(** *** The cursor, [consume] and [spanned] *)

(** [consume] returns the span that starts at the cursor and is as long as
    the text, and leaves the cursor at its end. *)
Lemma consume_span (chars : string) (pos : nat) :
  consume chars pos =
    Ok (hbs.MkSpan pos (pos + String.length chars),
        pos + String.length chars).
Proof. reflexivity. Qed.

Lemma consume_span_length (chars : string) (pos : nat) (span : hbs.Span)
  (pos' : nat) :
  consume chars pos = Ok (span, pos') ->
  hbs.start span = pos /\ hbs.span_length span = String.length chars.
Proof.
  intros H. invert_run. unfold hbs.span_length. cbn. split; [reflexivity|lia].
Qed.

(** [spanned] hands the continuation the span between the cursor before and
    after the callback. *)
Lemma spanned_span {T : Type} (cb : M (hbs.Span -> M T)) (pos : nat)
  (next : hbs.Span -> M T) (pos' : nat) :
  cb pos = Ok (next, pos') ->
  spanned cb pos = next (hbs.MkSpan pos pos') pos'.
Proof. intros H. unfold spanned. now rewrite H. Qed.

(** The cursor never moves back, and the span of a statement node is as long
    as the text consumed for it. *)
Lemma visit_span_length (s : Statement) (pos : nat) (node : hbs.Statement)
  (pos' : nat) :
  visit s pos = Ok (node, pos') ->
  pos <= pos' /\ hbs.span_length (hbs.statement_span node) = pos' - pos.
Proof.
  intros H. apply (proj1 visit_spans_and_program) in H.
  destruct H as [Hle ->]. now split.
Qed.

Lemma build_spans (description : BuilderAst) :
  spans hbs.program_span (build description).
Proof.
  intros pos node pos' H. unfold build in H. invert_run.
  assert (Hbody : advances (mapM visit (body description))).
  { apply visit_all_advances, Forall_forall. intros s _.
    apply visit_spans_and_program. }
  use Hbody. cbn. split; [lia|reflexivity].
Qed.

(** *** Containment of spans *)

Lemma containsb_between (outer inner : hbs.Span) :
  hbs.start outer <= hbs.start inner ->
  hbs.end_ inner <= hbs.end_ outer ->
  hbs.containsb outer inner = true.
Proof.
  intros H1 H2. unfold hbs.containsb.
  apply andb_true_iff. split; now apply Nat.leb_le.
Qed.

Lemma forallb_pointwise {A : Type} (f g : A -> bool) (l : list A) :
  (forall x, f x = g x) -> forallb f l = forallb g l.
Proof.
  intros H. induction l as [|x l IH]; [reflexivity|].
  cbn. now rewrite H, IH.
Qed.

Lemma mapM_places {A B : Type} (f : A -> M B) (span_of : B -> hbs.Span)
  (check : B -> bool) (l : list A) :
  Forall (fun x => places span_of check (f x)) l ->
  forall pos nodes pos',
    mapM f l pos = Ok (nodes, pos') ->
    pos <= pos' /\
    forall outer,
      hbs.start outer <= pos -> pos' <= hbs.end_ outer ->
      forallb (fun node => hbs.containsb outer (span_of node) && check node)
        nodes = true.
Proof.
  induction 1 as [|x l Hx Hl IH]; intros pos nodes pos' H; cbn [mapM] in H.
  - invert_run. split; [lia|reflexivity].
  - invert_run.
    match goal with E : f x _ = Ok _ |- _ => apply Hx in E;
      destruct E as (Hle & Hs & He & Hc) end.
    match goal with E : mapM f l _ = Ok _ |- _ => apply IH in E;
      destruct E as (Hle' & Hrest) end.
    split; [lia|]. intros outer Ho Ho'. cbn [forallb].
    rewrite Hc, Hrest by lia.
    rewrite containsb_between by lia. reflexivity.
Qed.

Lemma spans_places {A : Type} (span_of : A -> hbs.Span) (check : A -> bool)
  (m : M A) :
  (forall pos node pos',
     m pos = Ok (node, pos') ->
     pos <= pos' /\ span_of node = hbs.MkSpan pos pos' /\ check node = true) ->
  places span_of check m.
Proof.
  intros H pos node pos' E. apply H in E. destruct E as (Hle & -> & Hc).
  cbn. repeat split; trivial.
Qed.

Lemma segment_places (item : string) :
  places hbs.segment_span (fun _ => true)
    (consume "." ;;
     spanned (consume item ;;
              ret (fun span => ret (hbs.MkPathSegment span item)))).
Proof.
  intros pos node pos' H. invert_run. cbn. repeat split; lia.
Qed.

Lemma path_nests (expression : PathExpression) (pos : nat)
  (node : hbs.PathExpression) (pos' : nat) :
  path expression pos = Ok (node, pos') ->
  pos <= pos' /\ hbs.path_span node = hbs.MkSpan pos pos' /\
  path_nested node = true.
Proof.
  intros H. unfold path in H. invert_run.
  match goal with E : var _ _ = Ok _ |- _ =>
    apply var_spans in E; destruct E as [Hv Hvs] end.
  match goal with E : segments _ _ = Ok _ |- _ => rename E into Hseg end.
  unfold segments in Hseg.
  destruct (tail expression) as [items|]; invert_run.
  - match goal with E : mapM _ _ _ = Ok _ |- _ =>
      eapply (mapM_places _ hbs.segment_span (fun _ => true)) in E;
      [destruct E as [Hle Hall]|] end.
    + cbn. split; [lia|]. split; [reflexivity|].
      rewrite Hvs. rewrite containsb_between by (cbn; lia). cbn [andb].
      match goal with
      | |- forallb (fun s => hbs.containsb ?sp _) _ = true =>
          rewrite <- (Hall sp) by (cbn; lia)
      end.
      apply forallb_pointwise. intros s. now rewrite andb_true_r.
    + apply Forall_forall. intros item _. apply segment_places.
  - cbn. split; [lia|]. split; [reflexivity|].
    rewrite Hvs. rewrite containsb_between by (cbn; lia). reflexivity.
Qed.

Lemma expr_nests (expression : Expression) (pos : nat)
  (node : hbs.Expression) (pos' : nat) :
  expr expression pos = Ok (node, pos') ->
  pos <= pos' /\ hbs.expression_span node = hbs.MkSpan pos pos' /\
  expression_nested node = true.
Proof.
  intros H. pose proof (expr_spans expression pos node pos' H) as [Hle Hs].
  split; [exact Hle|]. split; [exact Hs|].
  unfold expr in H. destruct expression; invert_run; try reflexivity.
  match goal with E : path _ _ = Ok _ |- _ => apply path_nests in E end.
  cbn. tauto.
Qed.

Lemma exprs_nest (params : list Expression) (pos : nat)
  (nodes : list hbs.Expression) (pos' : nat) :
  exprs params pos = Ok (nodes, pos') ->
  pos <= pos' /\
  forall outer,
    hbs.start outer <= pos -> pos' <= hbs.end_ outer ->
    expressions_nested outer nodes = true.
Proof.
  apply mapM_places, Forall_forall. intros e _.
  apply spans_places, expr_nests.
Qed.

Lemma hashPair_places (pair : HashPair) :
  places hbs.pair_span (pair_nested false) (hashPair pair).
Proof.
  intros pos node pos' H. destruct pair as [key value].
  unfold hashPair in H. invert_run.
  match goal with E : expr _ _ = Ok _ |- _ =>
    apply expr_nests in E; destruct E as (Hle & Hs & Hn) end.
  cbn. repeat split; trivial.
Qed.

Lemma hash_nests (h : option Hash) (pos : nat) (node : option hbs.Hash)
  (pos' : nat) :
  hash h pos = Ok (node, pos') ->
  pos <= pos' /\
  forall outer,
    hbs.start outer <= pos -> pos' <= hbs.end_ outer ->
    optional_hash_nested false outer node = true.
Proof.
  intros H. unfold hash in H. destruct h as [[pairs]|]; invert_run.
  - match goal with E : mapM _ _ _ = Ok _ |- _ =>
      eapply (mapM_places _ hbs.pair_span (pair_nested false)) in E;
      [destruct E as [Hle Hall]|] end.
    + split; [lia|]. intros outer Ho Ho'. cbn.
      rewrite containsb_between by (cbn; lia). cbn [andb].
      apply Hall; cbn; lia.
    + apply Forall_forall. intros pair _. apply hashPair_places.
  - split; [lia|reflexivity].
Qed.

Ltac collect :=
  repeat match goal with
    | E : path _ _ = Ok _ |- _ =>
        apply path_nests in E; destruct E as (? & ? & ?)
    | E : expr _ _ = Ok _ |- _ =>
        apply expr_nests in E; destruct E as (? & ? & ?)
    | E : exprs _ _ = Ok _ |- _ =>
        apply exprs_nest in E; destruct E as (? & ?)
    | E : hash _ _ = Ok _ |- _ =>
        apply hash_nests in E; destruct E as (? & ?)
    end.

Ltac nested :=
  cbn in *;
  repeat match goal with
    | H : _ = hbs.MkSpan _ _ |- _ => rewrite H
    | H : _ = true |- _ => rewrite H
    | H : forall outer, _ -> _ -> _ = true |- _ =>
        rewrite H by (cbn; lia)
    | |- context [hbs.containsb _ _] =>
        rewrite containsb_between by (cbn; lia)
    end;
  cbn; try reflexivity.

Lemma visit_all_nests (body : list Statement) :
  Forall statement_nests body ->
  forall pos nodes pos',
    mapM visit body pos = Ok (nodes, pos') ->
    pos <= pos' /\
    forall outer,
      hbs.start outer <= pos -> pos' <= hbs.end_ outer ->
      forallb (fun node =>
                 hbs.containsb outer (hbs.statement_span node) &&
                 statement_nested false node) nodes = true.
Proof.
  intros H. apply mapM_places. revert H. apply Forall_impl.
  intros s Hs. now apply spans_places.
Qed.

Lemma statements_nest :
  (forall s, statement_nests s) /\ (forall p, program_nests p).
Proof.
  assert (Hprogram : forall body blockParams,
             Forall statement_nests body ->
             program_nests (MkProgram body blockParams)).
  { intros body blockParams Hbody pos node pos' H.
    cbn [program] in H. invert_run.
    match goal with E : mapM visit _ _ = Ok _ |- _ =>
      apply (visit_all_nests body Hbody) in E; destruct E as [Hle Hall] end.
    split_cases; cbn in *;
      (split; [lia|]; split; [lia|]; split; [reflexivity|]);
      apply Hall; cbn; lia. }
  assert (H : forall s, statement_nests s).
  { apply (statement_program_ind statement_nests program_nests).
    - intros call params h trusted pos node pos' H. cbn [visit] in H.
      invert_run. collect.
      split; [cbn in *; lia|]. split; [reflexivity|]. nested.
    - intros value pos node pos' H. cbn [visit] in H.
      invert_run. collect.
      split; [cbn in *; lia|]. split; [reflexivity|]. nested.
    - intros call params h prog inverse Hprog Hinv pos node pos' H.
      cbn [visit] in H. invert_run. split_cases; cbn in Hinv; collect;
        repeat match goal with
          | E : program _ _ = Ok _ |- _ =>
              first [apply Hprog in E | apply Hinv in E];
              destruct E as (? & ? & ? & ?)
          end;
        (split; [cbn in *; lia|]; split; [reflexivity|]; nested).
    - intros value pos node pos' H. cbn [visit] in H.
      invert_run. cbn. repeat split; lia.
    - intros value pos node pos' H. cbn [visit] in H. discriminate H.
    - exact Hprogram. }
  split; [exact H|].
  intros [body blockParams]. apply Hprogram, Forall_forall. intros s _.
  apply H.
Qed.

(** But for hash pairs and their values, every node of a tree that [build]
    returns has the spans of the nodes it holds within its own. *)
Lemma build_nested_but_for_hash_pairs (description : BuilderAst) (pos : nat)
  (node : hbs.Program) (pos' : nat) :
  build description pos = Ok (node, pos') ->
  program_nested false node = true.
Proof.
  intros H. unfold build in H. invert_run.
  match goal with E : mapM visit _ _ = Ok _ |- _ =>
    apply visit_all_nests in E;
    [destruct E as [Hle Hall]|apply Forall_forall; intros s _;
                               apply statements_nest] end.
  cbn. apply Hall; cbn; lia.
Qed.

(** *** The hash pair *)

(** C3.  The code breaks the claim: in the tree built for [hashedMustache]
    the span of the hash pair is the empty span at offset 3, and the span of
    its value, which is a child of the pair, is offsets 3 to 7: the span of
    the child is not within the span of its parent.  It is the only place of
    the tree where containment fails. *)
Theorem build_hash_pair_does_not_contain_its_value :
  exists pair tree,
    tree =
      hbs.MkProgram (hbs.MkSpan 0 9)
        [hbs.MustacheStatement (hbs.MkSpan 0 9)
           (hbs.Path
              (hbs.MkPathExpression (hbs.MkSpan 2 3)
                 (hbs.LocalReference (hbs.MkSpan 2 3) "x") None))
           [] (Some (hbs.MkHash (hbs.MkSpan 3 7) [pair])) false NO_STRIP]
        None /\
    run (build hashedMustache) = Ok tree /\
    hbs.pair_span pair = hbs.MkSpan 3 3 /\
    hbs.expression_span (hbs.pair_value pair) = hbs.MkSpan 3 7 /\
    hbs.containsb (hbs.pair_span pair)
      (hbs.expression_span (hbs.pair_value pair)) = false /\
    program_nested true tree = false /\
    program_nested false tree = true.
Proof.
  eexists. eexists. split; [reflexivity|].
  split; [vm_compute; reflexivity|].
  split; [reflexivity|]. split; [reflexivity|].
  split; [reflexivity|]. split; reflexivity.
Qed.

(** C10.  The code breaks the last part of the claim: building the hash pair
    [a=true] with the cursor at 3 consumes the four characters of [true] and
    leaves the cursor at 7, and the span of the pair node has length 0. *)
Theorem hashPair_span_shorter_than_consumed :
  exists node pos',
    hashPair (MkHashPair "a" (literal (PBoolean true))) 3 = Ok (node, pos') /\
    pos' - 3 = 4 /\
    hbs.span_length (hbs.pair_span node) = 0.
Proof.
  eexists. eexists. split; [vm_compute; reflexivity|].
  split; reflexivity.
Qed.

End BuilderFacts.

(** ** Path expressions *)

Module PathFacts.

Import JsString HandlebarsNodeVisitors Spec.

Lemma strip_prefix_Some (pre s rest : string) :
  strip_prefix pre s = Some rest <-> s = pre ++ rest.
Proof.
  revert s. induction pre as [|a pre IH]; intros s; cbn [strip_prefix append].
  - split; [now intros [= ->]|now intros ->].
  - destruct s as [|b s]; [split; discriminate|].
    destruct (Ascii.eqb_spec a b) as [->|Hab].
    + rewrite IH. split; [now intros ->|now intros [= ->]].
    + split; [discriminate|]. intros [= E _]. now elim Hab.
Qed.

(** The texts the regular expression accepts. *)
Lemma matches_this_iff (s : string) :
  matches_this s = true <->
  s = "this" \/
  exists rest,
    s = "this." ++ rest /\ rest <> EmptyString /\
    no_line_terminator rest = true.
Proof.
  unfold matches_this. split.
  - destruct (strip_prefix "this" s) as [[|c rest]|] eqn:E; try discriminate.
    + apply strip_prefix_Some in E. now left.
    + apply strip_prefix_Some in E. intros H.
      apply andb_true_iff in H. destruct H as [Hc Hrest].
      apply Ascii.eqb_eq in Hc. subst c. right. exists rest.
      destruct rest as [|d rest]; [discriminate|].
      repeat split; [exact E|discriminate|exact Hrest].
  - intros [->|(rest & -> & Hne & Hnl)]; [reflexivity|].
    destruct rest as [|d rest]; [congruence|].
    cbn. exact Hnl.
Qed.

Lemma starts_with_at_not_this (s : string) :
  starts_with_at s = true -> matches_this s = false.
Proof.
  destruct s as [|c s]; [discriminate|]. cbn [starts_with_at].
  intros H. apply Ascii.eqb_eq in H. subst c. reflexivity.
Qed.

Lemma contains_char_app (c : ascii) (s t : string) :
  contains_char c (s ++ t) = contains_char c s || contains_char c t.
Proof.
  induction s as [|a s IH]; [reflexivity|].
  cbn [append contains_char]. now destruct (Ascii.eqb a c).
Qed.

(** Joining segments with a slash only gives [this] for the one segment
    [this]. *)
Lemma join_slash_this (parts : list string) :
  join "/" parts = "this" -> parts = ["this"].
Proof.
  destruct parts as [|p [|q rest]]; cbn [join].
  - discriminate.
  - now intros ->.
  - intros H. apply (f_equal (contains_char "/"%char)) in H.
    rewrite !contains_char_app in H. cbn in H.
    rewrite orb_true_r in H. discriminate.
Qed.

Lemma path_segments_without_this (original : string) (parts : list string) :
  ~ In "this" parts -> ~ In "this" (path_segments original parts).
Proof.
  unfold path_segments. intros H.
  destruct (contains_char "/"%char original); [|exact H].
  intros [E|[]]. apply join_slash_this in E. subst parts. apply H. now left.
Qed.

(** C4 (as amended).  When the original text is [this], or [this.] followed
    by at least one character none of which is a line terminator, the head is
    [ThisHead]; its span starts where the path starts and ends 4 columns to
    the right on the same line.  The tail is made of the segments of the CST
    node, all of them: they are the tail as they are when the text has no
    slash, and the tail is the one segment made of them joined with slashes
    when it has one.  No segment is taken off for the head and none is
    added, so the tail holds no [this] when the CST segments hold none, and
    a segment [this] of the CST is still in the tail of a text without a
    slash. *)
Theorem PathExpression_this_head (original : string) (parts : list string)
  (data : bool) (loc : HBS.SourceLocation) :
  (original = "this" \/
   exists rest,
     original = "this." ++ rest /\ rest <> EmptyString /\
     no_line_terminator rest = true) ->
  exists span tail,
    PathExpression original parts data loc =
      Ok (ASTv1.PathExpression original (ASTv1.ThisHead span) tail
            (ASTv1.spanFor loc)) /\
    HBS.start span = HBS.start loc /\
    HBS.line (HBS.end_ span) = HBS.line (HBS.start loc) /\
    HBS.column (HBS.end_ span) = HBS.column (HBS.start loc) + 4 /\
    (contains_char "/"%char original = false -> tail = parts) /\
    (contains_char "/"%char original = true -> tail = [join "/" parts]) /\
    (~ In "this" parts -> ~ In "this" tail).
Proof.
  intros H. apply matches_this_iff in H.
  exists (head_loc loc 4), (path_segments original parts).
  unfold PathExpression. rewrite H.
  split; [reflexivity|]. split; [reflexivity|]. split; [reflexivity|].
  split; [reflexivity|]. unfold path_segments.
  split; [|split].
  - now intros ->.
  - now intros ->.
  - apply path_segments_without_this.
Qed.

Lemma PathExpression_this_head_witness :
  (exists span,
     PathExpression "this.foo" ["foo"] false Demo.fooLoc =
       Ok (ASTv1.PathExpression "this.foo" (ASTv1.ThisHead span) ["foo"]
             Demo.fooLoc) /\
     HBS.column (HBS.end_ span) = 6) /\
  (exists span,
     PathExpression "this.foo/bar" ["foo"; "bar"] false Demo.stringLoc =
       Ok (ASTv1.PathExpression "this.foo/bar" (ASTv1.ThisHead span)
             ["foo/bar"] Demo.stringLoc)).
Proof.
  split.
  - destruct (PathExpression_this_head "this.foo" ["foo"] false Demo.fooLoc)
      as (span & tail & E & _ & _ & Hc & Htail & _).
    + right. exists "foo".
      split; [reflexivity|]. split; [discriminate|reflexivity].
    + exists span. rewrite (Htail eq_refl) in E. split; [exact E|exact Hc].
  - destruct (PathExpression_this_head "this.foo/bar" ["foo"; "bar"] false
                Demo.stringLoc)
      as (span & tail & E & _ & _ & _ & _ & Htail & _).
    + right. exists "foo/bar".
      split; [reflexivity|]. split; [discriminate|reflexivity].
    + exists span. rewrite (Htail eq_refl) in E. exact E.
Defined.

(** C4 (as stated) fails: the head does not absorb a segment [this].  The
    CST of [{{[this].x}}], where [this] is written as a literal segment, has
    the original text [this.x], which begins with [this.], and the two
    segments [this] and [x]; its head is the [this] head, and the segment
    [this] is the first segment of its tail. *)
Lemma PathExpression_keeps_this_in_tail :
  exists tail,
    prefix "this." Demo.literalThisText = true /\
    PathExpression Demo.literalThisText Demo.literalThisParts false
      Demo.literalThisLoc =
      Ok (ASTv1.PathExpression Demo.literalThisText
            (ASTv1.ThisHead (head_loc Demo.literalThisLoc 4)) tail
            Demo.literalThisLoc) /\
    tail = ["this"; "x"] /\
    In "this" tail.
Proof.
  eexists. split; [reflexivity|]. split; [reflexivity|].
  split; [reflexivity|]. now left.
Qed.

(** C8.  A path written with the sigil [@], whose flag [data] is set: without
    a first segment the visit throws a syntax error at the path; otherwise
    the head is the [@] head named after the first segment, and its span
    starts where the path starts and ends, on the same line, as many columns
    to the right as the first segment is long plus one. *)
Theorem PathExpression_at_head (original : string) (parts : list string)
  (loc : HBS.SourceLocation) :
  starts_with_at original = true ->
  match path_segments original parts with
  | [] =>
      PathExpression original parts true loc =
        Throw (SyntaxError invalidAtPath (ASTv1.spanFor loc))
  | first :: rest =>
      exists span,
        PathExpression original parts true loc =
          Ok (ASTv1.PathExpression original
                (ASTv1.AtHead ("@" ++ first) span) rest (ASTv1.spanFor loc)) /\
        HBS.start span = HBS.start loc /\
        HBS.line (HBS.end_ span) = HBS.line (HBS.start loc) /\
        HBS.column (HBS.end_ span) =
          HBS.column (HBS.start loc) + (String.length first + 1)
  end.
Proof.
  intros H. apply starts_with_at_not_this in H.
  unfold PathExpression. rewrite H.
  destruct (path_segments original parts) as [|first rest]; [reflexivity|].
  exists (head_loc loc (String.length first + 1)). repeat split.
Qed.

Lemma PathExpression_at_head_witness :
  (exists span,
     PathExpression "@bar.baz" ["bar"; "baz"] true Demo.fooLoc =
       Ok (ASTv1.PathExpression "@bar.baz" (ASTv1.AtHead "@bar" span) ["baz"]
             Demo.fooLoc) /\
     HBS.column (HBS.end_ span) = 6) /\
  PathExpression "@" [] true Demo.fooLoc =
    Throw (SyntaxError invalidAtPath Demo.fooLoc).
Proof.
  split.
  - destruct (PathExpression_at_head "@bar.baz" ["bar"; "baz"] Demo.fooLoc eq_refl)
      as (span & E & _ & _ & Hc).
    exists span. split; [exact E|exact Hc].
  - exact (PathExpression_at_head "@" [] Demo.fooLoc eq_refl).
Defined.

(** The bare [@] is the only way to have no first segment. *)
Lemma path_segments_nil (original : string) (parts : list string) :
  path_segments original parts = [] <->
  parts = [] /\ contains_char "/"%char original = false.
Proof.
  unfold path_segments.
  destruct (contains_char "/"%char original); split.
  - discriminate.
  - intros [_ H]. discriminate.
  - now split.
  - now intros [-> _].
Qed.

(** C9 (as amended).  A path described with the builder's [path] or
    [atPath] has the pieces of the text after the first as its tail, in
    order, and no tail ([null]) when there is no such piece; the tail is
    never an empty sequence.  A path resolved by the translator has the
    segments that remain after the head as its tail, in order (all the
    segments under a [this] head); the tail is then a sequence, empty when no
    segment remains. *)
Theorem path_tail_of_remaining_segments :
  (forall text : string,
     exists first,
       match Builder.tail (Builder.path text) with
       | None => split "." text = [first]
       | Some rest => rest <> [] /\ split "." text = first :: rest
       end) /\
  (forall text : string,
     exists first,
       match Builder.tail (Builder.atPath text) with
       | None => split "." text = [first]
       | Some rest => rest <> [] /\ split "." text = first :: rest
       end) /\
  (forall original parts data loc e,
     PathExpression original parts data loc = Ok e ->
     exists head,
       e = ASTv1.PathExpression original head
             (translated_tail original parts) (ASTv1.spanFor loc)).
Proof.
  split; [|split].
  - intros text. unfold Builder.path. cbn [Builder.tail].
    pose proof (JsStringFacts.split_from_nonempty "." text 0) as Hne.
    fold (split "." text) in Hne.
    destruct (split "." text) as [|first [|second rest]]; [congruence| |].
    + now exists first.
    + exists first. split; [discriminate|reflexivity].
  - intros text. unfold Builder.atPath. cbn [Builder.tail].
    pose proof (JsStringFacts.split_from_nonempty "." text 0) as Hne.
    fold (split "." text) in Hne.
    destruct (split "." text) as [|first [|second rest]]; [congruence| |].
    + now exists first.
    + exists first. split; [discriminate|reflexivity].
  - intros original parts data loc e. unfold PathExpression, translated_tail.
    destruct (matches_this original).
    + intros [= <-]. eexists. reflexivity.
    + destruct data, (path_segments original parts) as [|first rest];
        try discriminate; intros [= <-]; eexists; reflexivity.
Qed.

Lemma path_tail_of_remaining_segments_witness :
  (exists head,
     ASTv1.PathExpression "a.b.c" (ASTv1.VarHead (Some "a") (head_loc Demo.fooLoc 1))
       ["b"; "c"] Demo.fooLoc =
     ASTv1.PathExpression "a.b.c" head
       (translated_tail "a.b.c" ["a"; "b"; "c"]) Demo.fooLoc) /\
  Builder.tail (Builder.path "foo") = None.
Proof.
  split.
  - exact (proj2 (proj2 path_tail_of_remaining_segments) "a.b.c"
             ["a"; "b"; "c"] false Demo.fooLoc _ eq_refl).
  - reflexivity.
Defined.

(** C9 (as stated) fails for the translator: the path [foo] has no segment
    after its head, and its tail is the empty sequence. *)
Lemma PathExpression_tail_is_an_empty_sequence :
  PathExpression "foo" ["foo"] false Demo.fooLoc =
    Ok (ASTv1.PathExpression "foo"
          (ASTv1.VarHead (Some "foo") (head_loc Demo.fooLoc 3)) [] Demo.fooLoc).
Proof. reflexivity. Qed.

End PathFacts.

(** ** Call nodes and mustaches *)

Module CallFacts.

Import HandlebarsNodeVisitors.

Lemma bindR_ok {A B : Type} (m : R A) (k : A -> R B) (b : B) :
  bindR m k = Ok b -> exists a, m = Ok a /\ k a = Ok b.
Proof. destruct m as [a|e]; [|discriminate]. intros H. now exists a. Qed.

(** A translated expression keeps the location of the CST node. *)
Lemma acceptNode_loc (e : HBS.Expression) (e' : ASTv1.Expression) :
  acceptNode e = Ok e' -> ASTv1.expression_loc e' = HBS.expression_loc e.
Proof.
  destruct e; cbn [acceptNode HBS.expression_loc].
  - unfold PathExpression.
    destruct (JsString.matches_this original);
      [|destruct data, (path_segments original parts)];
      try discriminate; now intros [= <-].
  - intros H. apply bindR_ok in H. destruct H as ([[p ps] h] & _ & H).
    now injection H as <-.
  - now intros [= <-].
  - now intros [= <-].
  - now intros [= <-].
  - now intros [= <-].
  - now intros [= <-].
Qed.

Lemma mapR_last (l : list HBS.Expression) (ys : list ASTv1.Expression)
  (d : HBS.Expression) (d' : ASTv1.Expression) :
  mapR acceptNode l = Ok ys ->
  ASTv1.expression_loc d' = HBS.expression_loc d ->
  ASTv1.expression_loc (List.last ys d') = HBS.expression_loc (List.last l d).
Proof.
  intros H Hd. revert ys H.
  induction l as [|x l IH]; intros ys H; cbn [mapR] in H.
  - injection H as <-. exact Hd.
  - apply bindR_ok in H. destruct H as (y & Hy & H).
    apply bindR_ok in H. destruct H as (ys' & Hys & H).
    injection H as <-. specialize (IH ys' Hys).
    destruct l as [|x' l].
    + cbn [mapR] in Hys. injection Hys as <-. cbn. now apply acceptNode_loc.
    + cbn [mapR] in Hys.
      apply bindR_ok in Hys. destruct Hys as (y' & _ & Hys).
      apply bindR_ok in Hys. destruct Hys as (ys'' & _ & Hys).
      injection Hys as <-. exact IH.
Qed.

Lemma mapR_length {A B : Type} (f : A -> R B) (l : list A) (ys : list B) :
  mapR f l = Ok ys -> List.length ys = List.length l.
Proof.
  revert ys. induction l as [|x l IH]; intros ys H; cbn [mapR] in H.
  - now injection H as <-.
  - apply bindR_ok in H. destruct H as (y & _ & H).
    apply bindR_ok in H. destruct H as (ys' & Hys & H).
    injection H as <-. cbn. now rewrite (IH ys' Hys).
Qed.

(** The hash resolved for a call node that has none in the CST. *)
Lemma acceptCallNodes_default_hash (path : HBS.Expression)
  (params : list HBS.Expression) (path' : ASTv1.Expression)
  (params' : list ASTv1.Expression) (hash' : ASTv1.Hash) :
  acceptCallNodes path params None = Ok (path', params', hash') ->
  hash' =
    ASTv1.MkHash []
      (ASTv1.collapse_end (ASTv1.expression_loc (List.last params' path'))) /\
  ASTv1.expression_loc (List.last params' path') =
    HBS.expression_loc (List.last params path) /\
  List.length params' = List.length params.
Proof.
  unfold acceptCallNodes, acceptCallNodes_with. intros H.
  apply bindR_ok in H. destruct H as (p & Hp & H).
  apply bindR_ok in H. destruct H as (ps & Hps & H).
  cbn [bindR] in H. injection H as <- <- <-.
  assert (E : match ps with
              | [] => ASTv1.expression_loc p
              | _ :: _ => ASTv1.expression_loc (List.last ps p)
              end = ASTv1.expression_loc (List.last ps p))
    by now destruct ps.
  rewrite E. unfold ASTv1.spanFor.
  split; [reflexivity|]. split.
  - exact (mapR_last params ps path p Hps (acceptNode_loc path p Hp)).
  - exact (mapR_length _ _ _ Hps).
Qed.

(** C5.  When the CST of a call node carries no hash, the hash that
    [acceptCallNodes] resolves has no pair, and its span is the end of the
    span of the last resolved positional parameter, or of the resolved call
    path when there is no parameter: a span of no width, at the end of the
    location of the last parameter (or of the path) in the CST. *)
Theorem acceptCallNodes_without_hash (path : HBS.Expression)
  (params : list HBS.Expression) (path' : ASTv1.Expression)
  (params' : list ASTv1.Expression) (hash' : ASTv1.Hash) :
  acceptCallNodes path params None = Ok (path', params', hash') ->
  ASTv1.hash_pairs hash' = [] /\
  ASTv1.hash_loc hash' =
    ASTv1.collapse_end (ASTv1.expression_loc (List.last params' path')) /\
  List.length params' = List.length params /\
  HBS.start (ASTv1.hash_loc hash') =
    HBS.end_ (HBS.expression_loc (List.last params path)) /\
  HBS.end_ (ASTv1.hash_loc hash') =
    HBS.end_ (HBS.expression_loc (List.last params path)).
Proof.
  intros H. apply acceptCallNodes_default_hash in H.
  destruct H as (-> & Hloc & Hlen).
  cbn [ASTv1.hash_pairs ASTv1.hash_loc]. rewrite Hloc.
  split; [reflexivity|]. split; [reflexivity|]. split; [exact Hlen|].
  split; reflexivity.
Qed.

(** [{{helper arg1}}] *)
Lemma acceptCallNodes_without_hash_witness :
  exists path' params' hash',
    acceptCallNodes (HBS.PathExpression "helper" ["helper"] false Demo.helperLoc)
      [HBS.PathExpression "arg1" ["arg1"] false Demo.arg1Loc] None =
      Ok (path', params', hash') /\
    ASTv1.hash_pairs hash' = [] /\
    HBS.start (ASTv1.hash_loc hash') = HBS.MkPosition 1 13 /\
    HBS.end_ (ASTv1.hash_loc hash') = HBS.MkPosition 1 13.
Proof.
  eexists. eexists. eexists.
  split; [reflexivity|].
  pose proof (acceptCallNodes_without_hash
                (HBS.PathExpression "helper" ["helper"] false Demo.helperLoc)
                [HBS.PathExpression "arg1" ["arg1"] false Demo.arg1Loc]
                _ _ _ eq_refl) as (Hp & _ & _ & Hs & He).
  split; [exact Hp|]. split; [exact Hs|exact He].
Defined.

(** The hash of a sub-expression without one. *)
Lemma SubExpression_without_hash (path : HBS.Expression)
  (params : list HBS.Expression) (loc : HBS.SourceLocation)
  (e : ASTv1.Expression) :
  SubExpression path params None loc = Ok e ->
  exists path' params',
    e = ASTv1.SubExpression path' params'
          (ASTv1.MkHash []
             (ASTv1.collapse_end
                (HBS.expression_loc (List.last params path))))
          (ASTv1.spanFor loc).
Proof.
  unfold SubExpression. cbn [acceptNode]. intros H.
  apply bindR_ok in H. destruct H as ([[p ps] h] & Hcall & H).
  injection H as <-.
  destruct (acceptCallNodes_default_hash path params p ps h Hcall)
    as (-> & Hloc & _).
  exists p, ps. now rewrite Hloc.
Qed.

Section Mustaches.

Context {collaborators : Collaborators}.

Lemma isHBSLiteral_acceptNode (path : HBS.Expression) :
  isHBSLiteral path = true ->
  exists literal,
    acceptNode path = Ok literal /\
    ASTv1.isLiteral literal = true /\
    ASTv1.expression_loc literal = HBS.expression_loc path.
Proof.
  destruct path; try discriminate; intros _; eexists;
    (split; [reflexivity|split; reflexivity]).
Qed.

(** The hash of a mustache that calls a path or a sub-expression and has no
    hash in the CST. *)
Lemma buildMustache_without_hash (type : ASTv1.MustacheType)
  (path : HBS.Expression) (params : list HBS.Expression) (escaped : bool)
  (strip : HBS.StripFlags) (loc : HBS.SourceLocation)
  (node : ASTv1.Statement) :
  isHBSLiteral path = false ->
  buildMustache type path params None escaped strip loc = Ok node ->
  exists path' params',
    node =
      ASTv1.MustacheStatement type path' params'
        (ASTv1.MkHash []
           (ASTv1.collapse_end
              (HBS.expression_loc (List.last params path))))
        (negb escaped) (ASTv1.spanFor loc) strip.
Proof.
  intros Hlit. unfold buildMustache. rewrite Hlit. intros H.
  apply bindR_ok in H. destruct H as ([[p' ps] h] & Hcall & H).
  injection H as <-.
  destruct (acceptCallNodes_default_hash path params p' ps h Hcall)
    as (-> & Hloc & _).
  exists p', ps. now rewrite Hloc.
Qed.

(** Inside an HTML comment a mustache only adds its source text to the
    comment. *)
Lemma MustacheStatement_in_comment (path : HBS.Expression)
  (params : list HBS.Expression) (hash : option HBS.Hash) (escaped : bool)
  (strip : HBS.StripFlags) (loc : HBS.SourceLocation) (p : Parser.t) :
  Parser.state (Parser.tokenizer p) = Parser.comment ->
  MustacheStatement path params hash escaped strip loc p =
    (appendToCommentData (sourceForNode loc) ;; ret None) p.
Proof.
  intros H. unfold MustacheStatement, MustacheStatement_as.
  unfold bind at 1, gets. now rewrite H.
Qed.

(** C6 (as amended).  For a mustache whose call target is a literal, outside
    of an HTML comment, the translator builds a [MustacheStatement] node,
    the node every mustache becomes: its call target is the translated
    literal, it has no parameter (those of the CST are left out), it is
    trusting when the mustache is not escaped, and its hash has no pair and
    is the end of the span of the literal.  This node is then injected and
    returned. *)
Theorem MustacheStatement_of_literal (path : HBS.Expression)
  (params : list HBS.Expression) (hash : option HBS.Hash) (escaped : bool)
  (strip : HBS.StripFlags) (loc : HBS.SourceLocation) (p : Parser.t) :
  isHBSLiteral path = true ->
  Parser.state (Parser.tokenizer p) <> Parser.comment ->
  exists literal,
    acceptNode path = Ok literal /\
    ASTv1.isLiteral literal = true /\
    let node :=
      ASTv1.MustacheStatement ASTv1.MustacheStatementType literal []
        (ASTv1.MkHash []
           (ASTv1.collapse_end (ASTv1.spanFor (HBS.expression_loc path))))
        (negb escaped) (ASTv1.spanFor loc) strip in
    ASTv1.node_type node = "MustacheStatement" /\
    MustacheStatement path params hash escaped strip loc p =
      (_injectStatement node ;; ret (Some node)) p.
Proof.
  intros Hlit Hstate.
  destruct (isHBSLiteral_acceptNode path Hlit) as (literal & Ha & Hl & _).
  exists literal. split; [exact Ha|]. split; [exact Hl|].
  cbv zeta. split; [reflexivity|].
  unfold MustacheStatement, MustacheStatement_as, buildMustache.
  rewrite Hlit, Ha. unfold bind at 1, gets.
  destruct (Parser.state (Parser.tokenizer p)); try reflexivity.
  now elim Hstate.
Qed.

End Mustaches.

Lemma MustacheStatement_of_literal_witness :
  MustacheStatement (collaborators := Demo.demo)
    (HBS.StringLiteral "a string" Demo.stringLoc) [] None true Demo.noStrip
    Demo.mustacheLoc Demo.inTemplate =
  (_injectStatement (collaborators := Demo.demo) Demo.stringMustache ;;
   ret (Some Demo.stringMustache)) Demo.inTemplate.
Proof.
  destruct (MustacheStatement_of_literal (collaborators := Demo.demo)
              (HBS.StringLiteral "a string" Demo.stringLoc) [] None true
              Demo.noStrip Demo.mustacheLoc Demo.inTemplate eq_refl)
    as (literal & Ha & _ & _ & H).
  - discriminate.
  - injection Ha as <-. exact H.
Defined.

(** C6 (as stated) fails: the node built for [{{"a string"}}] is a
    [MustacheStatement], with the literal as its call target, and not a
    [ContentMustache]. *)
Lemma literal_mustache_is_a_MustacheStatement :
  MustacheStatement (collaborators := Demo.demo)
    (HBS.StringLiteral "a string" Demo.stringLoc) [] None true Demo.noStrip
    Demo.mustacheLoc Demo.inTemplate =
  Ok (Some Demo.stringMustache,
      Parser.with_stack
        [Parser.BodyParent 0
           (ASTv1.Template [Demo.stringMustache] [] Demo.origin)]
        Demo.inTemplate) /\
  ASTv1.node_type Demo.stringMustache = "MustacheStatement" /\
  ASTv1.node_type Demo.stringMustache <> "ContentMustache".
Proof.
  split; [reflexivity|]. split; [reflexivity|discriminate].
Qed.

End CallFacts.

(** ** Injection of dynamic nodes *)

Module InjectFacts.

Import HandlebarsNodeVisitors Spec.

(** What the three destinations do to the parser. *)
Lemma pushModifier_appends (node : ASTv1.Statement) (p p' : Parser.t) :
  pushModifier node p = Ok (tt, p') ->
  exists tag tag',
    Parser.currentStartTag p = Some tag /\
    Parser.currentStartTag p' = Some tag' /\
    Parser.modifiers tag' = (Parser.modifiers tag ++ [node])%list /\
    Parser.elementStack p' = Parser.elementStack p /\
    Parser.currentAttr p' = Parser.currentAttr p.
Proof.
  unfold pushModifier.
  destruct (Parser.currentStartTag p) as [[name attrs mods cmts sc loc]|] eqn:E;
    [|discriminate].
  intros [= <-]. eexists. eexists. repeat split.
Qed.

Lemma appendDynamicAttributeValuePart_appends (node : ASTv1.Statement)
  (p p' : Parser.t) :
  appendDynamicAttributeValuePart node p = Ok (tt, p') ->
  exists attr attr',
    Parser.currentAttr p = Some attr /\
    Parser.currentAttr p' = Some attr' /\
    Parser.parts attr' =
      (Parser.parts attr
       ++ match Parser.currentPart attr with
          | Some text => [text]
          | None => []
          end ++ [node])%list /\
    Parser.currentPart attr' = None /\
    Parser.isDynamic attr' = true /\
    Parser.elementStack p' = Parser.elementStack p /\
    Parser.currentStartTag p' = Parser.currentStartTag p.
Proof.
  unfold appendDynamicAttributeValuePart.
  destruct (Parser.currentAttr p) as [attr|] eqn:E; [|discriminate].
  intros [= <-]. exists attr. eexists. split; [reflexivity|].
  split; [reflexivity|]. unfold finalizeTextPart.
  destruct attr as [name parts [text|] quoted dynamic]; cbn;
    rewrite <- ?app_assoc; repeat split.
Qed.

Lemma appendToCurrentElement_appends (node : ASTv1.Statement)
  (p p' : Parser.t) :
  appendToCurrentElement node p = Ok (tt, p') ->
  exists top rest,
    Parser.elementStack p = top :: rest /\
    Parser.elementStack p' = appendChild top node :: rest /\
    Parser.currentStartTag p' = Parser.currentStartTag p /\
    Parser.currentAttr p' = Parser.currentAttr p.
Proof.
  unfold appendToCurrentElement.
  destruct (Parser.elementStack p) as [|top rest] eqn:E; [discriminate|].
  intros [= <-]. exists top, rest. repeat split.
Qed.

Lemma bind_gets {A B : Type} (f : Parser.t -> A) (k : A -> V B)
  (p : Parser.t) :
  bind (gets f) k p = k (f p) p.
Proof. reflexivity. Qed.

Lemma pushModifier_returns (node : ASTv1.Statement) (p : Parser.t)
  (tag : Parser.StartTag) :
  Parser.currentStartTag p = Some tag ->
  pushModifier node p =
    Ok (tt, Parser.with_tag (Some (withModifier node tag)) p).
Proof.
  intros H. unfold pushModifier. rewrite H. now destruct tag.
Qed.

Lemma appendDynamicAttributeValuePart_returns (node : ASTv1.Statement)
  (p : Parser.t) (attr : Parser.Attribute) :
  Parser.currentAttr p = Some attr ->
  appendDynamicAttributeValuePart node p =
    Ok (tt, Parser.with_attr (Some (withPart node attr)) p).
Proof.
  intros H. unfold appendDynamicAttributeValuePart. rewrite H.
  unfold finalizeTextPart, withPart, pendingText.
  destruct attr as [name parts [text|] quoted dynamic]; cbn;
    rewrite <- ?app_assoc; reflexivity.
Qed.

Lemma appendToCurrentElement_returns (node : ASTv1.Statement) (p : Parser.t)
  (top : Parser.Parent) (rest : list Parser.Parent) :
  Parser.elementStack p = top :: rest ->
  appendToCurrentElement node p =
    Ok (tt, Parser.with_stack (appendChild top node :: rest) p).
Proof. intros H. unfold appendToCurrentElement. now rewrite H. Qed.

Section Injection.

Context {collaborators : Collaborators}.

(** C2 (as amended).  Where an injected node ends is decided by the state of
    the tokenizer when [_injectStatement] is called.  In a tag name it is a
    syntax error at the node.  Before an attribute name the node becomes the
    last modifier of the current start tag, and nothing else changes.  In or
    after an attribute name an empty unquoted value is begun and finished,
    and in the parser that this leaves the node becomes the last modifier
    and the tokenizer is before an attribute name.  After a quoted attribute
    value (the row the claim does not have) the node becomes the last
    modifier and the tokenizer is before an attribute name.  Before an
    attribute value an unquoted value is begun, and in the parser that this
    leaves the node becomes the last part of the current attribute, after
    its pending text, the attribute is dynamic and the tokenizer is in an
    unquoted value.  In an attribute value the node becomes the last part of
    the current attribute in the same way.  In every other state the node
    becomes the last child of the element on top of the stack. *)
Theorem injectStatement_by_state (node : ASTv1.Statement) (p : Parser.t) :
  let state := Parser.state (Parser.tokenizer p) in
  (state = Parser.tagOpen \/ state = Parser.tagName ->
   _injectStatement node p =
     Throw (SyntaxError "Cannot use mustaches in an elements tagname"
              (ASTv1.statement_loc node))) /\
  (state = Parser.beforeAttributeName ->
   forall tag,
     Parser.currentStartTag p = Some tag ->
     _injectStatement node p =
       Ok (tt, Parser.with_tag (Some (withModifier node tag)) p)) /\
  (state = Parser.attributeName \/ state = Parser.afterAttributeName ->
   forall p1 tag,
     (beginAttributeValue false ;; finishAttributeValue) p = Ok (tt, p1) ->
     Parser.currentStartTag p1 = Some tag ->
     _injectStatement node p =
       Ok (tt,
           inState Parser.beforeAttributeName
             (Parser.with_tag (Some (withModifier node tag)) p1))) /\
  (state = Parser.afterAttributeValueQuoted ->
   forall tag,
     Parser.currentStartTag p = Some tag ->
     _injectStatement node p =
       Ok (tt,
           inState Parser.beforeAttributeName
             (Parser.with_tag (Some (withModifier node tag)) p))) /\
  (state = Parser.beforeAttributeValue ->
   forall p1 attr,
     beginAttributeValue false p = Ok (tt, p1) ->
     Parser.currentAttr p1 = Some attr ->
     _injectStatement node p =
       Ok (tt,
           inState Parser.attributeValueUnquoted
             (Parser.with_attr (Some (withPart node attr)) p1))) /\
  (state = Parser.attributeValueDoubleQuoted \/
   state = Parser.attributeValueSingleQuoted \/
   state = Parser.attributeValueUnquoted ->
   forall attr,
     Parser.currentAttr p = Some attr ->
     _injectStatement node p =
       Ok (tt, Parser.with_attr (Some (withPart node attr)) p)) /\
  (state <> Parser.tagOpen -> state <> Parser.tagName ->
   state <> Parser.beforeAttributeName ->
   state <> Parser.attributeName -> state <> Parser.afterAttributeName ->
   state <> Parser.afterAttributeValueQuoted ->
   state <> Parser.beforeAttributeValue ->
   state <> Parser.attributeValueDoubleQuoted ->
   state <> Parser.attributeValueSingleQuoted ->
   state <> Parser.attributeValueUnquoted ->
   forall top rest,
     Parser.elementStack p = top :: rest ->
     _injectStatement node p =
       Ok (tt, Parser.with_stack (appendChild top node :: rest) p)).
Proof.
  cbv zeta. unfold _injectStatement. rewrite bind_gets.
  split; [|split; [|split; [|split; [|split; [|split]]]]].
  - intros [H|H]; now rewrite H.
  - intros H tag Htag. rewrite H. now apply pushModifier_returns.
  - intros H p1 tag Hvalue Htag.
    assert (Hrun : (beginAttributeValue false ;;
                    finishAttributeValue ;;
                    pushModifier node ;;
                    transitionTo Parser.beforeAttributeName) p =
                   Ok (tt,
                       inState Parser.beforeAttributeName
                         (Parser.with_tag (Some (withModifier node tag)) p1))).
    { unfold bind in *.
      destruct (beginAttributeValue false p) as [[[] p0]|e];
        [|discriminate Hvalue].
      rewrite Hvalue, (pushModifier_returns node p1 tag Htag).
      reflexivity. }
    destruct H as [H|H]; rewrite H; exact Hrun.
  - intros H tag Htag. rewrite H. unfold bind.
    now rewrite (pushModifier_returns node p tag Htag).
  - intros H p1 attr Hvalue Hattr. rewrite H. unfold bind.
    rewrite Hvalue,
      (appendDynamicAttributeValuePart_returns node p1 attr Hattr).
    reflexivity.
  - intros H attr Hattr.
    pose proof (appendDynamicAttributeValuePart_returns node p attr Hattr)
      as Hpart.
    destruct H as [H|[H|H]]; rewrite H; exact Hpart.
  - intros H1 H2 H3 H4 H5 H6 H7 H8 H9 H10 top rest Hstack.
    pose proof (appendToCurrentElement_returns node p top rest Hstack)
      as Hchild.
    destruct (Parser.state (Parser.tokenizer p)); try congruence;
      exact Hchild.
Qed.

End Injection.

Lemma injectStatement_by_state_witness :
  (exists p',
     _injectStatement (collaborators := Demo.demo) Demo.modNode
       (Demo.inTag Parser.beforeAttributeName) = Ok (tt, p') /\
     option_map Parser.modifiers (Parser.currentStartTag p') =
       Some [Demo.modNode] /\
     Parser.elementStack p' = [Demo.templateEntry]) /\
  (exists p',
     _injectStatement (collaborators := Demo.demo) Demo.modNode
       (Demo.inTag Parser.attributeName) = Ok (tt, p') /\
     option_map Parser.modifiers (Parser.currentStartTag p') =
       Some [Demo.modNode] /\
     Parser.state (Parser.tokenizer p') = Parser.beforeAttributeName) /\
  (exists p',
     _injectStatement (collaborators := Demo.demo) Demo.modNode
       (Demo.inTag Parser.beforeAttributeValue) = Ok (tt, p') /\
     option_map Parser.parts (Parser.currentAttr p') = Some [Demo.modNode] /\
     Parser.state (Parser.tokenizer p') = Parser.attributeValueUnquoted) /\
  (exists p',
     _injectStatement (collaborators := Demo.demo) Demo.modNode
       Demo.inValue = Ok (tt, p') /\
     option_map Parser.parts (Parser.currentAttr p') =
       Some [ASTv1.TextNode "a" Demo.origin; Demo.modNode] /\
     option_map Parser.modifiers (Parser.currentStartTag p') = Some []) /\
  (exists p',
     _injectStatement (collaborators := Demo.demo) Demo.modNode
       (Demo.inTag Parser.data) = Ok (tt, p') /\
     Parser.elementStack p' =
       [Parser.BodyParent 0 (ASTv1.Template [Demo.modNode] [] Demo.origin)] /\
     option_map Parser.modifiers (Parser.currentStartTag p') = Some []).
Proof.
  pose proof (injectStatement_by_state (collaborators := Demo.demo)
                Demo.modNode (Demo.inTag Parser.beforeAttributeName)) as H1.
  pose proof (injectStatement_by_state (collaborators := Demo.demo)
                Demo.modNode (Demo.inTag Parser.attributeName)) as H2.
  pose proof (injectStatement_by_state (collaborators := Demo.demo)
                Demo.modNode (Demo.inTag Parser.beforeAttributeValue)) as H3.
  pose proof (injectStatement_by_state (collaborators := Demo.demo)
                Demo.modNode Demo.inValue) as H4.
  pose proof (injectStatement_by_state (collaborators := Demo.demo)
                Demo.modNode (Demo.inTag Parser.data)) as H5.
  cbv zeta in H1, H2, H3, H4, H5.
  destruct H1 as (_ & H1 & _).
  destruct H2 as (_ & _ & H2 & _).
  destruct H3 as (_ & _ & _ & _ & H3 & _).
  destruct H4 as (_ & _ & _ & _ & _ & H4 & _).
  destruct H5 as (_ & _ & _ & _ & _ & _ & H5).
  split; [|split; [|split; [|split]]]; eexists.
  - split; [eapply H1; reflexivity|]. split; reflexivity.
  - split; [eapply H2; [left|..]; reflexivity|]. split; reflexivity.
  - split; [eapply H3; reflexivity|]. split; reflexivity.
  - split; [eapply H4; [left|]; reflexivity|]. split; reflexivity.
  - split; [eapply H5; try discriminate; reflexivity|]. split; reflexivity.
Defined.

(** C2 (as stated) fails: after-attribute-value-quoted is none of the states
    the claim lists, and the node does not become a child of the current
    element: the element stack is left as it is, the node is appended to the
    modifiers of the tag, and the tokenizer goes to before-attribute-name. *)
Lemma injectStatement_after_quoted_value :
  exists p',
    _injectStatement (collaborators := Demo.demo) Demo.modNode
      (Demo.inTag Parser.afterAttributeValueQuoted) = Ok (tt, p') /\
    Parser.elementStack p' =
      Parser.elementStack (Demo.inTag Parser.afterAttributeValueQuoted) /\
    option_map Parser.modifiers (Parser.currentStartTag p') =
      Some [Demo.modNode] /\
    Parser.state (Parser.tokenizer p') = Parser.beforeAttributeName /\
    _injectStatement (collaborators := Demo.demo) Demo.modNode
      (Demo.inTag Parser.afterAttributeValueQuoted)
    <> appendToCurrentElement Demo.modNode
         (Demo.inTag Parser.afterAttributeValueQuoted).
Proof.
  eexists. split; [reflexivity|]. split; [reflexivity|].
  split; [reflexivity|]. split; [reflexivity|]. discriminate.
Qed.

End InjectFacts.

(** ** Bodies and the element stack *)

Module ProgramFacts.

Import HandlebarsNodeVisitors Spec.

Section Balance.

Context {collaborators : Collaborators}.

Lemma bind_throw {A B : Type} (m : V A) (k : A -> V B) (p : Parser.t)
  (e : Error) :
  m p = Throw e -> bind m k p = Throw e.
Proof. intros H. unfold bind. now rewrite H. Qed.

Lemma bind_returns {A B : Type} (m : V A) (k : A -> V B) (p : Parser.t)
  (a : A) (p' : Parser.t) :
  m p = Ok (a, p') -> bind m k p = k a p'.
Proof. intros H. unfold bind. now rewrite H. Qed.

(** The node popped right after a push is the node pushed. *)
Lemma pop_after_push (node : Parser.Parent) (p : Parser.t) :
  (push node ;; pop) p = Ok (Some node, p).
Proof.
  unfold bind, push, modify, pop, Parser.with_stack. cbn.
  now destruct p.
Qed.

Lemma Program_unfold (body : list HBS.Statement) (blockParams : list string)
  (chained : bool) (loc : HBS.SourceLocation) (p : Parser.t) :
  Program (HBS.MkProgram body blockParams chained (Some loc)) p =
    let node := bodyNode blockParams chained loc p in
    match body with
    | [] => (popped <- pop ;; asBody popped) (entered node p)
    | _ :: _ =>
        (visitAll body ;;
         popped <- pop ;;
         unclosed popped (Parser.nextRef p)) (entered node p)
    end.
Proof.
  unfold Program. cbn [ProgramFrom]. cbv zeta.
  unfold bind at 1, gets. cbn [programLoc].
  unfold bind at 1, ret. unfold bind at 1, fresh.
  unfold bind at 1, push, modify.
  destruct body; reflexivity.
Qed.

Lemma Program_without_location (body : list HBS.Statement)
  (blockParams : list string) (chained : bool) (p : Parser.t) :
  Program (HBS.MkProgram body blockParams chained None) p =
    Throw (TypeError "the location of the program is undefined").
Proof. reflexivity. Qed.


End Balance.


End ProgramFacts.

(** ** The AST builder: the descriptions it builds *)

Module BuildFacts.

Import Builder Builder.AstBuilder Spec BuilderFacts.

Lemma decides_ret {A : Type} (a : A) : decides true (ret a).
Proof. intros pos. now exists a, pos. Qed.

Lemma decides_consume (chars : string) : decides true (consume chars).
Proof. intros pos. eexists. eexists. reflexivity. Qed.

Lemma decides_throw {A : Type} (e : Error) : decides false (@throw A e).
Proof. intros pos. now exists e. Qed.

Lemma decides_bind {A B : Type} (b1 b2 : bool) (m : M A) (k : A -> M B) :
  decides b1 m -> (forall a, decides b2 (k a)) ->
  decides (b1 && b2) (bind m k).
Proof.
  intros Hm Hk pos. specialize (Hm pos). unfold bind.
  destruct b1; cbn [andb].
  - destruct Hm as (a & pos' & ->). apply Hk.
  - destruct Hm as (e & ->). now exists e.
Qed.

Lemma decides_if {A : Type} (b b' : bool) (m : M A) :
  b = b' -> decides b m -> decides b' m.
Proof. now intros ->. Qed.

Lemma pure_next_ret {T : Type} (f : hbs.Span -> T) :
  pure_next (ret (fun span => ret (f span))).
Proof.
  intros pos next pos' H. injection H as <- <-.
  intros span p. now exists (f span), p.
Qed.

Lemma pure_next_bind {A T : Type} (m : M A)
  (k : A -> M (hbs.Span -> M T)) :
  (forall a, pure_next (k a)) -> pure_next (bind m k).
Proof.
  intros Hk pos next pos' H. apply bind_ok in H.
  destruct H as (a & p & _ & H). exact (Hk a p next pos' H).
Qed.

Lemma decides_spanned {T : Type} (b : bool) (cb : M (hbs.Span -> M T)) :
  decides b cb -> pure_next cb -> decides b (spanned cb).
Proof.
  intros Hcb Hnext pos. specialize (Hcb pos). unfold spanned.
  destruct b.
  - destruct Hcb as (next & pos' & E). rewrite E.
    exact (Hnext pos next pos' E _ _).
  - destruct Hcb as (e & ->). now exists e.
Qed.

Lemma decides_mapM {A B : Type} (b : A -> bool) (f : A -> M B) (l : list A) :
  Forall (fun x => decides (b x) (f x)) l ->
  decides (forallb b l) (mapM f l).
Proof.
  induction 1 as [|x l Hx Hl IH]; cbn [forallb mapM].
  - apply decides_ret.
  - apply decides_bind; [exact Hx|]. intros y.
    eapply decides_if; [|apply decides_bind; [exact IH|]].
    + apply andb_true_r.
    + intros ys. apply decides_ret.
Qed.

Ltac pure :=
  repeat first [apply pure_next_ret | apply pure_next_bind; intros ?].

Lemma decides_var (item : Head) : decides true (var item).
Proof.
  unfold var. destruct item; (apply decides_spanned; [|pure]);
    repeat (apply (decides_bind true true);
            [apply decides_consume|intros ?]);
    apply decides_ret.
Qed.

Lemma decides_segments (items : option (list string)) :
  decides true (segments items).
Proof.
  unfold segments. destruct items as [items|]; [|apply decides_ret].
  eapply decides_if; [|apply decides_bind;
                        [apply (decides_mapM (fun _ => true))|
                         intros ?; apply decides_ret]].
  - rewrite andb_true_r. induction items; [reflexivity|assumption].
  - apply Forall_forall. intros item _.
    apply (decides_bind true true); [apply decides_consume|intros ?].
    apply decides_spanned; [|pure].
    apply (decides_bind true true); [apply decides_consume|intros ?].
    apply decides_ret.
Qed.

Lemma decides_path (expression : PathExpression) :
  decides true (path expression).
Proof.
  unfold path. apply decides_spanned; [|pure].
  apply (decides_bind true true); [apply decides_var|intros ?].
  apply (decides_bind true true); [apply decides_segments|intros ?].
  apply decides_ret.
Qed.

Lemma decides_expr (expression : Expression) :
  decides (expression_supported expression) (expr expression).
Proof.
  unfold expr. destruct expression; cbn [expression_supported];
    try apply decides_throw;
    try (apply decides_spanned; [|pure];
         apply (decides_bind true true); [apply decides_consume|intros ?];
         apply decides_ret).
  apply (decides_bind true true); [apply decides_path|intros ?].
  apply decides_ret.
Qed.

Lemma decides_exprs (params : list Expression) :
  decides (forallb expression_supported params) (exprs params).
Proof.
  apply decides_mapM, Forall_forall. intros e _. apply decides_expr.
Qed.

Lemma decides_hashPair (pair : HashPair) :
  decides (pair_supported pair) (hashPair pair).
Proof.
  destruct pair as [key value]. cbn [pair_supported]. intros pos.
  pose proof (decides_expr value pos) as H.
  unfold hashPair, spanned, ret, bind.
  destruct (expression_supported value).
  - destruct H as (v & pos' & ->). eexists. eexists. reflexivity.
  - destruct H as (e & ->). now exists e.
Qed.

Lemma decides_hash (h : option Hash) : decides (hash_supported h) (hash h).
Proof.
  unfold hash. destruct h as [[pairs]|]; cbn [hash_supported];
    [|apply decides_ret].
  eapply decides_if; [apply andb_true_r|].
  apply decides_bind; [|intros ?; apply decides_ret].
  apply decides_spanned; [|pure].
  eapply decides_if; [apply andb_true_r|].
  apply decides_bind; [|intros ?; apply decides_ret].
  apply decides_mapM, Forall_forall. intros pair _. apply decides_hashPair.
Qed.

Lemma decides_params (params : list Expression) :
  decides (forallb expression_supported params)
    match params with
    | [] => ret []
    | _ :: _ => consume " " ;; exprs params
    end.
Proof.
  destruct params as [|e params]; [apply decides_ret|].
  apply (decides_bind true (forallb expression_supported (e :: params)));
    [apply decides_consume|intros ?].
  apply decides_exprs.
Qed.

Lemma decides_optional_hash (h : option Hash) :
  decides (hash_supported h)
    match h with
    | None => ret None
    | Some _ => consume " " ;; hash h
    end.
Proof.
  destruct h as [h|]; [|apply decides_ret].
  apply (decides_bind true (hash_supported (Some h)));
    [apply decides_consume|intros ?].
  apply decides_hash.
Qed.

Ltac bools :=
  cbn [andb]; rewrite ?andb_true_r, ?andb_assoc; reflexivity.

Ltac leaf :=
  first [ apply decides_consume | apply decides_expr | apply decides_exprs
        | apply decides_hash | apply decides_path | apply decides_params
        | apply decides_optional_hash | eassumption ].

Ltac sequence :=
  repeat first [ eapply decides_bind; [solve [leaf]|intros ?]
               | apply decides_ret ].

Lemma decides_visit_and_program :
  (forall s, decides (statement_supported s) (visit s)) /\
  (forall p, decides (program_supported p) (program p)).
Proof.
  assert (Hprogram : forall body blockParams,
             Forall (fun s => decides (statement_supported s) (visit s)) body ->
             decides (program_supported (MkProgram body blockParams))
               (program (MkProgram body blockParams))).
  { intros body blockParams Hbody. cbn [program program_supported].
    apply (decides_bind true).
    - destruct blockParams;
        repeat (apply (decides_bind true true);
                [apply decides_consume|intros ?]);
        apply decides_consume.
    - intros _. apply decides_spanned; [|pure].
      eapply decides_if; [apply andb_true_r|].
      apply decides_bind; [|intros ?; apply decides_ret].
      now apply decides_mapM. }
  assert (H : forall s, decides (statement_supported s) (visit s)).
  { apply (statement_program_ind
             (fun s => decides (statement_supported s) (visit s))
             (fun p => decides (program_supported p) (program p))).
    - intros call params h trusted. cbn [visit statement_supported].
      eapply decides_if; [|apply decides_spanned; [sequence|pure]].
      bools.
    - intros value. cbn [visit statement_supported].
      eapply decides_if; [|apply decides_spanned; [sequence|pure]].
      bools.
    - intros call params h prog inverse Hprog Hinv.
      cbn [visit statement_supported].
      assert (Hinverse :
                decides
                  match inverse with
                  | None => true
                  | Some i => program_supported i
                  end
                  match inverse with
                  | None => ret None
                  | Some inv =>
                      consume "{{else}}" ;;
                      i <- program inv ;;
                      ret (Some i)
                  end).
      { destruct inverse as [i|]; [|apply decides_ret].
        eapply decides_if; [|sequence]. bools. }
      eapply decides_if; [|apply decides_spanned; [sequence|pure]].
      bools.
    - intros value. cbn [visit statement_supported].
      apply (decides_bind true true); [apply decides_consume|intros ?].
      apply decides_ret.
    - intros value. apply decides_throw.
    - exact Hprogram. }
  split; [exact H|].
  intros [body blockParams]. apply Hprogram, Forall_forall. intros s _.
  apply H.
Qed.

(** X1.  [build] returns a tree exactly for the descriptions in which every
    statement and expression is one the builder implements: no comment
    statement, and no sub-expression, [null] or [undefined] literal where an
    expression is built.  For the others it throws, wherever the cursor is. *)
Theorem build_returns_iff_supported (description : BuilderAst) (pos : nat) :
  (exists tree pos', build description pos = Ok (tree, pos')) <->
  forallb statement_supported (body description) = true.
Proof.
  assert (H : decides (forallb statement_supported (body description))
                (build description)).
  { unfold build. apply decides_spanned; [|pure].
    eapply decides_if; [apply andb_true_r|].
    apply decides_bind; [|intros ?; apply decides_ret].
    apply decides_mapM, Forall_forall. intros s _.
    apply decides_visit_and_program. }
  specialize (H pos).
  destruct (forallb statement_supported (body description)).
  - split; [reflexivity|]. intros _. exact H.
  - split; [|discriminate]. intros (tree & pos' & E).
    destruct H as (e & H). congruence.
Qed.


(** X2.  The tree that [build] returns spans the text consumed for it, from
    the cursor before to the cursor after, which is not before it; and but
    for hash pairs, every node of the tree has the spans of the nodes it
    holds within its own. *)
Theorem build_tree_spans_and_nests (description : BuilderAst) (pos : nat)
  (tree : hbs.Program) (pos' : nat) :
  build description pos = Ok (tree, pos') ->
  pos <= pos' /\
  hbs.program_span tree = hbs.MkSpan pos pos' /\
  program_nested false tree = true.
Proof.
  intros H. destruct (build_spans description pos tree pos' H) as [Hle Hspan].
  split; [exact Hle|]. split; [exact Hspan|].
  exact (build_nested_but_for_hash_pairs description pos tree pos' H).
Qed.

Lemma build_tree_spans_and_nests_witness :
  exists tree,
    build Demo.hashedMustache 0 = Ok (tree, 9) /\
    hbs.program_span tree = hbs.MkSpan 0 9 /\
    program_nested false tree = true.
Proof.
  eexists. split; [vm_compute; reflexivity|].
  exact (proj2 (build_tree_spans_and_nests Demo.hashedMustache 0 _ 9 eq_refl)).
Defined.

End BuildFacts.

(** ** The AST builder: trees move with the cursor *)

Module TranslationFacts.

Import Builder Builder.AstBuilder Spec BuilderFacts.

Lemma shifted_ret {A B : Type} (k : nat) (R : A -> B -> Prop) (a : A) (b : B) :
  R a b -> shifted k R (ret a) (ret b).
Proof. intros H pos. now exists b. Qed.

Lemma shifted_throw {A B : Type} (k : nat) (R : A -> B -> Prop) (e : Error) :
  shifted k R (@throw A e) (@throw B e).
Proof. intros pos. reflexivity. Qed.

Lemma shifted_bind {A B A' B' : Type} (k : nat) (R : A -> B -> Prop)
  (S : A' -> B' -> Prop) (m1 : M A) (m2 : M B) (f : A -> M A')
  (g : B -> M B') :
  shifted k R m1 m2 ->
  (forall a b, R a b -> shifted k S (f a) (g b)) ->
  shifted k S (bind m1 f) (bind m2 g).
Proof.
  intros Hm Hk pos. specialize (Hm pos). unfold bind.
  destruct (m1 pos) as [[a pos']|e].
  - destruct Hm as (b & -> & Hab). apply (Hk a b Hab).
  - now rewrite Hm.
Qed.

Lemma shifted_consume (k : nat) (chars : string) :
  shifted k (fun a b => b = shift_span k a) (consume chars) (consume chars).
Proof.
  intros pos. unfold consume, shift_span. cbn.
  eexists. split; [|reflexivity].
  now replace (pos + k + String.length chars)
    with (pos + String.length chars + k) by lia.
Qed.

Lemma shifted_spanned {T T' : Type} (k : nat) (S : T -> T' -> Prop)
  (cb1 : M (hbs.Span -> M T)) (cb2 : M (hbs.Span -> M T')) :
  shifted k (fun next1 next2 =>
               forall span, shifted k S (next1 span) (next2 (shift_span k span)))
    cb1 cb2 ->
  shifted k S (spanned cb1) (spanned cb2).
Proof.
  intros Hcb pos. specialize (Hcb pos). unfold spanned.
  destruct (cb1 pos) as [[next1 pos']|e].
  - destruct Hcb as (next2 & -> & Hnext).
    apply (Hnext (hbs.MkSpan pos pos') pos').
  - now rewrite Hcb.
Qed.

Lemma shifted_mapM {A B : Type} (k : nat) (shift : nat -> B -> B)
  (f : A -> M B) (l : list A) :
  Forall (fun x => shifted k (fun a b => b = shift k a) (f x) (f x)) l ->
  shifted k (fun a b => b = List.map (shift k) a) (mapM f l) (mapM f l).
Proof.
  induction 1 as [|x l Hx _ IH]; cbn [mapM].
  - now apply shifted_ret.
  - eapply shifted_bind; [exact Hx|]. intros y y' ->.
    eapply shifted_bind; [exact IH|]. intros ys ys' ->.
    now apply shifted_ret.
Qed.

(** One step of a proof that a run moves with the cursor. *)
Ltac known :=
  first [ apply shifted_consume | eassumption
        | match goal with H : translates _ _ |- _ => apply H end
        | match goal with H : forall k, shifted k _ _ _ |- _ => apply H end ].

Ltac moves :=
  repeat first
    [ apply shifted_spanned
    | eapply shifted_bind; [solve [known]|cbv beta; intros; subst]
    | apply shifted_ret; try (intros ?; apply shifted_ret); reflexivity ].

Lemma translates_var (item : Head) : translates shift_head (var item).
Proof. intros k. unfold var. destruct item; moves. Qed.

Lemma translates_segments (items : option (list string)) :
  translates (fun k => option_map (List.map (shift_segment k)))
    (segments items).
Proof.
  intros k. unfold segments. destruct items as [items|];
    [|now apply shifted_ret].
  eapply shifted_bind;
    [apply (shifted_mapM k shift_segment), Forall_forall; intros item _; moves|].
  cbv beta. intros; subst. now apply shifted_ret.
Qed.

Lemma translates_path (expression : PathExpression) :
  translates shift_path (path expression).
Proof.
  intros k. unfold path.
  pose proof (translates_var (head expression)) as Hvar.
  pose proof (translates_segments (tail expression)) as Hseg.
  moves.
Qed.

Lemma translates_expr (expression : Expression) :
  translates shift_expression (expr expression).
Proof.
  intros k. pose proof translates_path as Hpath.
  destruct expression; cbn [expr]; try apply shifted_throw; moves.
  eapply shifted_bind; [apply Hpath|]. cbv beta. intros; subst.
  now apply shifted_ret.
Qed.

Lemma translates_exprs (params : list Expression) :
  translates (fun k => List.map (shift_expression k)) (exprs params).
Proof.
  intros k. apply (shifted_mapM k shift_expression), Forall_forall.
  intros e _. apply translates_expr.
Qed.

Lemma translates_hashPair (entry : HashPair) :
  translates shift_pair (hashPair entry).
Proof.
  intros k. destruct entry as [key value]. cbn [hashPair].
  apply shifted_spanned, shifted_ret. intros span.
  eapply shifted_bind; [apply translates_expr|]. cbv beta. intros; subst.
  now apply shifted_ret.
Qed.

Lemma translates_hash (h : option Hash) :
  translates (fun k => option_map (shift_hash k)) (hash h).
Proof.
  intros k. destruct h as [[pairs]|]; cbn [hash]; [|now apply shifted_ret].
  eapply shifted_bind with (R := fun a b => b = shift_hash k a).
  - apply shifted_spanned.
    eapply shifted_bind;
      [apply (shifted_mapM k shift_pair), Forall_forall; intros entry _;
       apply translates_hashPair|].
    cbv beta. intros; subst. apply shifted_ret. intros span.
    now apply shifted_ret.
  - intros; subst. now apply shifted_ret.
Qed.

Lemma translates_visit_and_program :
  (forall s, translates shift_statement (visit s)) /\
  (forall p, translates shift_program (program p)).
Proof.
  assert (Hprogram : forall body blockParams,
             Forall (fun s => translates shift_statement (visit s)) body ->
             translates shift_program (program (MkProgram body blockParams))).
  { intros body blockParams Hbody k. cbn [program].
    eapply shifted_bind with (R := fun a b => b = shift_span k a).
    - destruct blockParams; moves; apply shifted_consume.
    - intros _ _ _. apply shifted_spanned.
      eapply shifted_bind;
        [apply (shifted_mapM k shift_statement); revert Hbody;
         apply Forall_impl; intros s Hs; apply Hs|].
      cbv beta. intros; subst. apply shifted_ret. intros span.
      now apply shifted_ret. }
  pose proof translates_expr as Hexpr.
  pose proof translates_exprs as Hexprs.
  pose proof translates_hash as Hhash.
  pose proof translates_path as Hpath.
  assert (H : forall s, translates shift_statement (visit s)).
  { apply (statement_program_ind
             (fun s => translates shift_statement (visit s))
             (fun p => translates shift_program (program p))).
    - intros call params h trusted k. cbn [visit].
      specialize (Hexpr call). specialize (Hexprs params).
      specialize (Hhash h). moves.
    - intros value k. cbn [visit]. specialize (Hexpr value). moves.
    - intros call params h prog inverse Hprog Hinv k. cbn [visit].
      specialize (Hpath call).
      assert (Hparams :
                forall k,
                  shifted k (fun a b => b = List.map (shift_expression k) a)
                    match params with
                    | [] => ret []
                    | _ :: _ => consume " " ;; exprs params
                    end
                    match params with
                    | [] => ret []
                    | _ :: _ => consume " " ;; exprs params
                    end).
      { intros k'. specialize (Hexprs params).
        destruct params; [now apply shifted_ret|].
        eapply shifted_bind; [apply shifted_consume|].
        intros _ _ _. apply Hexprs. }
      assert (Hoptional :
                forall k,
                  shifted k (fun a b => b = option_map (shift_hash k) a)
                    match h with
                    | None => ret None
                    | Some _ => consume " " ;; hash h
                    end
                    match h with
                    | None => ret None
                    | Some _ => consume " " ;; hash h
                    end).
      { intros k'. specialize (Hhash h).
        destruct h; [|now apply shifted_ret].
        eapply shifted_bind; [apply shifted_consume|].
        intros _ _ _. apply Hhash. }
      assert (Hinverse :
                forall k,
                  shifted k
                    (fun a b =>
                       b = match a with
                           | Some i => Some (shift_program k i)
                           | None => None
                           end)
                    match inverse with
                    | None => ret None
                    | Some inv =>
                        consume "{{else}}" ;; i <- program inv ;; ret (Some i)
                    end
                    match inverse with
                    | None => ret None
                    | Some inv =>
                        consume "{{else}}" ;; i <- program inv ;; ret (Some i)
                    end).
      { intros k'. destruct inverse as [inv|]; [|now apply shifted_ret].
        eapply shifted_bind; [apply shifted_consume|]. intros _ _ _.
        eapply shifted_bind; [apply Hinv|]. cbv beta. intros; subst.
        now apply shifted_ret. }
      clear Hexpr Hexprs Hhash Hinv. moves.
    - intros value k. cbn [visit].
      eapply shifted_bind; [apply shifted_consume|]. cbv beta.
      intros; subst. now apply shifted_ret.
    - intros value k. apply shifted_throw.
    - exact Hprogram. }
  split; [exact H|].
  intros [body blockParams]. apply Hprogram, Forall_forall. intros s _.
  apply H.
Qed.

(** X3.  The tree that [build] returns moves with the cursor: started [k]
    characters further, [build] returns the same tree with every span moved
    [k] characters to the right, and leaves the cursor [k] characters
    further; and it throws the same error when it throws.  So a builder that
    is used again gives the tree of a new builder, moved by the text that was
    consumed before. *)
Theorem build_moves_with_the_cursor (description : BuilderAst)
  (pos k : nat) :
  build description (pos + k) =
    match build description pos with
    | Ok (tree, pos') => Ok (shift_program k tree, pos' + k)
    | Throw e => Throw e
    end.
Proof.
  assert (H : translates shift_program (build description)).
  { intros k'. unfold build. apply shifted_spanned.
    eapply shifted_bind;
      [apply (shifted_mapM k' shift_statement), Forall_forall; intros s _;
       apply translates_visit_and_program|].
    cbv beta. intros; subst. apply shifted_ret. intros span.
    now apply shifted_ret. }
  specialize (H k pos).
  destruct (build description pos) as [[tree pos']|e]; [|exact H].
  now destruct H as (tree' & -> & ->).
Qed.

End TranslationFacts.

(** ** Paths as texts *)

Module PathTextFacts.

Import JsString Builder Builder.AstBuilder Spec BuilderFacts.


Lemma append_empty (a : string) : a ++ EmptyString = a.
Proof. induction a as [|c a IH]; [reflexivity|]. cbn. now rewrite IH. Qed.

Lemma prefix_one_char (a c : ascii) (s : string) :
  prefix (String a EmptyString) (String c s) = Ascii.eqb c a.
Proof.
  change (prefix (String a EmptyString) (String c s))
    with (match ascii_dec a c with
          | left _ => prefix EmptyString s
          | right _ => false
          end).
  destruct (ascii_dec a c) as [e|n].
  - subst c. rewrite Ascii.eqb_refl. now destruct s.
  - symmetry. apply Ascii.eqb_neq. congruence.
Qed.

Lemma split_one_char_cons (a c : ascii) (s : string) :
  split (String a EmptyString) (String c s) =
    if Ascii.eqb c a then EmptyString :: split (String a EmptyString) s
    else match split (String a EmptyString) s with
         | piece :: pieces => String c piece :: pieces
         | [] => [String c EmptyString]
         end.
Proof.
  unfold split. cbn [split_from]. rewrite prefix_one_char.
  destruct (Ascii.eqb c a); reflexivity.
Qed.

(** A text without the separator is one piece. *)
Lemma split_without_separator (a : ascii) (s : string) :
  contains_char a s = false -> split (String a EmptyString) s = [s].
Proof.
  induction s as [|c s IH]; [reflexivity|].
  cbn [contains_char]. rewrite split_one_char_cons.
  destruct (Ascii.eqb c a); [discriminate|].
  intros H. now rewrite IH.
Qed.

(** X4.  For a text without a dot, [pathString] gives back the text that
    [path] was given. *)
Theorem pathString_of_path (text : string) :
  contains_char "."%char text = false ->
  pathString (Builder.path text) = text.
Proof.
  intros H. unfold Builder.path, pathString.
  rewrite (split_without_separator "."%char text H).
  cbn [List.hd List.tl head tail].
  destruct (starts_with_at text) eqn:Eat.
  - destruct text as [|c text]; [discriminate|]. cbn in Eat.
    apply Ascii.eqb_eq in Eat. subst c. cbn. now rewrite append_empty.
  - destruct (String.eqb_spec text "this") as [->|_]; [reflexivity|].
    cbn. apply append_empty.
Qed.

Lemma pathString_of_path_witness :
  pathString (Builder.path "@title") = "@title".
Proof. exact (pathString_of_path "@title" eq_refl). Defined.

(** X5.  [path] on a text that starts with the sigil [@] describes the same
    path as [atPath] on the text without it. *)
Theorem path_with_sigil_is_atPath (text : string) :
  Builder.path ("@" ++ text) = atPath text.
Proof.
  unfold Builder.path, atPath. cbn [append starts_with_at].
  rewrite Ascii.eqb_refl.
  change (split "." (String "@" text))
    with (split (String "."%char EmptyString) (String "@"%char text)).
  rewrite split_one_char_cons.
  change (Ascii.eqb "@" ".") with false. cbv iota.
  pose proof (JsStringFacts.split_from_nonempty "." text 0) as Hne.
  fold (split "." text) in Hne.
  change (String "."%char EmptyString) with ".".
  destruct (split "." text) as [|piece pieces]; [congruence|].
  reflexivity.
Qed.





End PathTextFacts.

(** ** Translation of expressions *)

Module ExpressionFacts.

Import HandlebarsNodeVisitors Spec CallFacts.

(** *** Induction on CST expressions: a sub-expression holds lists *)

Section ExpressionInduction.

Variable P : HBS.Expression -> Prop.
Variable Q : HBS.Hash -> Prop.

Hypothesis HPath :
  forall original parts data loc,
    P (HBS.PathExpression original parts data loc).
Hypothesis HSub :
  forall path params hash loc,
    P path -> Forall P params ->
    match hash with Some h => Q h | None => True end ->
    P (HBS.SubExpression path params hash loc).
Hypothesis HString : forall value loc, P (HBS.StringLiteral value loc).
Hypothesis HBoolean : forall value loc, P (HBS.BooleanLiteral value loc).
Hypothesis HNumber : forall value loc, P (HBS.NumberLiteral value loc).
Hypothesis HUndefined : forall loc, P (HBS.UndefinedLiteral loc).
Hypothesis HNull : forall loc, P (HBS.NullLiteral loc).
Hypothesis HHash :
  forall pairs loc,
    Forall (fun entry => P (cst_pair_value entry)) pairs ->
    Q (HBS.MkHash pairs loc).

Fixpoint expression_hash_ind (e : HBS.Expression) : P e :=
  match e with
  | HBS.PathExpression original parts data loc =>
      HPath original parts data loc
  | HBS.SubExpression path params hash loc =>
      HSub path params hash loc (expression_hash_ind path)
        ((fix all (l : list HBS.Expression) : Forall P l :=
            match l with
            | [] => Forall_nil P
            | x :: rest => Forall_cons x (expression_hash_ind x) (all rest)
            end) params)
        match hash return match hash with Some h => Q h | None => True end
        with
        | Some h => hash_expression_ind h
        | None => I
        end
  | HBS.StringLiteral value loc => HString value loc
  | HBS.BooleanLiteral value loc => HBoolean value loc
  | HBS.NumberLiteral value loc => HNumber value loc
  | HBS.UndefinedLiteral loc => HUndefined loc
  | HBS.NullLiteral loc => HNull loc
  end
with hash_expression_ind (h : HBS.Hash) : Q h :=
  match h with
  | HBS.MkHash pairs loc =>
      HHash pairs loc
        ((fix all (l : list HBS.HashPair)
            : Forall (fun entry => P (cst_pair_value entry)) l :=
            match l with
            | [] => Forall_nil _
            | entry :: rest =>
                Forall_cons entry
                  match entry return P (cst_pair_value entry) with
                  | HBS.MkHashPair _ value _ => expression_hash_ind value
                  end
                  (all rest)
            end) pairs)
  end.

End ExpressionInduction.

Lemma resolves_bind {A B : Type} (b1 b2 : bool) (m : R A) (k : A -> R B) :
  resolves b1 m -> (forall a, resolves b2 (k a)) ->
  resolves (b1 && b2) (bindR m k).
Proof.
  unfold resolves. intros Hm Hk. destruct b1; cbn [andb].
  - destruct Hm as (a & ->). apply Hk.
  - destruct Hm as (loc & ->). now exists loc.
Qed.

Lemma resolves_Ok {A : Type} (a : A) : resolves true (Ok a : R A).
Proof. now exists a. Qed.

Lemma resolves_if {A : Type} (b b' : bool) (r : R A) :
  b = b' -> resolves b r -> resolves b' r.
Proof. now intros ->. Qed.

Lemma resolves_mapR {A B : Type} (b : A -> bool) (f : A -> R B)
  (l : list A) :
  Forall (fun x => resolves (b x) (f x)) l ->
  resolves (forallb b l) (mapR f l).
Proof.
  induction 1 as [|x l Hx Hl IH]; cbn [forallb mapR].
  - apply resolves_Ok.
  - apply resolves_bind; [exact Hx|]. intros y.
    eapply resolves_if; [apply andb_true_r|].
    apply resolves_bind; [exact IH|]. intros ys. apply resolves_Ok.
Qed.

Lemma resolves_PathExpression (original : string) (parts : list string)
  (data : bool) (loc : HBS.SourceLocation) :
  resolves (path_named original parts data)
    (PathExpression original parts data loc).
Proof.
  unfold path_named, PathExpression.
  destruct (JsString.matches_this original); [apply resolves_Ok|].
  destruct data; cbn [negb orb].
  - destruct (path_segments original parts); [|apply resolves_Ok].
    now exists (ASTv1.spanFor loc).
  - destruct (path_segments original parts); apply resolves_Ok.
Qed.

Lemma resolves_acceptNode_and_Hash :
  (forall e, resolves (expression_named e) (acceptNode e)) /\
  (forall h, resolves (hash_named h) (Hash h)).
Proof.
  assert (HHash : forall pairs loc,
             Forall (fun entry =>
                       resolves (expression_named (cst_pair_value entry))
                         (acceptNode (cst_pair_value entry))) pairs ->
             resolves (hash_named (HBS.MkHash pairs loc))
               (Hash (HBS.MkHash pairs loc))).
  { intros pairs loc Hpairs. cbn [Hash hash_named].
    eapply resolves_if; [apply andb_true_r|].
    apply resolves_bind; [|intros ?; apply resolves_Ok].
    apply resolves_mapR. revert Hpairs. apply Forall_impl.
    intros [key value l] Hv. cbn [HashPair pair_named cst_pair_value] in *.
    eapply resolves_if; [apply andb_true_r|].
    apply resolves_bind; [exact Hv|intros ?; apply resolves_Ok]. }
  assert (H : forall e, resolves (expression_named e) (acceptNode e)).
  { apply (expression_hash_ind
             (fun e => resolves (expression_named e) (acceptNode e))
             (fun h => resolves (hash_named h) (Hash h)));
      try (intros; apply resolves_Ok); [| |exact HHash].
    - intros. apply resolves_PathExpression.
    - intros path params hash loc Hpath Hparams Hhash.
      cbn [acceptNode expression_named]. unfold acceptCallNodes_with.
      eapply resolves_if;
        [|apply resolves_bind;
          [apply resolves_bind;
           [exact Hpath|
            intros ?; apply resolves_bind;
            [apply resolves_mapR; exact Hparams|
             intros ?; apply (resolves_bind (optional_hash_named hash) true);
             [|intros ?; apply resolves_Ok]]]|
           intros [[? ?] ?]; apply resolves_Ok]].
      + unfold optional_hash_named.
        rewrite ?andb_true_r, ?andb_assoc. reflexivity.
      + destruct hash as [h|]; [exact Hhash|apply resolves_Ok]. }
  split; [exact H|].
  intros [pairs loc]. apply HHash, Forall_forall. intros entry _. apply H.
Qed.

(** X7.  Translating an expression returns exactly when no path of it is
    written with [@] and without a name; otherwise it throws the syntax
    error of such a path, and no other error. *)
Theorem acceptNode_returns_or_rejects_unnamed_at (e : HBS.Expression) :
  (expression_named e = true -> exists e', acceptNode e = Ok e') /\
  (expression_named e = false ->
   exists loc, acceptNode e = Throw (SyntaxError invalidAtPath loc)).
Proof.
  pose proof (proj1 resolves_acceptNode_and_Hash e) as H.
  unfold resolves in H.
  destruct (expression_named e); split; try discriminate; now intros _.
Qed.

Lemma acceptNode_returns_or_rejects_unnamed_at_witness :
  (exists e', acceptNode Demo.namedCall = Ok e') /\
  (exists loc, acceptNode Demo.unnamedCall = Throw (SyntaxError invalidAtPath loc)).
Proof.
  split.
  - exact (proj1 (acceptNode_returns_or_rejects_unnamed_at Demo.namedCall) eq_refl).
  - exact (proj2 (acceptNode_returns_or_rejects_unnamed_at Demo.unnamedCall)
             eq_refl).
Defined.

(** X8.  A translated expression is at the location of its CST node, and it
    is a literal exactly when the CST node is one. *)
Theorem acceptNode_keeps_location_and_kind (e : HBS.Expression)
  (e' : ASTv1.Expression) :
  acceptNode e = Ok e' ->
  ASTv1.expression_loc e' = HBS.expression_loc e /\
  ASTv1.isLiteral e' = isHBSLiteral e.
Proof.
  intros H. split; [now apply acceptNode_loc|].
  destruct e; cbn [acceptNode isHBSLiteral] in *;
    try (injection H as <-; reflexivity).
  - unfold PathExpression in H.
    destruct (JsString.matches_this original);
      [|destruct data, (path_segments original parts)];
      try discriminate; now injection H as <-.
  - apply bindR_ok in H. destruct H as ([[p ps] h] & _ & H).
    now injection H as <-.
Qed.

Lemma acceptNode_keeps_location_and_kind_witness :
  ASTv1.expression_loc
    (ASTv1.PathExpression "this.foo" (ASTv1.ThisHead (head_loc Demo.fooLoc 4))
       ["foo"] Demo.fooLoc) = Demo.fooLoc /\
  ASTv1.isLiteral
    (ASTv1.PathExpression "this.foo" (ASTv1.ThisHead (head_loc Demo.fooLoc 4))
       ["foo"] Demo.fooLoc) = false.
Proof.
  exact (acceptNode_keeps_location_and_kind
           (HBS.PathExpression "this.foo" ["foo"] false Demo.fooLoc) _
           eq_refl).
Defined.

Lemma mapR_Forall2 {A B : Type} (f : A -> R B) (l : list A) (ys : list B) :
  mapR f l = Ok ys -> Forall2 (fun x y => f x = Ok y) l ys.
Proof.
  revert ys. induction l as [|x l IH]; intros ys H; cbn [mapR] in H.
  - injection H as <-. constructor.
  - apply bindR_ok in H. destruct H as (y & Hy & H).
    apply bindR_ok in H. destruct H as (ys' & Hys & H).
    injection H as <-. constructor; [exact Hy|now apply IH].
Qed.

(** X9.  The pairs of a translated hash are those of the CST hash, one for
    one and in the same order, with the same keys (equal keys are kept) and
    the same locations, each value being the translation of the CST value;
    the hash is at the location of the CST hash. *)
Theorem Hash_keeps_pairs (pairs : list HBS.HashPair)
  (loc : HBS.SourceLocation) (hash' : ASTv1.Hash) :
  Hash (HBS.MkHash pairs loc) = Ok hash' ->
  ASTv1.hash_loc hash' = ASTv1.spanFor loc /\
  List.map pair_key (ASTv1.hash_pairs hash') = List.map cst_pair_key pairs /\
  List.map pair_loc (ASTv1.hash_pairs hash') = List.map cst_pair_loc pairs /\
  Forall2 (fun entry entry' =>
             acceptNode (cst_pair_value entry) = Ok (translated_value entry'))
    pairs (ASTv1.hash_pairs hash').
Proof.
  cbn [Hash]. intros H. apply bindR_ok in H. destruct H as (ps & Hps & H).
  injection H as <-. cbn [ASTv1.hash_loc ASTv1.hash_pairs].
  split; [reflexivity|]. apply mapR_Forall2 in Hps.
  induction Hps as [|entry entry' pairs ps Hpair _ IH].
  - repeat split. constructor.
  - destruct IH as (IHk & IHl & IHv). destruct entry as [key value l].
    cbn [HashPair] in Hpair. apply bindR_ok in Hpair.
    destruct Hpair as (v & Hv & Hpair). injection Hpair as <-.
    cbn [List.map pair_key pair_loc cst_pair_key cst_pair_loc].
    rewrite IHk, IHl. repeat split. constructor; [exact Hv|exact IHv].
Qed.

Lemma Hash_keeps_pairs_witness :
  exists hash',
    Hash (HBS.MkHash Demo.twoPairs Demo.fooLoc) = Ok hash' /\
    List.map pair_key (ASTv1.hash_pairs hash') = ["a"; "a"].
Proof.
  eexists. split; [reflexivity|].
  exact (proj1 (proj2 (Hash_keeps_pairs Demo.twoPairs Demo.fooLoc _ eq_refl))).
Defined.

Lemma mapR_locs (params : list HBS.Expression)
  (params' : list ASTv1.Expression) :
  mapR acceptNode params = Ok params' ->
  List.map ASTv1.expression_loc params' =
    List.map HBS.expression_loc params.
Proof.
  intros H. apply mapR_Forall2 in H.
  induction H as [|param param' params params' Hparam _ IH]; [reflexivity|].
  cbn [List.map]. now rewrite IH, (acceptNode_loc param param' Hparam).
Qed.

Lemma Hash_keys (pairs : list HBS.HashPair) (loc : HBS.SourceLocation)
  (hash' : ASTv1.Hash) :
  Hash (HBS.MkHash pairs loc) = Ok hash' ->
  ASTv1.hash_loc hash' = ASTv1.spanFor loc /\
  List.map pair_key (ASTv1.hash_pairs hash') = List.map cst_pair_key pairs.
Proof.
  cbn [Hash]. intros H. apply bindR_ok in H. destruct H as (ps & Hps & H).
  injection H as <-. cbn [ASTv1.hash_loc ASTv1.hash_pairs].
  split; [reflexivity|]. apply mapR_Forall2 in Hps.
  induction Hps as [|entry entry' pairs ps Hentry _ IH]; [reflexivity|].
  destruct entry as [key value l]. cbn [HashPair] in Hentry.
  apply bindR_ok in Hentry. destruct Hentry as (v & _ & Hentry).
  injection Hentry as <-. cbn [List.map pair_key cst_pair_key].
  now rewrite IH.
Qed.

Lemma resolves_acceptCallNodes (path : HBS.Expression)
  (params : list HBS.Expression) (hash : option HBS.Hash) :
  resolves
    (expression_named path && forallb expression_named params &&
     optional_hash_named hash)
    (acceptCallNodes path params hash).
Proof.
  destruct resolves_acceptNode_and_Hash as [Hnode Hhash].
  unfold acceptCallNodes, acceptCallNodes_with.
  eapply resolves_if;
    [|apply resolves_bind;
      [apply Hnode|
       intros ?; apply resolves_bind;
       [apply resolves_mapR, Forall_forall; intros param _; apply Hnode|
        intros ?; apply (resolves_bind (optional_hash_named hash) true);
        [|intros ?; apply resolves_Ok]]]].
  - rewrite ?andb_true_r, ?andb_assoc. reflexivity.
  - destruct hash as [h|]; [apply Hhash|apply resolves_Ok].
Qed.

(** X10.  [acceptCallNodes] returns exactly when the call path, every
    parameter and the hash resolve, that is when no path in them, at any
    depth, is written with [@] and without a name; otherwise it throws the
    syntax error of such a path, and no other error.  What it returns has
    the shape of the call: the path keeps its location, there is one
    parameter for each parameter of the CST, in the same order and with the
    same locations, and the hash, when the CST has one, keeps its location
    and its keys in their order. *)
Theorem acceptCallNodes_returns_iff_parts_resolve (path : HBS.Expression)
  (params : list HBS.Expression) (hash : option HBS.Hash) :
  let resolved :=
    expression_named path && forallb expression_named params &&
    optional_hash_named hash in
  (resolved = true ->
   exists path' params' hash',
     acceptCallNodes path params hash = Ok (path', params', hash') /\
     ASTv1.expression_loc path' = HBS.expression_loc path /\
     List.map ASTv1.expression_loc params' =
       List.map HBS.expression_loc params /\
     (forall pairs loc,
        hash = Some (HBS.MkHash pairs loc) ->
        ASTv1.hash_loc hash' = ASTv1.spanFor loc /\
        List.map pair_key (ASTv1.hash_pairs hash') =
          List.map cst_pair_key pairs)) /\
  (resolved = false ->
   exists loc,
     acceptCallNodes path params hash =
       Throw (SyntaxError invalidAtPath loc)).
Proof.
  cbv zeta. pose proof (resolves_acceptCallNodes path params hash) as H.
  unfold resolves in H.
  destruct (expression_named path && forallb expression_named params &&
            optional_hash_named hash);
    (split; [|intros E; try discriminate E; exact H]);
    [|discriminate].
  intros _. destruct H as ([[path' params'] hash'] & H).
  exists path', params', hash'. split; [exact H|].
  unfold acceptCallNodes, acceptCallNodes_with in H.
  apply bindR_ok in H. destruct H as (p & Hp & H).
  apply bindR_ok in H. destruct H as (ps & Hps & H).
  apply bindR_ok in H. destruct H as (h' & Hh & H).
  injection H as <- <- <-.
  split; [now apply acceptNode_loc|]. split; [now apply mapR_locs|].
  intros pairs loc ->. now apply Hash_keys.
Qed.

Lemma acceptCallNodes_returns_iff_parts_resolve_witness :
  (exists path' params' hash',
     acceptCallNodes Demo.helperPath [Demo.namedCall]
       (Some (HBS.MkHash Demo.twoPairs Demo.fooLoc)) =
       Ok (path', params', hash') /\
     List.map ASTv1.expression_loc params' = [Demo.fooLoc] /\
     List.map pair_key (ASTv1.hash_pairs hash') = ["a"; "a"]) /\
  (exists loc,
     acceptCallNodes Demo.helperPath [Demo.unnamedCall] None =
       Throw (SyntaxError invalidAtPath loc)).
Proof.
  split.
  - destruct (proj1 (acceptCallNodes_returns_iff_parts_resolve
                       Demo.helperPath [Demo.namedCall]
                       (Some (HBS.MkHash Demo.twoPairs Demo.fooLoc)))
                eq_refl)
      as (path' & params' & hash' & E & _ & Hlocs & Hhash).
    exists path', params', hash'. split; [exact E|]. split; [exact Hlocs|].
    exact (proj2 (Hhash Demo.twoPairs Demo.fooLoc eq_refl)).
  - exact (proj2 (acceptCallNodes_returns_iff_parts_resolve
                    Demo.helperPath [Demo.unnamedCall] None) eq_refl).
Defined.

End ExpressionFacts.

(** ** Statements by tokenizer state *)

Module StatementFacts.

Import HandlebarsNodeVisitors Spec InjectFacts ProgramFacts.

Section Statements.

Context {collaborators : Collaborators}.

Lemma bind_lift_Ok {A B : Type} (r : R A) (a : A) (k : A -> V B)
  (p : Parser.t) :
  r = Ok a -> bind (lift r) k p = k a p.
Proof. now intros ->. Qed.

Lemma bind_lift_Throw {A B : Type} (r : R A) (e : Error) (k : A -> V B)
  (p : Parser.t) :
  r = Throw e -> bind (lift r) k p = Throw e.
Proof. now intros ->. Qed.

Lemma visitAll_cons (s : HBS.Statement) (rest : list HBS.Statement)
  (p : Parser.t) :
  visitAll (s :: rest) p =
    match acceptStatement s p with
    | Ok (_, p') => visitAll rest p'
    | Throw e => Throw e
    end.
Proof. reflexivity. Qed.

(** The statements of a body are visited in document order, each in the
    parser state the one before it left; the first error ends the visit. *)
Lemma visitAll_app (first rest : list HBS.Statement)
  (p : Parser.t) :
  (forall e, visitAll first p = Throw e ->
             visitAll (first ++ rest)%list p = Throw e) /\
  (forall p', visitAll first p = Ok (tt, p') ->
              visitAll (first ++ rest)%list p = visitAll rest p').
Proof.
  revert p. induction first as [|s first IH]; intros p.
  - split; [discriminate|]. now intros p' [= <-].
  - cbn [app]. rewrite !visitAll_cons.
    destruct (acceptStatement s p) as [[a p1]|e1].
    + apply IH.
    + split; [now intros e [= <-]|discriminate].
Qed.

(** X12.  Inside an HTML comment a mustache, a decorator, a block, a decorator
    block and a Handlebars comment give no node: the source text of the
    statement is appended to the data of the comment.  What the statement
    holds is not looked at: its path, parameters and programs are not
    translated. *)
Theorem statement_inside_an_HTML_comment (s : HBS.Statement) (p : Parser.t) :
  commentable s = true ->
  Parser.state (Parser.tokenizer p) = Parser.comment ->
  acceptStatement s p =
    (appendToCommentData (sourceForNode (HBS.statement_loc s)) ;; ret None) p.
Proof.
  intros Hs Hstate. destruct s; try discriminate Hs; cbn [acceptStatement];
    unfold MustacheStatement, Decorator, MustacheStatement_as,
      BlockStatement_with, CommentStatement;
    rewrite bind_gets, Hstate; reflexivity.
Qed.

(** X13.  A block or a decorator block met while the tokenizer is neither in
    text nor in an HTML comment (so inside a tag or an attribute) is
    rejected with a syntax error at the location of the block, whatever the
    block holds. *)
Theorem block_outside_text_is_rejected (s : HBS.Statement) (p : Parser.t) :
  is_block s = true ->
  Parser.state (Parser.tokenizer p) <> Parser.comment ->
  Parser.state (Parser.tokenizer p) <> Parser.data ->
  Parser.state (Parser.tokenizer p) <> Parser.beforeData ->
  acceptStatement s p =
    Throw (SyntaxError
             "A block may only be used inside an HTML element or another block."
             (ASTv1.spanFor (HBS.statement_loc s))).
Proof.
  intros Hs Hc Hd Hb. destruct s; try discriminate Hs; cbn [acceptStatement];
    unfold BlockStatement_with; rewrite bind_gets;
    destruct (Parser.state (Parser.tokenizer p)); try congruence; reflexivity.
Qed.

(** X14.  Where a Handlebars comment goes.  Between the attributes of a start
    tag it is appended to the comments of the tag, and nothing else of the
    parser changes; in text it becomes the last child of the current
    element; in every other state but an HTML comment (a tag name, an
    attribute name or value, ...) it is a syntax error that names the
    state. *)
Theorem CommentStatement_by_state (value : string)
  (loc : HBS.SourceLocation) (p : Parser.t) :
  let state := Parser.state (Parser.tokenizer p) in
  let node := ASTv1.MustacheCommentStatement value (ASTv1.spanFor loc) in
  (state = Parser.beforeAttributeName \/ state = Parser.afterAttributeName ->
   forall tag,
     Parser.currentStartTag p = Some tag ->
     CommentStatement value loc p =
       Ok (Some node, Parser.with_tag (Some (withComment node tag)) p)) /\
  (state = Parser.beforeData \/ state = Parser.data ->
   forall top rest,
     Parser.elementStack p = top :: rest ->
     CommentStatement value loc p =
       Ok (Some node, Parser.with_stack (appendChild top node :: rest) p)) /\
  (state <> Parser.comment ->
   state <> Parser.beforeAttributeName ->
   state <> Parser.afterAttributeName ->
   state <> Parser.beforeData -> state <> Parser.data ->
   CommentStatement value loc p =
     Throw (SyntaxError
              ("Using a Handlebars comment when in the `"
               ++ Parser.state_name state ++ "` state is not supported")
              (ASTv1.spanFor loc))).
Proof.
  cbv zeta. unfold CommentStatement. rewrite bind_gets.
  split; [|split].
  - intros Hstate [name attrs mods cmts sc l] Htag.
    assert (H : pushTagComment
                  (ASTv1.MustacheCommentStatement value (ASTv1.spanFor loc)) p =
                Ok (tt, Parser.with_tag
                          (Some (withComment
                                   (ASTv1.MustacheCommentStatement value
                                      (ASTv1.spanFor loc))
                                   (Parser.MkStartTag name attrs mods cmts sc
                                      l))) p)).
    { unfold pushTagComment. now rewrite Htag. }
    destruct Hstate as [-> | ->]; unfold bind; now rewrite H.
  - intros Hstate top rest Hstack.
    assert (H : appendToCurrentElement
                  (ASTv1.MustacheCommentStatement value (ASTv1.spanFor loc)) p =
                Ok (tt, Parser.with_stack
                          (appendChild top
                             (ASTv1.MustacheCommentStatement value
                                (ASTv1.spanFor loc)) :: rest) p)).
    { unfold appendToCurrentElement. now rewrite Hstack. }
    destruct Hstate as [-> | ->]; unfold bind; now rewrite H.
  - intros. destruct (Parser.state (Parser.tokenizer p));
      try congruence; reflexivity.
Qed.

(** X15.  A partial has no case for HTML comments: inside one, its name,
    parameters and hash are translated as anywhere else, and the node
    becomes the last child of the current element; nothing is appended to
    the data of the comment. *)
Theorem PartialStatement_inside_an_HTML_comment (name : HBS.Expression)
  (params : list HBS.Expression) (hash : option HBS.Hash)
  (strip : HBS.StripFlags) (indent : string) (loc : HBS.SourceLocation)
  (p : Parser.t) (name' : ASTv1.Expression) (params' : list ASTv1.Expression)
  (hash' : ASTv1.Hash) (top : Parser.Parent) (rest : list Parser.Parent) :
  Parser.state (Parser.tokenizer p) = Parser.comment ->
  acceptCallNodes name params hash = Ok (name', params', hash') ->
  Parser.elementStack p = top :: rest ->
  PartialStatement name params hash strip indent loc p =
    let node :=
      ASTv1.PartialStatement name' params' hash' strip indent
        (ASTv1.spanFor loc) in
    Ok (Some node, Parser.with_stack (appendChild top node :: rest) p).
Proof.
  intros Hstate Hcall Hstack. unfold PartialStatement.
  rewrite (bind_lift_Ok _ _ _ _ Hcall). cbv zeta.
  unfold bind at 1, _injectStatement. rewrite bind_gets, Hstate.
  unfold appendToCurrentElement. now rewrite Hstack.
Qed.

(** X16.  A block in text whose programs are empty and came without a
    location: each program is given the location that stands for none
    before it is visited, so the translation does not fail on it; each
    becomes an empty block (not a template: the stack is not empty), and
    the block statement becomes the last child of the current element.  The
    element stack is otherwise as it was. *)
Theorem BlockStatement_of_empty_programs (type : ASTv1.BlockType)
  (path : HBS.Expression) (params : list HBS.Expression)
  (hash : option HBS.Hash) (program : list string * bool)
  (inverse : option (list string * bool))
  (openStrip inverseStrip closeStrip : HBS.StripFlags)
  (loc : HBS.SourceLocation) (p : Parser.t) (path' : ASTv1.Expression)
  (params' : list ASTv1.Expression) (hash' : ASTv1.Hash)
  (top : Parser.Parent) (rest : list Parser.Parent) :
  Parser.state (Parser.tokenizer p) = Parser.data \/
  Parser.state (Parser.tokenizer p) = Parser.beforeData ->
  acceptCallNodes path params hash = Ok (path', params', hash') ->
  Parser.elementStack p = top :: rest ->
  BlockStatement_with ProgramFrom type path params hash
    (emptyProgram program) (option_map emptyProgram inverse)
    openStrip inverseStrip closeStrip loc p =
    let node :=
      ASTv1.BlockStatement type path' params' hash' (emptyBlock program)
        (option_map emptyBlock inverse) (ASTv1.spanFor loc)
        openStrip inverseStrip closeStrip in
    Ok (Some node,
        Parser.with_stack (appendChild top node :: rest)
          (Parser.with_nextRef
             (Parser.nextRef p + match inverse with Some _ => 2 | None => 1 end)
             p)).
Proof.
  intros Hstate Hcall Hstack.
  assert (Hprogram : forall shape q,
             Parser.elementStack q = top :: rest ->
             ProgramFrom (Some ASTv1.NON_EXISTENT_LOCATION)
               (emptyProgram shape) q =
               Ok (emptyBlock shape,
                   Parser.with_nextRef (S (Parser.nextRef q)) q)).
  { intros shape q Hq. unfold emptyProgram. cbn [ProgramFrom programLoc].
    unfold bind at 1, gets, isTopLevel. rewrite Hq.
    destruct q as [stack attr tag tok next]. cbn in Hq. subst stack.
    reflexivity. }
  unfold BlockStatement_with. rewrite bind_gets.
  assert (Hrun :
            (r <- lift (acceptCallNodes path params hash) ;;
             let '(path', params', hash') := r in
             program' <- ProgramFrom (Some ASTv1.NON_EXISTENT_LOCATION)
                           (emptyProgram program) ;;
             inverse' <- match option_map emptyProgram inverse with
                         | Some i =>
                             b <- ProgramFrom
                                    (Some ASTv1.NON_EXISTENT_LOCATION) i ;;
                             ret (Some b)
                         | None => ret None
                         end ;;
             let node :=
               ASTv1.BlockStatement type path' params' hash' program' inverse'
                 (ASTv1.spanFor loc) openStrip inverseStrip closeStrip in
             appendToCurrentElement node ;;
             ret (Some node)) p =
            Ok (Some
                  (ASTv1.BlockStatement type path' params' hash'
                     (emptyBlock program) (option_map emptyBlock inverse)
                     (ASTv1.spanFor loc) openStrip inverseStrip closeStrip),
                Parser.with_stack
                  (appendChild top
                     (ASTv1.BlockStatement type path' params' hash'
                        (emptyBlock program) (option_map emptyBlock inverse)
                        (ASTv1.spanFor loc) openStrip inverseStrip closeStrip)
                   :: rest)
                  (Parser.with_nextRef
                     (Parser.nextRef p +
                      match inverse with Some _ => 2 | None => 1 end) p))).
  { rewrite (bind_lift_Ok _ _ _ _ Hcall).
    rewrite (bind_returns _ _ _ _ _ (Hprogram program p Hstack)).
    destruct inverse as [shape|]; cbn [option_map].
    - unfold bind at 1. unfold bind at 1.
      rewrite (Hprogram shape
                 (Parser.with_nextRef (S (Parser.nextRef p)) p) Hstack).
      unfold ret at 1.
      unfold bind, appendToCurrentElement, ret. cbn [Parser.elementStack
        Parser.with_nextRef]. rewrite Hstack.
      replace (Parser.nextRef p + 2) with (S (S (Parser.nextRef p))) by lia.
      reflexivity.
    - unfold bind at 1, ret at 1.
      unfold bind, appendToCurrentElement, ret. cbn [Parser.elementStack
        Parser.with_nextRef]. rewrite Hstack.
      replace (Parser.nextRef p + 1) with (S (Parser.nextRef p)) by lia.
      reflexivity. }
  cbv zeta. destruct Hstate as [Hstate|Hstate]; rewrite Hstate; exact Hrun.
Qed.

(** X17.  A dynamic node injected while an attribute value is read: the text
    that was pending in the attribute becomes a part first, then the node,
    so that the parts keep the order of the source; no text is pending
    afterwards, the attribute is marked dynamic, and nothing else of the
    parser changes. *)
Theorem injectStatement_into_attribute_value (node : ASTv1.Statement)
  (p : Parser.t) (attr : Parser.Attribute) :
  Parser.state (Parser.tokenizer p) = Parser.attributeValueDoubleQuoted \/
  Parser.state (Parser.tokenizer p) = Parser.attributeValueSingleQuoted \/
  Parser.state (Parser.tokenizer p) = Parser.attributeValueUnquoted ->
  Parser.currentAttr p = Some attr ->
  _injectStatement node p =
    Ok (tt,
        Parser.with_attr
          (Some (Parser.MkAttribute (Parser.attr_name attr)
                   (Parser.parts attr ++ pendingText attr ++ [node])%list
                   None (Parser.isQuoted attr) true)) p).
Proof.
  intros Hstate Hattr. unfold _injectStatement. rewrite bind_gets.
  assert (H : appendDynamicAttributeValuePart node p =
              Ok (tt,
                  Parser.with_attr
                    (Some (Parser.MkAttribute (Parser.attr_name attr)
                             (Parser.parts attr ++ pendingText attr ++ [node])%list
                             None (Parser.isQuoted attr) true)) p)).
  { unfold appendDynamicAttributeValuePart. rewrite Hattr.
    unfold finalizeTextPart, pendingText.
    destruct attr as [name parts [text|] quoted dynamic]; cbn;
      rewrite <- ?app_assoc; reflexivity. }
  destruct Hstate as [-> |[-> | ->]]; exact H.
Qed.

End Statements.

(** X18.  Finishing the pending text of an attribute moves it to the end of
    the parts and leaves no text pending; doing it again changes nothing. *)
Theorem finalizeTextPart_leaves_nothing_pending (attr : Parser.Attribute) :
  Parser.parts (finalizeTextPart attr) =
    (Parser.parts attr ++ pendingText attr)%list /\
  Parser.currentPart (finalizeTextPart attr) = None /\
  finalizeTextPart (finalizeTextPart attr) = finalizeTextPart attr.
Proof.
  destruct attr as [name parts [text|] quoted dynamic];
    unfold finalizeTextPart, pendingText; cbn;
    rewrite ?app_nil_r; repeat split.
Qed.

Lemma statement_inside_an_HTML_comment_witness :
  acceptStatement (collaborators := Demo.demo) Demo.unnamedMustache
    (Demo.inTag Parser.comment) = Ok (None, Demo.inTag Parser.comment).
Proof.
  exact (statement_inside_an_HTML_comment (collaborators := Demo.demo)
           Demo.unnamedMustache (Demo.inTag Parser.comment) eq_refl eq_refl).
Defined.

Lemma block_outside_text_is_rejected_witness :
  acceptStatement (collaborators := Demo.demo) Demo.emptyBlockStatement
    (Demo.inTag Parser.beforeAttributeName) =
  Throw (SyntaxError
           "A block may only be used inside an HTML element or another block."
           Demo.mustacheLoc).
Proof.
  apply (block_outside_text_is_rejected (collaborators := Demo.demo)
           Demo.emptyBlockStatement (Demo.inTag Parser.beforeAttributeName));
    [reflexivity|discriminate|discriminate|discriminate].
Defined.

Lemma PartialStatement_inside_an_HTML_comment_witness :
  exists node p',
    PartialStatement (collaborators := Demo.demo) Demo.helperPath [] None
      Demo.noStrip EmptyString Demo.mustacheLoc (Demo.inTag Parser.comment) =
      Ok (Some node, p') /\
    Parser.elementStack p' =
      [Parser.BodyParent 0 (ASTv1.Template [node] [] Demo.origin)].
Proof.
  eexists. eexists. split.
  - exact (PartialStatement_inside_an_HTML_comment (collaborators := Demo.demo)
             Demo.helperPath [] None Demo.noStrip EmptyString
             Demo.mustacheLoc (Demo.inTag Parser.comment) _ _ _ _ _
             eq_refl eq_refl eq_refl).
  - reflexivity.
Defined.

Lemma BlockStatement_of_empty_programs_witness :
  exists node p',
    acceptStatement (collaborators := Demo.demo) Demo.emptyBlockStatement
      Demo.inTemplate = Ok (Some node, p') /\
    Parser.elementStack p' =
      [Parser.BodyParent 0 (ASTv1.Template [node] [] Demo.origin)] /\
    Parser.nextRef p' = 2.
Proof.
  eexists. eexists. split; [|split].
  - exact (BlockStatement_of_empty_programs (collaborators := Demo.demo)
             ASTv1.BlockStatementType Demo.helperPath [] None ([], false)
             None Demo.noStrip Demo.noStrip Demo.noStrip Demo.mustacheLoc
             Demo.inTemplate _ _ _ _ _ (or_introl eq_refl) eq_refl eq_refl).
  - reflexivity.
  - reflexivity.
Defined.

Lemma injectStatement_into_attribute_value_witness :
  exists p',
    _injectStatement (collaborators := Demo.demo) Demo.modNode Demo.inValue =
      Ok (tt, p') /\
    option_map Parser.parts (Parser.currentAttr p') =
      Some [ASTv1.TextNode "a" Demo.origin; Demo.modNode].
Proof.
  eexists. split.
  - exact (injectStatement_into_attribute_value (collaborators := Demo.demo)
             Demo.modNode Demo.inValue Demo.pendingA (or_introl eq_refl)
             eq_refl).
  - reflexivity.
Defined.

End StatementFacts.

(** ** Bodies of plain statements *)

Module BodyFacts.

Import HandlebarsNodeVisitors Spec InjectFacts ProgramFacts StatementFacts.

Section PlainBodies.

Context {collaborators : Collaborators}.

Lemma inject_in_text (node : ASTv1.Statement) (p : Parser.t)
  (top : Parser.Parent) (rest : list Parser.Parent) :
  Parser.state (Parser.tokenizer p) = Parser.data \/
  Parser.state (Parser.tokenizer p) = Parser.beforeData ->
  Parser.elementStack p = top :: rest ->
  _injectStatement node p =
    Ok (tt, Parser.with_stack (appendChild top node :: rest) p).
Proof.
  intros Hstate Hstack. unfold _injectStatement. rewrite bind_gets.
  assert (H : appendToCurrentElement node p =
              Ok (tt, Parser.with_stack (appendChild top node :: rest) p)).
  { unfold appendToCurrentElement. now rewrite Hstack. }
  destruct Hstate as [-> | ->]; exact H.
Qed.

(** In text, a plain statement becomes the last child of the current
    element. *)
Lemma plain_statement_in_text (s : HBS.Statement) (node : ASTv1.Statement)
  (p : Parser.t) (top : Parser.Parent) (rest : list Parser.Parent) :
  plain s node ->
  Parser.state (Parser.tokenizer p) = Parser.data \/
  Parser.state (Parser.tokenizer p) = Parser.beforeData ->
  Parser.elementStack p = top :: rest ->
  acceptStatement s p =
    Ok (Some node, Parser.with_stack (appendChild top node :: rest) p).
Proof.
  unfold plain. intros Hplain Hstate Hstack.
  pose proof (inject_in_text node p top rest Hstate Hstack) as Hinject.
  destruct s; try discriminate Hplain; cbn [plainNode] in Hplain;
    injection Hplain as Hnode; cbn [acceptStatement].
  - unfold MustacheStatement, MustacheStatement_as. rewrite bind_gets.
    assert (H : (mustache <- lift (buildMustache ASTv1.MustacheStatementType
                                      path params hash escaped strip loc) ;;
                 _injectStatement mustache ;; ret (Some mustache)) p =
                Ok (Some node,
                    Parser.with_stack (appendChild top node :: rest) p)).
    { rewrite (bind_lift_Ok _ _ _ _ Hnode). unfold bind. now rewrite Hinject. }
    destruct Hstate as [-> | ->]; exact H.
  - unfold Decorator, MustacheStatement_as. rewrite bind_gets.
    assert (H : (mustache <- lift (buildMustache ASTv1.DecoratorStatementType
                                      path params hash escaped strip loc) ;;
                 _injectStatement mustache ;; ret (Some mustache)) p =
                Ok (Some node,
                    Parser.with_stack (appendChild top node :: rest) p)).
    { rewrite (bind_lift_Ok _ _ _ _ Hnode). unfold bind. now rewrite Hinject. }
    destruct Hstate as [-> | ->]; exact H.
  - unfold PartialStatement.
    destruct (acceptCallNodes name params hash) as [[[name' params'] hash']|e];
      [|discriminate Hnode].
    cbn [bindR] in Hnode. injection Hnode as <-.
    cbv beta iota delta [bind lift]. now rewrite Hinject.
  - subst node. unfold CommentStatement. rewrite bind_gets.
    destruct Hstate as [-> | ->]; unfold bind, appendToCurrentElement;
      now rewrite Hstack.
Qed.

Lemma plain_statements_in_text (body : list HBS.Statement)
  (nodes : list ASTv1.Statement) (p : Parser.t) (top : Parser.Parent)
  (rest : list Parser.Parent) :
  Forall2 plain body nodes ->
  Parser.state (Parser.tokenizer p) = Parser.data \/
  Parser.state (Parser.tokenizer p) = Parser.beforeData ->
  Parser.elementStack p = top :: rest ->
  visitAll body p =
    Ok (tt, Parser.with_stack (appendChildren top nodes :: rest) p).
Proof.
  intros Hall. revert p top.
  induction Hall as [|s node body nodes Hs _ IH]; intros p top Hstate Hstack.
  - cbn [visitAll appendChildren List.fold_left]. unfold ret.
    rewrite <- Hstack. now destruct p.
  - cbn [visitAll]. unfold bind.
    rewrite (plain_statement_in_text s node p top rest Hs Hstate Hstack).
    rewrite (IH (Parser.with_stack (appendChild top node :: rest) p)
               (appendChild top node) Hstate eq_refl).
    reflexivity.
Qed.

Lemma appendChildren_body (ref : nat) (node : ASTv1.Body)
  (nodes : list ASTv1.Statement) :
  ASTv1.body_statements node = [] ->
  exists node',
    appendChildren (Parser.BodyParent ref node) nodes =
      Parser.BodyParent ref node' /\
    ASTv1.body_statements node' = nodes /\
    ASTv1.body_loc node' = ASTv1.body_loc node /\
    (forall blockParams loc,
       node = ASTv1.Template [] blockParams loc ->
       node' = ASTv1.Template nodes blockParams loc) /\
    (forall blockParams chained loc,
       node = ASTv1.Block [] blockParams chained loc ->
       node' = ASTv1.Block nodes blockParams chained loc).
Proof.
  assert (H : forall done,
             (forall blockParams loc,
                appendChildren
                  (Parser.BodyParent ref (ASTv1.Template done blockParams loc))
                  nodes =
                  Parser.BodyParent ref
                    (ASTv1.Template (done ++ nodes)%list blockParams loc)) /\
             (forall blockParams chained loc,
                appendChildren
                  (Parser.BodyParent ref
                     (ASTv1.Block done blockParams chained loc)) nodes =
                  Parser.BodyParent ref
                    (ASTv1.Block (done ++ nodes)%list blockParams chained loc))).
  { induction nodes as [|n nodes IH]; intros done.
    - rewrite app_nil_r. split; reflexivity.
    - unfold appendChildren in *. cbn [List.fold_left appendChild].
      destruct (IH (done ++ [n])%list) as [IHt IHb].
      split; intros; [rewrite IHt|rewrite IHb]; now rewrite <- app_assoc. }
  destruct (H []) as [Ht Hb].
  destruct node as [body blockParams loc|body blockParams chained loc];
    cbn [ASTv1.body_statements]; intros ->.
  - eexists. split; [apply Ht|]. cbn. split; [reflexivity|].
    split; [reflexivity|]. split; [now intros ? ? [= <- <-]|discriminate].
  - eexists. split; [apply Hb|]. cbn. split; [reflexivity|].
    split; [reflexivity|]. split; [discriminate|now intros ? ? ? [= <- <- <-]].
Qed.

(** X19.  A body in text that holds only mustaches, decorators, Handlebars
    comments and partials: [Program] returns the body node with the nodes of
    the statements as its children, one for each statement and in the order
    of the source, and leaves the parser as it found it, but for the
    reference that the body node took.  The tokenizer is not used. *)
Theorem Program_of_plain_statements (body : list HBS.Statement)
  (nodes : list ASTv1.Statement) (blockParams : list string) (chained : bool)
  (loc : HBS.SourceLocation) (p : Parser.t) :
  Forall2 plain body nodes ->
  Parser.state (Parser.tokenizer p) = Parser.data \/
  Parser.state (Parser.tokenizer p) = Parser.beforeData ->
  Program (HBS.MkProgram body blockParams chained (Some loc)) p =
    Ok (if isTopLevel p
        then ASTv1.Template nodes blockParams (ASTv1.spanFor loc)
        else ASTv1.Block nodes blockParams chained (ASTv1.spanFor loc),
        Parser.with_nextRef (S (Parser.nextRef p)) p).
Proof.
  intros Hall Hstate. rewrite Program_unfold. cbv zeta.
  destruct body as [|s body].
  - inversion Hall; subst. unfold entered, bodyNode, bind, pop, asBody, ret.
    cbn. destruct (isTopLevel p), p; reflexivity.
  - assert (Hvisit := plain_statements_in_text (s :: body) nodes
                        (entered (bodyNode blockParams chained loc p) p)
                        (Parser.BodyParent (Parser.nextRef p)
                           (bodyNode blockParams chained loc p))
                        (Parser.elementStack p) Hall Hstate eq_refl).
    rewrite (bind_returns _ _ _ _ _ Hvisit).
    destruct (appendChildren_body (Parser.nextRef p)
                (bodyNode blockParams chained loc p) nodes)
      as (node' & Hnode & _ & _ & Ht & Hb).
    { unfold bodyNode. now destruct (isTopLevel p). }
    rewrite Hnode. unfold bind, pop, unclosed. cbn [Parser.elementStack
      Parser.with_stack]. rewrite Nat.eqb_refl. unfold ret, bodyNode in *.
    destruct (isTopLevel p).
    + rewrite (Ht _ _ eq_refl). now destruct p.
    + rewrite (Hb _ _ _ eq_refl). now destruct p.
Qed.

(** A body that holds only plain statements, in text, or no statement at
    all, in any state. *)
Lemma Program_of_plain_or_empty (body : list HBS.Statement)
  (nodes : list ASTv1.Statement) (blockParams : list string) (chained : bool)
  (loc : HBS.SourceLocation) (p : Parser.t) :
  Forall2 plain body nodes ->
  body = [] \/
  Parser.state (Parser.tokenizer p) = Parser.data \/
  Parser.state (Parser.tokenizer p) = Parser.beforeData ->
  Program (HBS.MkProgram body blockParams chained (Some loc)) p =
    Ok (if isTopLevel p
        then ASTv1.Template nodes blockParams (ASTv1.spanFor loc)
        else ASTv1.Block nodes blockParams chained (ASTv1.spanFor loc),
        Parser.with_nextRef (S (Parser.nextRef p)) p).
Proof.
  intros Hall Hstate. rewrite Program_unfold. cbv zeta.
  destruct body as [|s body].
  - inversion Hall; subst. unfold entered, bodyNode, bind, pop, asBody, ret.
    cbn. destruct (isTopLevel p), p; reflexivity.
  - destruct Hstate as [Hempty|Hstate]; [discriminate Hempty|].
    pose proof (plain_statements_in_text (s :: body) nodes
                  (entered (bodyNode blockParams chained loc p) p)
                  (Parser.BodyParent (Parser.nextRef p)
                     (bodyNode blockParams chained loc p))
                  (Parser.elementStack p) Hall Hstate eq_refl) as Hvisit.
    rewrite (bind_returns _ _ _ _ _ Hvisit).
    destruct (appendChildren_body (Parser.nextRef p)
                (bodyNode blockParams chained loc p) nodes)
      as (node' & Hnode & _ & _ & Ht & Hb);
      [unfold bodyNode; now destruct (isTopLevel p)|].
    rewrite Hnode. unfold bind, pop, unclosed.
    cbn [Parser.elementStack Parser.with_stack].
    rewrite Nat.eqb_refl. unfold ret, bodyNode in *.
    destruct (isTopLevel p);
      [rewrite (Ht _ _ eq_refl)|rewrite (Hb _ _ _ eq_refl)];
      now destruct p.
Qed.

(** X11.  The body stops at its first error.  When the statements before a
    statement [s] of a body in text are plain statements, they have become
    the children of the body node, in their order, when [s] is visited; and
    when [s] throws in that state, [Program] throws that error: the
    statements after [s] are not visited, whatever they are, and no check of
    the element stack is made. *)
Theorem Program_stops_at_the_first_error (first : list HBS.Statement)
  (nodes : list ASTv1.Statement) (s : HBS.Statement)
  (rest : list HBS.Statement) (blockParams : list string) (chained : bool)
  (loc : HBS.SourceLocation) (p : Parser.t) (e : Error) :
  Forall2 plain first nodes ->
  Parser.state (Parser.tokenizer p) = Parser.data \/
  Parser.state (Parser.tokenizer p) = Parser.beforeData ->
  acceptStatement s (visited nodes (bodyNode blockParams chained loc p) p) =
    Throw e ->
  Program
    (HBS.MkProgram (first ++ s :: rest)%list blockParams chained (Some loc))
    p = Throw e.
Proof.
  intros Hall Hstate Hs. rewrite Program_unfold. cbv zeta.
  pose proof (plain_statements_in_text first nodes
                (entered (bodyNode blockParams chained loc p) p)
                (Parser.BodyParent (Parser.nextRef p)
                   (bodyNode blockParams chained loc p))
                (Parser.elementStack p) Hall Hstate eq_refl) as Hfirst.
  assert (Hvisit :
            visitAll (first ++ s :: rest)%list
              (entered (bodyNode blockParams chained loc p) p) = Throw e).
  { rewrite (proj2 (visitAll_app first (s :: rest) _) _ Hfirst).
    rewrite visitAll_cons.
    change (Parser.with_stack _ (entered _ p))
      with (visited nodes (bodyNode blockParams chained loc p) p).
    now rewrite Hs. }
  destruct (first ++ s :: rest)%list as [|x body] eqn:E.
  - now destruct first.
  - now apply bind_throw.
Qed.

(** X20.  A partial block makes no check of the tokenizer state, and does
    not give a location to a program that came without one.  When its call
    nodes resolve and there is a current element: a program without a
    location is a type error; a program with a location that is empty, in
    any state (in a tag or in an HTML comment as well as in text), or that
    holds only plain statements, in text, becomes a block body with the
    nodes of the statements as its children, in the order of the source,
    and the partial block becomes the last child of the current element,
    the rest of the element stack being as it was. *)
Theorem PartialBlockStatement_appends_its_block (name : HBS.Expression)
  (params : list HBS.Expression) (hash : option HBS.Hash)
  (body : list HBS.Statement) (blockParams : list string) (chained : bool)
  (openStrip closeStrip : HBS.StripFlags) (loc : HBS.SourceLocation)
  (p : Parser.t) (name' : ASTv1.Expression) (params' : list ASTv1.Expression)
  (hash' : ASTv1.Hash) (top : Parser.Parent) (rest : list Parser.Parent) :
  acceptCallNodes name params hash = Ok (name', params', hash') ->
  Parser.elementStack p = top :: rest ->
  PartialBlockStatement name params hash
    (HBS.MkProgram body blockParams chained None) openStrip closeStrip loc p =
    Throw (TypeError "the location of the program is undefined") /\
  (forall bodyLoc nodes,
     Forall2 plain body nodes ->
     body = [] \/
     Parser.state (Parser.tokenizer p) = Parser.data \/
     Parser.state (Parser.tokenizer p) = Parser.beforeData ->
     PartialBlockStatement name params hash
       (HBS.MkProgram body blockParams chained (Some bodyLoc))
       openStrip closeStrip loc p =
       let node :=
         ASTv1.PartialBlockStatement name' params' hash'
           (ASTv1.Block nodes blockParams chained (ASTv1.spanFor bodyLoc))
           openStrip closeStrip (ASTv1.spanFor loc) in
       Ok (Some node,
           Parser.with_stack (appendChild top node :: rest)
             (Parser.with_nextRef (S (Parser.nextRef p)) p))).
Proof.
  intros Hcall Hstack.
  unfold PartialBlockStatement, PartialBlockStatement_with.
  rewrite !(bind_lift_Ok _ _ _ _ Hcall). split.
  - apply bind_throw.
    exact (Program_without_location body blockParams chained p).
  - intros bodyLoc nodes Hall Hstate.
    pose proof (Program_of_plain_or_empty body nodes blockParams chained
                  bodyLoc p Hall Hstate) as Hprogram.
    unfold isTopLevel in Hprogram. rewrite Hstack in Hprogram.
    unfold Program in Hprogram.
    rewrite (bind_lift_Ok _ _ _ _ Hcall).
    rewrite (bind_returns _ _ _ _ _ Hprogram). cbv zeta.
    unfold bind, appendToCurrentElement, ret.
    cbn [Parser.elementStack Parser.with_nextRef]. now rewrite Hstack.
Qed.

End PlainBodies.

Lemma Program_of_plain_statements_witness :
  exists comment mustache,
    Program (collaborators := Demo.demo)
      (HBS.MkProgram Demo.noteAndHelper [] false (Some Demo.origin))
      Demo.initial =
    Ok (ASTv1.Template [comment; mustache] [] Demo.origin,
        Parser.with_nextRef 1 Demo.initial) /\
    ASTv1.node_type comment = "MustacheCommentStatement" /\
    ASTv1.node_type mustache = "MustacheStatement".
Proof.
  eexists. eexists. split.
  - refine (Program_of_plain_statements (collaborators := Demo.demo)
              Demo.noteAndHelper _ [] false Demo.origin Demo.initial _
              (or_intror eq_refl)).
    repeat constructor.
  - split; reflexivity.
Defined.

Lemma Program_stops_at_the_first_error_witness :
  Program (collaborators := Demo.demo)
    (HBS.MkProgram
       ([HBS.CommentStatement " note " Demo.fooLoc]
        ++ Demo.unnamedMustache :: [Demo.openDiv])%list
       [] false (Some Demo.origin))
    Demo.initial =
  Throw (SyntaxError invalidAtPath Demo.arg1Loc).
Proof.
  refine (Program_stops_at_the_first_error (collaborators := Demo.demo)
            [HBS.CommentStatement " note " Demo.fooLoc] _
            Demo.unnamedMustache [Demo.openDiv] [] false Demo.origin
            Demo.initial _ _ (or_intror eq_refl) eq_refl).
  repeat constructor.
Defined.

Lemma PartialBlockStatement_appends_its_block_witness :
  (exists node p',
     PartialBlockStatement (collaborators := Demo.demo) Demo.helperPath []
       None (HBS.MkProgram [] [] false (Some Demo.fooLoc)) Demo.noStrip
       Demo.noStrip Demo.mustacheLoc
       (Demo.inTag Parser.beforeAttributeName) = Ok (Some node, p') /\
     Parser.elementStack p' =
       [Parser.BodyParent 0 (ASTv1.Template [node] [] Demo.origin)]) /\
  (exists comment mustache p',
     PartialBlockStatement (collaborators := Demo.demo) Demo.helperPath []
       None (HBS.MkProgram Demo.noteAndHelper [] false (Some Demo.fooLoc))
       Demo.noStrip Demo.noStrip Demo.mustacheLoc Demo.inTemplate =
       Ok (Some
             (ASTv1.PartialBlockStatement
                (ASTv1.PathExpression "helper"
                   (ASTv1.VarHead (Some "helper")
                      (head_loc Demo.helperLoc 6)) [] Demo.helperLoc)
                [] (ASTv1.MkHash [] (ASTv1.collapse_end Demo.helperLoc))
                (ASTv1.Block [comment; mustache] [] false Demo.fooLoc)
                Demo.noStrip Demo.noStrip Demo.mustacheLoc), p')) /\
  PartialBlockStatement (collaborators := Demo.demo) Demo.helperPath []
    None (HBS.MkProgram [] [] false None) Demo.noStrip Demo.noStrip
    Demo.mustacheLoc Demo.inTemplate =
    Throw (TypeError "the location of the program is undefined").
Proof.
  split; [|split].
  - eexists. eexists. split.
    + refine (proj2 (PartialBlockStatement_appends_its_block
                       (collaborators := Demo.demo) Demo.helperPath [] None
                       [] [] false Demo.noStrip Demo.noStrip
                       Demo.mustacheLoc
                       (Demo.inTag Parser.beforeAttributeName) _ _ _ _ _
                       eq_refl eq_refl)
                Demo.fooLoc [] _ (or_introl eq_refl)).
      constructor.
    + reflexivity.
  - eexists. eexists. eexists.
    refine (proj2 (PartialBlockStatement_appends_its_block
                     (collaborators := Demo.demo) Demo.helperPath [] None
                     Demo.noteAndHelper [] false Demo.noStrip Demo.noStrip
                     Demo.mustacheLoc Demo.inTemplate _ _ _ _ _
                     eq_refl eq_refl)
              Demo.fooLoc [_; _] _ (or_intror (or_introl eq_refl))).
    repeat constructor.
  - exact (proj1 (PartialBlockStatement_appends_its_block
                    (collaborators := Demo.demo) Demo.helperPath [] None []
                    [] false Demo.noStrip Demo.noStrip Demo.mustacheLoc
                    Demo.inTemplate _ _ _ _ _ eq_refl eq_refl)).
Defined.

End BodyFacts.

(** ** Content whose leading whitespace was stripped *)

Module StrippedContentFacts.

Import JsString JsStringFacts ContentFacts HandlebarsNodeVisitors Spec.

Lemma prefix_refl (s : string) : prefix s s = true.
Proof.
  induction s as [|c s IH]; [reflexivity|].
  change (prefix (String c s) (String c s))
    with (match ascii_dec c c with
          | left _ => prefix s s
          | right _ => false
          end).
  destruct (ascii_dec c c); [exact IH|congruence].
Qed.

Lemma prefix_other_char (c a : ascii) (v s : string) :
  Ascii.eqb a c = false -> prefix (String c v) (String a s) = false.
Proof.
  intros H.
  change (prefix (String c v) (String a s))
    with (match ascii_dec c a with
          | left _ => prefix v s
          | right _ => false
          end).
  destruct (ascii_dec c a) as [->|]; [|reflexivity].
  now rewrite Ascii.eqb_refl in H.
Qed.

(** The first occurrence of a text that follows [ws] is right after [ws]
    when its first character does not occur in [ws]. *)
Lemma before_first_after (ws : string) (c : ascii) (v : string) :
  contains_char c ws = false ->
  before_first (String c v) (ws ++ String c v) = ws.
Proof.
  unfold before_first. intros H.
  assert (Hindex : index 0 (String c v) (ws ++ String c v) =
                   Some (String.length ws)).
  { induction ws as [|a ws IH].
    - cbn [append String.length index]. now rewrite prefix_refl.
    - cbn [contains_char] in H. destruct (Ascii.eqb a c) eqn:E;
        [discriminate|].
      cbn [append String.length index].
      rewrite (prefix_other_char _ _ _ _ E), (IH H). reflexivity. }
  rewrite Hindex. clear. induction ws as [|a ws IH]; [reflexivity|].
  cbn [append String.length substring]. now rewrite IH.
Qed.

Lemma offsets_after (ws : string) (c : ascii) (rest : string) :
  contains_char c ws = false ->
  calculateRightStrippedOffsets (ws ++ String c rest) (String c rest) =
    MkOffsets (count_newlines ws) (String.length (last_line ws)).
Proof.
  intros H. rewrite offsets_of_value by discriminate.
  now rewrite before_first_after.
Qed.

(** X21.  The offsets of a content statement whose text lost leading
    whitespace: when the original text is [ws] followed by the value, and
    the first character of the value does not occur in [ws], the line offset
    is the number of newlines of [ws] and the column offset is the length of
    the last line of [ws]. *)
Theorem calculateRightStrippedOffsets_of_stripped_text (ws : string)
  (c : ascii) (rest : string) :
  contains_char c ws = false ->
  calculateRightStrippedOffsets (ws ++ String c rest) (String c rest) =
    MkOffsets (count_newlines ws) (String.length (last_line ws)).
Proof.
  apply offsets_after.
Qed.

Lemma calculateRightStrippedOffsets_of_stripped_text_witness :
  calculateRightStrippedOffsets Demo.strippedOriginal "bar" = MkOffsets 1 2.
Proof.
  exact (calculateRightStrippedOffsets_of_stripped_text
           ("  " ++ JsString.newline ++ "  ") "b"%char "ar" eq_refl).
Defined.

(** X22.  A content statement whose value is its original text (nothing was
    stripped) puts the tokenizer at the start of the content, whatever line
    and column the tokenizer was at, and keeps its state. *)
Theorem updateTokenizerLocation_of_unstripped_content
  (tokenizer : Parser.Tokenizer) (text : string) (loc : HBS.SourceLocation) :
  updateTokenizerLocation tokenizer text text loc =
    Parser.MkTokenizer (Parser.state tokenizer) (HBS.line (HBS.start loc))
      (HBS.column (HBS.start loc)).
Proof.
  unfold updateTokenizerLocation.
  assert (H : calculateRightStrippedOffsets text text = MkOffsets 0 0).
  { destruct text as [|c rest]; [reflexivity|].
    exact (offsets_after EmptyString c rest eq_refl). }
  rewrite H. cbn [lines columns]. now rewrite !Nat.add_0_r.
Qed.

End StrippedContentFacts.

(** ** Custom helper managers *)

Module HelperManagerFacts.

Import HelperManager.

(** X23.  [helperCapabilities] checks its arguments in debug builds only.
    In a build that is not a debug build it never throws, whatever the
    version and the options, and builds the capabilities from the truth
    values of the three options.  In a debug build it returns exactly when
    the version is [3.23], [hasValue] is set and [hasScheduledEffect] is
    not, and the capabilities are then built with [hasValue] true and
    [hasScheduledEffect] false; in every other case it throws. *)
Theorem helperCapabilities_checks_in_debug_builds_only {Capabilities : Type}
  (buildCapabilities : HelperCapabilities -> Capabilities)
  (managerAPI : string) (options : Options) :
  let accepted :=
    String.eqb managerAPI "3.23" && truthy (optHasValue options) &&
    negb (truthy (optHasScheduledEffect options)) in
  helperCapabilities false Capabilities buildCapabilities managerAPI options =
    Ok (buildCapabilities
          (MkCapabilities (truthy (optHasValue options))
             (truthy (optHasDestroyable options))
             (truthy (optHasScheduledEffect options)))) /\
  (accepted = true ->
   helperCapabilities true Capabilities buildCapabilities managerAPI options =
     Ok (buildCapabilities
           (MkCapabilities true (truthy (optHasDestroyable options)) false))) /\
  (accepted = false ->
   exists message,
     helperCapabilities true Capabilities buildCapabilities managerAPI options =
       Throw message).
Proof.
  cbv zeta. split; [reflexivity|]. unfold helperCapabilities.
  destruct (String.eqb managerAPI "3.23"),
    (truthy (optHasValue options)),
    (truthy (optHasScheduledEffect options)); cbn;
    (split; intros H; [try discriminate H; reflexivity|
                       try discriminate H; eexists; reflexivity]).
Qed.

Section Delegates.

Variable Delegate : Type.
Variable World : Type.
Variable factory :
  option Owner -> World -> Result string (Delegate * World).
Variable DEBUG : bool.
Variable fromCapabilities : Delegate -> bool.
Variable capabilitiesJSON : Delegate -> string.
Variable delegateString : Delegate -> string.

Lemma get_set_same (owner : Owner) (delegate : Delegate)
  (map : list (Owner * Delegate)) :
  get Delegate owner (set Delegate owner delegate map) = Some delegate.
Proof.
  induction map as [|[key old] map IH]; cbn [set get].
  - now rewrite Nat.eqb_refl.
  - destruct (Nat.eqb key owner) eqn:E; cbn [get]; now rewrite E.
Qed.

Lemma get_set_other (owner other : Owner) (delegate : Delegate)
  (map : list (Owner * Delegate)) :
  other <> owner ->
  get Delegate other (set Delegate owner delegate map) =
    get Delegate other map.
Proof.
  intros Hne. induction map as [|[key old] map IH]; cbn [set get].
  - destruct (Nat.eqb_spec owner other); [congruence|reflexivity].
  - destruct (Nat.eqb_spec key owner) as [->|Hk]; cbn [get].
    + destruct (Nat.eqb_spec owner other); [congruence|reflexivity].
    + now rewrite IH.
Qed.

(** What a call that returns does to the manager. *)
Lemma getDelegateFor_returns (owner : option Owner) (manager : t Delegate)
  (world : World) (delegate : Delegate) (manager' : t Delegate)
  (world' : World) :
  getDelegateFor Delegate World factory DEBUG fromCapabilities
    capabilitiesJSON delegateString owner (manager, world) = Ok (delegate, (manager', world')) ->
  delegateOf Delegate owner manager' = Some delegate /\
  (forall held, delegateOf Delegate owner manager = Some held ->
                held = delegate /\ manager' = manager /\ world' = world) /\
  (forall other, other <> owner ->
                 delegateOf Delegate other manager' =
                   delegateOf Delegate other manager).
Proof.
  destruct manager as [map undefined], owner as [owner|];
    cbn [HelperManager.getDelegateFor getDelegateForOwner delegateOf
         helperManagerDelegates undefinedDelegate].
  - destruct (get Delegate owner map) as [held|] eqn:Eheld.
    + intros [= <- <- <-]. cbn [helperManagerDelegates].
      split; [exact Eheld|]. split; [|reflexivity].
      intros held' [= <-]. repeat split.
    + destruct (factory (Some owner) world) as [[made w]|e]; [|discriminate].
      destruct (DEBUG && negb (fromCapabilities made)); [discriminate|].
      intros [= <- <- <-]. cbn [helperManagerDelegates undefinedDelegate].
      split; [apply get_set_same|]. split; [discriminate|].
      intros [other|] Hne; [|reflexivity].
      apply get_set_other. congruence.
  - destruct undefined as [held|].
    + intros [= <- <- <-]. cbn [undefinedDelegate].
      split; [reflexivity|]. split; [|reflexivity].
      intros held' [= <-]. repeat split.
    + destruct (factory None world) as [[made w]|e]; [|discriminate].
      intros [= <- <- <-]. cbn [helperManagerDelegates undefinedDelegate].
      split; [reflexivity|]. split; [discriminate|].
      intros [other|] Hne; [reflexivity|congruence].
Qed.

(** X24.  The delegate of an owner is made once: when [getDelegateFor] has
    returned a delegate for an owner (or for no owner), asking again for the
    same owner returns that delegate and changes nothing: the factory is not
    called again. *)
Theorem getDelegateFor_is_memoised (owner : option Owner)
  (manager : t Delegate) (world : World) (delegate : Delegate)
  (manager' : t Delegate) (world' : World) :
  getDelegateFor Delegate World factory DEBUG fromCapabilities
    capabilitiesJSON delegateString owner (manager, world) = Ok (delegate, (manager', world')) ->
  getDelegateFor Delegate World factory DEBUG fromCapabilities
    capabilitiesJSON delegateString owner (manager', world') =
    Ok (delegate, (manager', world')).
Proof.
  intros H. apply getDelegateFor_returns in H. destruct H as (Hheld & _ & _).
  destruct manager' as [map undefined], owner as [owner|];
    cbn [HelperManager.getDelegateFor getDelegateForOwner delegateOf
         helperManagerDelegates undefinedDelegate] in *;
    now rewrite Hheld.
Qed.

(** X25.  A call of [getDelegateFor] never replaces a delegate that the manager
    holds: the delegate held for any owner before the call, the owner of the
    call or another, is the delegate held for it after the call. *)
Theorem getDelegateFor_keeps_delegates (owner other : option Owner)
  (manager : t Delegate) (world : World) (delegate held : Delegate)
  (manager' : t Delegate) (world' : World) :
  getDelegateFor Delegate World factory DEBUG fromCapabilities
    capabilitiesJSON delegateString owner (manager, world) = Ok (delegate, (manager', world')) ->
  delegateOf Delegate other manager = Some held ->
  delegateOf Delegate other manager' = Some held.
Proof.
  intros H Hheld. apply getDelegateFor_returns in H.
  destruct H as (Hnew & Hsame & Hother).
  assert (Hdec : other = owner \/ other <> owner).
  { destruct other as [a|], owner as [b|];
      try (right; discriminate); [|now left].
    destruct (Nat.eq_dec a b) as [->|Hne]; [now left|right; congruence]. }
  destruct Hdec as [->|Hne].
  - destruct (Hsame held Hheld) as (-> & _ & _). exact Hnew.
  - now rewrite Hother.
Qed.

(** X26.  In a debug build the delegates made for owners are checked and the
    delegate made for no owner is not.  When every delegate that the manager
    holds for an owner has capabilities made by [capabilities], this is so
    again after a call that returns, and a delegate returned for an owner
    has such capabilities; a delegate that the factory makes for an owner
    without such capabilities is refused with an error.  The delegate that
    the factory makes for no owner is stored and returned as it is, whatever
    its capabilities are. *)
Theorem getDelegateFor_checks_capabilities_of_owned (manager : t Delegate)
  (world : World) :
  DEBUG = true ->
  (forall key held,
     get Delegate key (helperManagerDelegates Delegate manager) = Some held ->
     fromCapabilities held = true) ->
  (forall owner delegate manager' world',
     getDelegateFor Delegate World factory DEBUG fromCapabilities
       capabilitiesJSON delegateString owner (manager, world) =
       Ok (delegate, (manager', world')) ->
     (forall key held,
        get Delegate key (helperManagerDelegates Delegate manager') =
          Some held ->
        fromCapabilities held = true) /\
     (owner <> None -> fromCapabilities delegate = true)) /\
  (forall owner made world1,
     get Delegate owner (helperManagerDelegates Delegate manager) = None ->
     factory (Some owner) world = Ok (made, world1) ->
     fromCapabilities made = false ->
     getDelegateFor Delegate World factory DEBUG fromCapabilities
       capabilitiesJSON delegateString (Some owner) (manager, world) =
       Throw (invalidCapabilities Delegate capabilitiesJSON delegateString
                made)) /\
  (forall made world1,
     undefinedDelegate Delegate manager = None ->
     factory None world = Ok (made, world1) ->
     getDelegateFor Delegate World factory DEBUG fromCapabilities
       capabilitiesJSON delegateString None (manager, world) =
       Ok (made,
           (MkManager Delegate (helperManagerDelegates Delegate manager)
              (Some made),
            world1))).
Proof.
  intros Hdebug Hinv. split; [|split].
  - intros owner delegate manager' world' H.
    destruct manager as [map undefined], owner as [owner|];
      cbn [HelperManager.getDelegateFor getDelegateForOwner
           helperManagerDelegates undefinedDelegate] in *.
    + destruct (get Delegate owner map) as [held|] eqn:Eheld.
      * injection H as <- <- <-. split; [exact Hinv|].
        intros _. now apply (Hinv owner).
      * destruct (factory (Some owner) world) as [[made w]|e];
          [|discriminate].
        rewrite Hdebug in H. cbn [andb] in H.
        destruct (fromCapabilities made) eqn:Emade; [|discriminate].
        cbn [negb] in H. injection H as <- <- <-.
        cbn [helperManagerDelegates]. split; [|now intros _].
        intros key held Hkey.
        destruct (Nat.eq_dec key owner) as [->|Hne].
        -- rewrite get_set_same in Hkey. now injection Hkey as <-.
        -- rewrite get_set_other in Hkey by exact Hne. now apply (Hinv key).
    + split; [|congruence].
      destruct undefined as [held|].
      * injection H as <- <- <-. exact Hinv.
      * destruct (factory None world) as [[made w]|e]; [|discriminate].
        injection H as <- <- <-. exact Hinv.
  - intros owner made world1 Hnone Hmade Hcheck.
    destruct manager as [map undefined].
    cbn [HelperManager.getDelegateFor getDelegateForOwner
         helperManagerDelegates] in *.
    now rewrite Hnone, Hmade, Hdebug, Hcheck.
  - intros made world1 Hnone Hmade.
    destruct manager as [map undefined].
    cbn [HelperManager.getDelegateFor helperManagerDelegates
         undefinedDelegate] in *.
    now rewrite Hnone, Hmade.
Qed.

End Delegates.

Lemma getDelegateFor_is_memoised_witness :
  getDelegateFor nat nat Demo.counting true Demo.even_only
    Demo.shown Demo.shown (Some 7)
    (MkManager nat [(7, 0)] None, 1) =
  Ok (0, (MkManager nat [(7, 0)] None, 1)).
Proof.
  exact (getDelegateFor_is_memoised nat nat Demo.counting true
           Demo.even_only Demo.shown Demo.shown
           (Some 7) (create nat) 0 0 (MkManager nat [(7, 0)] None) 1 eq_refl).
Defined.

Lemma getDelegateFor_keeps_delegates_witness :
  delegateOf nat (Some 7) (MkManager nat [(7, 0)] (Some 1)) = Some 0.
Proof.
  exact (getDelegateFor_keeps_delegates nat nat Demo.counting true
           Demo.even_only Demo.shown Demo.shown
           None (Some 7) (MkManager nat [(7, 0)] None) 1 1 0
           (MkManager nat [(7, 0)] (Some 1)) 2 eq_refl eq_refl).
Defined.

Lemma getDelegateFor_checks_capabilities_of_owned_witness :
  (Demo.even_only 1 = false /\
   getDelegateFor nat nat Demo.counting true Demo.even_only Demo.shown
     Demo.shown None (create nat, 1) =
     Ok (1, (MkManager nat [] (Some 1), 2))) /\
  getDelegateFor nat nat Demo.counting true Demo.even_only Demo.shown
    Demo.shown (Some 7) (create nat, 1) =
    Throw (invalidCapabilities nat Demo.shown Demo.shown 1) /\
  (Some 7 <> None -> Demo.even_only 0 = true).
Proof.
  assert (Hheld : forall (key : Owner) (held : nat),
             get nat key (helperManagerDelegates nat (create nat)) =
               Some held ->
             Demo.even_only held = true)
    by (intros key held H; discriminate H).
  pose proof (getDelegateFor_checks_capabilities_of_owned nat nat
                Demo.counting true Demo.even_only Demo.shown Demo.shown
                (create nat) 1 eq_refl Hheld) as (_ & Howned & Hnone).
  pose proof (getDelegateFor_checks_capabilities_of_owned nat nat
                Demo.counting true Demo.even_only Demo.shown Demo.shown
                (create nat) 0 eq_refl Hheld) as (Hreturned & _ & _).
  split; [split; [reflexivity|]|split].
  - exact (Hnone 1 2 eq_refl eq_refl).
  - exact (Howned 7 1 2 eq_refl eq_refl eq_refl).
  - exact (proj2 (Hreturned (Some 7) 0 (MkManager nat [(7, 0)] None) 1
                    eq_refl)).
Defined.

End HelperManagerFacts.
